(** * generate_ip_csv.py: a shallow embedding and its verified properties

    The script aggregates IP-to-country data from several sources into one
    CSV of CIDR networks.  Every function of [generate_ip_csv.py] is embedded
    below under its own name.  Data frames are lists of records (one record
    per row, in row order); text is [string]; Python integers are [Z];
    raised exceptions are values of [PyError] carried by the [result] monad;
    file reads and writes of [main] are logged in an event trace.

    Library calls are embedded by what the script relies on:
    - [str.split], [str.join], [in], [str] and [int] on text held as UTF-8
      ([int] with the Unicode decimal digits and white space it accepts);
    - [ipaddress] (addresses, networks, [summarize_address_range]) after
      CPython's [Lib/ipaddress.py];
    - [DataFrame.sort_values] with its default [kind] (quicksort), which
      promises a sorted permutation and nothing about rows with equal keys:
      the sort is the [Sorter] interface, a function bundled with exactly
      that contract; what the default sort does with equal keys on a given
      frame is computed with numpy's quicksort, embedded in [numpy];
    - [DataFrame.drop_duplicates] (keep the first occurrence), [pd.concat],
      [pd.read_csv] (a file is the list of its rows, a row the cells of its
      columns as text; the cells that pandas reads as missing values are
      told apart where the script compares a cell). *)

From Stdlib Require Import List String Ascii ZArith Lia Bool Arith.
From Stdlib Require Import Permutation Sorted Decimal DecimalString DecimalZ.
From Stdlib Require HexadecimalString.
From Equations Require Import Equations.
Import ListNotations.

Open Scope string_scope.
Open Scope Z_scope.
Open Scope list_scope.

(* ===================================================================== *)
(** ** Python exceptions and the error monad *)
(* ===================================================================== *)

Inductive PyError : Type :=
| KeyError (key : string)
| IndexError
| ValueError
| AddressValueError
| FileNotFoundError (path : string)
| SystemExit (code : Z).

Inductive result (A : Type) : Type :=
| OK (a : A)
| Raise (e : PyError).
Arguments OK {A} a.
Arguments Raise {A} e.

Definition bind {A B : Type} (m : result A) (k : A -> result B) : result B :=
  match m with
  | OK a => k a
  | Raise e => Raise e
  end.

Declare Scope py_scope.
Delimit Scope py_scope with py.
Notation "x <- m ;; k" := (bind m (fun x => k))
  (at level 61, m at next level, right associativity) : py_scope.
Open Scope py_scope.

(** A [for] loop that builds a list, stopping at the first exception. *)
Fixpoint mapM {A B : Type} (f : A -> result B) (l : list A) : result (list B) :=
  match l with
  | [] => OK []
  | x :: r => y <- f x ;; ys <- mapM f r ;; OK (y :: ys)
  end.

(* ===================================================================== *)
(** ** Python strings *)
(* ===================================================================== *)

(** [c in s] for a one-character [c]. *)
Fixpoint contains (c : ascii) (s : string) : bool :=
  match s with
  | EmptyString => false
  | String a r => Ascii.eqb a c || contains c r
  end.

(** [s.split(sep)] for a one-character separator: never empty. *)
Fixpoint split (sep : ascii) (s : string) : list string :=
  match s with
  | EmptyString => [EmptyString]
  | String a r =>
      if Ascii.eqb a sep then EmptyString :: split sep r
      else match split sep r with
           | h :: t => String a h :: t
           | [] => [String a EmptyString]
           end
  end.

(** [sep.join(l)] *)
Definition join (sep : string) (l : list string) : string := String.concat sep l.

(** [l[i] = v] on a Python list: [IndexError] out of range. *)
Fixpoint set_item {A : Type} (l : list A) (i : nat) (v : A) : result (list A) :=
  match l, i with
  | [], _ => Raise IndexError
  | _ :: r, O => OK (v :: r)
  | x :: r, S j => r' <- set_item r j v ;; OK (x :: r')
  end.

(** [l[i]] on a Python list. *)
Definition get_item {A : Type} (l : list A) (i : nat) : result A :=
  match nth_error l i with
  | Some x => OK x
  | None => Raise IndexError
  end.

(** The white space that [int] skips around an ASCII literal: tab, line
    feed, vertical tab, form feed, carriage return and space. *)
Definition is_space (c : ascii) : bool :=
  let n := nat_of_ascii c in
  ((9 <=? n)%nat && (n <=? 13)%nat) || (n =? 32)%nat.

Fixpoint lstrip (s : string) : string :=
  match s with
  | EmptyString => EmptyString
  | String a r => if is_space a then lstrip r else s
  end.

Fixpoint rstrip (s : string) : string :=
  match s with
  | EmptyString => EmptyString
  | String a r =>
      match rstrip r with
      | EmptyString => if is_space a then EmptyString else String a EmptyString
      | r' => String a r'
      end
  end.

Definition strip (s : string) : string := rstrip (lstrip s).

Definition digit_of (c : ascii) : option (uint -> uint) :=
  match c with
  | "0"%char => Some D0 | "1"%char => Some D1 | "2"%char => Some D2
  | "3"%char => Some D3 | "4"%char => Some D4 | "5"%char => Some D5
  | "6"%char => Some D6 | "7"%char => Some D7 | "8"%char => Some D8
  | "9"%char => Some D9 | _ => None
  end.

(** The digits of a decimal literal: [digit (_? digit)*]. *)
Fixpoint digits (s : string) : option uint :=
  match s with
  | EmptyString => None
  | String a r =>
      match digit_of a with
      | None => None
      | Some d =>
          match r with
          | EmptyString => Some (d Nil)
          | String "_"%char r' => option_map d (digits r')
          | _ => option_map d (digits r)
          end
      end
  end.

(** [PyLong_FromString(buffer, &end, 10)] followed by the test that the
    whole buffer was read: surrounding white space, an optional sign,
    decimal digits with single underscores between them.  The interpreter's
    adjustable cap on the length of a literal ([sys.set_int_max_str_digits],
    4300 digits unless changed, and absent before Python 3.11) is left out:
    a literal of at most 4300 characters is read the same with or without
    it. *)
Definition PyLong_FromString (buffer : string) : result Z :=
  let t := strip buffer in
  let signed :=
    match t with
    | String "-"%char r => option_map (fun u => - Z.of_uint u) (digits r)
    | String "+"%char r => option_map Z.of_uint (digits r)
    | _ => option_map Z.of_uint (digits t)
    end in
  match signed with
  | Some z => OK z
  | None => Raise ValueError
  end.

(** Text is UTF-8: a Python [str] is the string of the bytes of its UTF-8
    encoding, which is how the files hold it.  [split], [in] and the order
    of strings are the same on the bytes as on the characters; [int] looks
    at the characters. *)
Definition continuation (b : ascii) : option N :=
  let n := N_of_ascii b in
  if (128 <=? n)%N && (n <? 192)%N then Some (n - 128)%N else None.

(** The code points of a text, [None] when the bytes are not the UTF-8
    encoding of any (a stray or missing continuation byte, an overlong form,
    a surrogate, a value beyond U+10FFFF). *)
Fixpoint code_points (s : string) : option (list N) :=
  match s with
  | EmptyString => Some []
  | String b0 r0 =>
      let n0 := N_of_ascii b0 in
      if (n0 <? 128)%N then option_map (cons n0) (code_points r0)
      else if (n0 <? 192)%N then None
      else if (n0 <? 224)%N then
        match r0 with
        | String b1 r1 =>
            match continuation b1 with
            | Some c1 =>
                let ch := ((n0 - 192) * 64 + c1)%N in
                if (ch <? 128)%N then None else option_map (cons ch) (code_points r1)
            | None => None
            end
        | EmptyString => None
        end
      else if (n0 <? 240)%N then
        match r0 with
        | String b1 (String b2 r2) =>
            match continuation b1, continuation b2 with
            | Some c1, Some c2 =>
                let ch := (((n0 - 224) * 64 + c1) * 64 + c2)%N in
                if (ch <? 2048)%N || ((55296 <=? ch)%N && (ch <? 57344)%N) then None
                else option_map (cons ch) (code_points r2)
            | _, _ => None
            end
        | _ => None
        end
      else if (n0 <? 248)%N then
        match r0 with
        | String b1 (String b2 (String b3 r3)) =>
            match continuation b1, continuation b2, continuation b3 with
            | Some c1, Some c2, Some c3 =>
                let ch := ((((n0 - 240) * 64 + c1) * 64 + c2) * 64 + c3)%N in
                if (ch <? 65536)%N || (1114111 <? ch)%N then None
                else option_map (cons ch) (code_points r3)
            | _, _, _ => None
            end
        | _ => None
        end
      else None
  end.

(** [Py_UNICODE_ISSPACE(ch)] for a character beyond ASCII. *)
Definition Py_UNICODE_ISSPACE (ch : N) : bool :=
  existsb (N.eqb ch)
    [133; 160; 5760; 8192; 8193; 8194; 8195; 8196; 8197; 8198; 8199; 8200; 8201;
     8202; 8232; 8233; 8239; 8287; 12288]%N.

(** The first code point of every run of ten decimal digits, zero to nine,
    of the Unicode character database (version 14.0.0, that of
    Python 3.11). *)
Definition decimal_digit_zeros : list N :=
  [48; 1632; 1776; 1984; 2406; 2534; 2662; 2790; 2918; 3046; 3174; 3302; 3430;
   3558; 3664; 3792; 3872; 4160; 4240; 6112; 6160; 6470; 6608; 6784; 6800; 6992;
   7088; 7232; 7248; 42528; 43216; 43264; 43472; 43504; 43600; 44016; 65296;
   66720; 68912; 69734; 69872; 69942; 70096; 70384; 70736; 70864; 71248; 71360;
   71472; 71904; 72016; 72784; 73040; 73120; 92768; 92864; 93008; 120782;
   120792; 120802; 120812; 120822; 123200; 123632; 125264; 130032]%N.

(** [Py_UNICODE_TODECIMAL(ch)]: the value of a decimal digit. *)
Definition Py_UNICODE_TODECIMAL (ch : N) : option N :=
  match find (fun first => (first <=? ch)%N && (ch <? first + 10)%N) decimal_digit_zeros with
  | Some first => Some (ch - first)%N
  | None => None
  end.

(** The loop of [_PyUnicode_TransformDecimalAndSpaceToASCII]: ASCII stays,
    white space becomes a space, a decimal digit its ASCII digit, and
    anything else a question mark, at which the buffer ends. *)
Fixpoint transform_chars (chars : list N) : string :=
  match chars with
  | [] => EmptyString
  | ch :: rest =>
      if (ch <? 127)%N then String (ascii_of_N ch) (transform_chars rest)
      else if Py_UNICODE_ISSPACE ch then String " " (transform_chars rest)
      else
        match Py_UNICODE_TODECIMAL ch with
        | Some decimal => String (ascii_of_N (48 + decimal)) (transform_chars rest)
        | None => "?"
        end
  end.

Definition isascii (s : string) : bool :=
  forallb (fun b => (N_of_ascii b <? 128)%N) (list_ascii_of_string s).

(** An ASCII text is its own buffer. *)
Definition _PyUnicode_TransformDecimalAndSpaceToASCII (s : string) : option string :=
  if isascii s then Some s else option_map transform_chars (code_points s).

(** [int(s)] for a string ([PyLong_FromUnicodeObject]).  Bytes that are no
    UTF-8 text stand for no Python string; [ValueError] is returned for
    them. *)
Definition py_int (s : string) : result Z :=
  match _PyUnicode_TransformDecimalAndSpaceToASCII s with
  | Some buffer => PyLong_FromString buffer
  | None => Raise ValueError
  end.

(** [str(n)] for an integer. *)
Definition py_str (n : Z) : string := NilZero.string_of_int (Z.to_int n).

(* ===================================================================== *)
(** ** pandas: frames as lists of rows *)
(* ===================================================================== *)

(** A row of a (Network, Country) frame. *)
Record CIDRRecord : Type := mkCIDR { Network : string; Country : string }.

(** A row of the intermediate frame of [expand_df]: the dictionaries with
    keys "IP", "Subnet" and "Country". *)
Record SplitRow : Type := mkSplit { IP : string; Subnet : Z; SCountry : string }.

Definition CIDRRecord_eqb (a b : CIDRRecord) : bool :=
  String.eqb (Network a) (Network b) && String.eqb (Country a) (Country b).

(** [pd.concat([dst_df, src_df], ignore_index=True)] *)
Definition concat_df {A : Type} (dst_df src_df : list A) : list A := dst_df ++ src_df.

(** [df.drop_duplicates(subset=...)]: a row is dropped when an earlier row
    has the same key; the first occurrence stays, in place. *)
Fixpoint drop_duplicates_from {A K : Type} (eqb : K -> K -> bool) (key : A -> K)
    (seen : list K) (l : list A) : list A :=
  match l with
  | [] => []
  | x :: r =>
      if existsb (eqb (key x)) seen then drop_duplicates_from eqb key seen r
      else x :: drop_duplicates_from eqb key (key x :: seen) r
  end.

Definition drop_duplicates {A K : Type} (eqb : K -> K -> bool) (key : A -> K)
    (l : list A) : list A :=
  drop_duplicates_from eqb key [] l.

(** [df.sort_values(col)] is called with the default [kind], quicksort.
    pandas documents mergesort and stable as the only stable kinds, so the
    call promises some permutation of the rows in ascending order of the
    column, and leaves open the order of rows with equal keys.  [Sorter] is
    that contract: any sorting function with these two properties.  What is
    proved for every [Sorter] holds whatever the sorting algorithm does with
    equal keys. *)
Definition total {A : Type} (le : A -> A -> bool) : Prop :=
  forall a b, le a b = true \/ le b a = true.
Definition transitive {A : Type} (le : A -> A -> bool) : Prop :=
  forall a b c, le a b = true -> le b c = true -> le a c = true.

Record Sorter : Type := mkSorter {
  sort_by : forall {A : Type}, (A -> A -> bool) -> list A -> list A;
  sort_by_perm : forall (A : Type) (le : A -> A -> bool) (l : list A),
      Permutation l (sort_by le l);
  sort_by_sorted : forall (A : Type) (le : A -> A -> bool) (l : list A),
      total le -> transitive le ->
      StronglySorted (fun a b => le a b = true) (sort_by le l)
}.

(** A frame built from a list of dictionaries has the dictionaries' keys as
    columns, and no column at all when the list is empty: sorting an empty
    one by a column raises [KeyError]. *)
Definition sort_values {A : Type} (S : Sorter) (col : string)
    (le : A -> A -> bool) (rows : list A) : result (list A) :=
  match rows with
  | [] => Raise (KeyError col)
  | _ => OK (sort_by S le rows)
  end.

Definition le_Subnet (a b : SplitRow) : bool := Subnet a <=? Subnet b.
Definition le_Country (a b : CIDRRecord) : bool := String.leb (Country a) (Country b).

(** Two sorting functions that meet the contract.  [insertion_sort] is
    stable; [quicksort], a functional quicksort that takes the middle element
    as pivot and puts the elements equal to the pivot behind it, is not.
    Neither is what pandas runs: they stand for the sorts the contract
    allows.  numpy's own routine follows. *)
Fixpoint insert {A : Type} (le : A -> A -> bool) (x : A) (l : list A) : list A :=
  match l with
  | [] => [x]
  | y :: r => if le x y then x :: l else y :: insert le x r
  end.

Fixpoint insertion_sort {A : Type} (le : A -> A -> bool) (l : list A) : list A :=
  match l with
  | [] => []
  | x :: r => insert le x (insertion_sort le r)
  end.

(** [take_middle l] is the element at index [length l / 2] and the others. *)
Definition take_middle {A : Type} (l : list A) : option (A * list A) :=
  let n := Nat.div2 (List.length l) in
  match skipn n l with
  | [] => None
  | p :: post => Some (p, firstn n l ++ post)
  end.

Fixpoint quicksort_fuel {A : Type} (fuel : nat) (le : A -> A -> bool) (l : list A) : list A :=
  match fuel with
  | O => insertion_sort le l
  | S n =>
      match take_middle l with
      | None => []
      | Some (p, rest) =>
          quicksort_fuel n le (filter (fun x => negb (le p x)) rest)
            ++ p :: quicksort_fuel n le (filter (fun x => le p x) rest)
      end
  end.

Definition quicksort {A : Type} (le : A -> A -> bool) (l : list A) : list A :=
  quicksort_fuel (List.length l) le l.

(* ===================================================================== *)
(** ** numpy: the quicksort behind sort_values *)
(* ===================================================================== *)

(** [df.sort_values(col)] computes [indexer = values.argsort(kind="quicksort")]
    on the column and returns [df.take(indexer)].  numpy's quicksort is an
    introsort ([npysort/quicksort], function [aquicksort_] for integers and
    [npy_aquicksort], the same routine over a comparison function, for
    object columns): median-of-three quicksort on the array of indices
    [tosort], insertion sort for partitions of at most 16 elements, and
    heapsort for a partition that is reached after more than
    [2 * floor(log2 n)] splits.  This is the portable routine; numpy builds
    also carry vectorised sorts that they may use for numeric columns on
    some processors. *)
Module numpy.

Definition SMALL_QUICKSORT : nat := 15.

(** [tosort[p]] and [tosort[p] = x] *)
Definition get (tosort : list nat) (p : nat) : nat := nth p tosort 0%nat.

Fixpoint set (tosort : list nat) (p x : nat) : list nat :=
  match tosort, p with
  | [], _ => []
  | _ :: r, O => x :: r
  | y :: r, S q => y :: set r q x
  end.

Definition INTP_SWAP (tosort : list nat) (p q : nat) : list nat :=
  set (set tosort p (get tosort q)) q (get tosort p).

Section Argsort.
Context {A : Type} (le : A -> A -> bool) (v : list A).

(** [Tag::less(v[i], v[j])] for two indices into the column. *)
Definition less (i j : nat) : bool :=
  match nth_error v i, nth_error v j with
  | Some a, Some b => negb (le b a)
  | _, _ => false
  end.

(** [do { ++pi; } while (less(v[*pi], vp));] with [vp] the index of the
    pivot; the sentinels of the median of three keep it inside the
    partition, and the count of steps is bounded by the array. *)
Fixpoint scan_up (fuel : nat) (tosort : list nat) (vp pi : nat) : nat :=
  match fuel with
  | O => S pi
  | S fuel' =>
      if less (get tosort (S pi)) vp then scan_up fuel' tosort vp (S pi) else S pi
  end.

(** [do { --pj; } while (less(vp, v[*pj]));] *)
Fixpoint scan_down (fuel : nat) (tosort : list nat) (vp pj : nat) : nat :=
  match fuel with
  | O => (pj - 1)%nat
  | S fuel' =>
      if less vp (get tosort (pj - 1)) then scan_down fuel' tosort vp (pj - 1)%nat
      else (pj - 1)%nat
  end.

(** The [for (;;)] loop of the partition: scan, stop when the scans meet,
    swap. *)
Fixpoint partition_loop (fuel : nat) (tosort : list nat) (vp pi pj : nat)
    : list nat * nat :=
  match fuel with
  | O => (tosort, pi)
  | S fuel' =>
      let pi := scan_up (List.length tosort) tosort vp pi in
      let pj := scan_down (List.length tosort) tosort vp pj in
      if (pj <=? pi)%nat then (tosort, pi)
      else partition_loop fuel' (INTP_SWAP tosort pi pj) vp pi pj
  end.

(** The quicksort partition of [tosort[pl .. pr]]:
<<
    pm = pl + ((pr - pl) >> 1);
    if (less(v[*pm], v[*pl])) INTP_SWAP( *pm, *pl);
    if (less(v[*pr], v[*pm])) INTP_SWAP( *pr, *pm);
    if (less(v[*pm], v[*pl])) INTP_SWAP( *pm, *pl);
    vp = v[*pm];
    pi = pl;
    pj = pr - 1;
    INTP_SWAP( *pm, *pj);
    for (;;) { ... }
    pk = pr - 1;
    INTP_SWAP( *pi, *pk);
>>
    It returns the array and [pi], where the pivot now is. *)
Definition partition (tosort : list nat) (pl pr : nat) : list nat * nat :=
  let pm := (pl + Nat.div2 (pr - pl))%nat in
  let tosort := if less (get tosort pm) (get tosort pl) then INTP_SWAP tosort pm pl
                else tosort in
  let tosort := if less (get tosort pr) (get tosort pm) then INTP_SWAP tosort pr pm
                else tosort in
  let tosort := if less (get tosort pm) (get tosort pl) then INTP_SWAP tosort pm pl
                else tosort in
  let vp := get tosort pm in
  let pj := (pr - 1)%nat in
  let tosort := INTP_SWAP tosort pm pj in
  let (tosort, pi) := partition_loop (List.length tosort) tosort vp pl pj in
  (INTP_SWAP tosort pi (pr - 1), pi).

(** The insertion sort of [tosort[pl .. pr]]:
<<
    for (pi = pl + 1; pi <= pr; ++pi) {
        vi = *pi; vp = v[vi]; pj = pi; pk = pi - 1;
        while (pj > pl && less(vp, v[*pk])) { *pj-- = *pk--; }
        *pj = vi;
    }
>> *)
Fixpoint insert_down (fuel : nat) (tosort : list nat) (pl vi pj : nat) : list nat :=
  match fuel with
  | O => set tosort pj vi
  | S fuel' =>
      if (pl <? pj)%nat && less vi (get tosort (pj - 1))
      then insert_down fuel' (set tosort pj (get tosort (pj - 1))) pl vi (pj - 1)%nat
      else set tosort pj vi
  end.

Fixpoint insertion_loop (count : nat) (tosort : list nat) (pl pi : nat) : list nat :=
  match count with
  | O => tosort
  | S count' =>
      insertion_loop count' (insert_down pi tosort pl (get tosort pi) pi) pl (S pi)
  end.

Definition insertion_sort_range (tosort : list nat) (pl pr : nat) : list nat :=
  insertion_loop (pr - pl) tosort pl (S pl).

(** [aheapsort_(vv, pl, n)]: the heap is [a[1 .. n]] with [a = pl - 1].
<<
    for (i = l, j = l << 1; j <= n;) {
        if (j < n && less(v[a[j]], v[a[j + 1]])) j += 1;
        if (less(v[tmp], v[a[j]])) { a[i] = a[j]; i = j; j += j; }
        else break;
    }
    a[i] = tmp;
>> *)
Fixpoint sift_down (fuel : nat) (tosort : list nat) (pl n tmp i j : nat) : list nat :=
  match fuel with
  | O => set tosort (pl + i - 1) tmp
  | S fuel' =>
      if (j <=? n)%nat then
        let j := if (j <? n)%nat
                    && less (get tosort (pl + j - 1)) (get tosort (pl + (j + 1) - 1))
                 then (j + 1)%nat else j in
        if less tmp (get tosort (pl + j - 1))
        then sift_down fuel' (set tosort (pl + i - 1) (get tosort (pl + j - 1)))
                       pl n tmp j (j + j)%nat
        else set tosort (pl + i - 1) tmp
      else set tosort (pl + i - 1) tmp
  end.

(** [for (l = n >> 1; l > 0; --l) { tmp = a[l]; ... }] *)
Fixpoint build_heap (l : nat) (tosort : list nat) (pl n : nat) : list nat :=
  match l with
  | O => tosort
  | S l' =>
      build_heap l' (sift_down n tosort pl n (get tosort (pl + l - 1)) l (l + l)%nat) pl n
  end.

(** [for (; n > 1;) { tmp = a[n]; a[n] = a[1]; n -= 1; ... }] *)
Fixpoint sort_heap (n : nat) (tosort : list nat) (pl : nat) : list nat :=
  match n with
  | S (S _ as n') =>
      let tmp := get tosort (pl + n - 1) in
      let tosort := set tosort (pl + n - 1) (get tosort (pl + 1 - 1)) in
      sort_heap n' (sift_down n' tosort pl n' tmp 1 2) pl
  | _ => tosort
  end.

Definition aheapsort (tosort : list nat) (pl n : nat) : list nat :=
  sort_heap n (build_heap (Nat.div2 n) tosort pl n) pl.

(** The loop of [aquicksort_]:
<<
    while (1) {
        if (cdepth < 0) { aheapsort_(vv, pl, pr - pl + 1); goto stack_pop; }
        while ((pr - pl) > SMALL_QUICKSORT) {
            /* quicksort partition */
            /* push largest partition on stack */
            if (pi - pl < pr - pi) { *sptr++ = pi + 1; *sptr++ = pr; pr = pi - 1; }
            else { *sptr++ = pl; *sptr++ = pi - 1; pl = pi + 1; }
            *psdepth++ = --cdepth;
        }
        /* insertion sort */
    stack_pop:
        if (sptr == stack) break;
        pr = *(--sptr); pl = *(--sptr); cdepth = *(--psdepth);
    }
>>
    [top] says that the turn starts at the head of the outer loop, where
    the depth is tested; one unit of fuel is one partition, one insertion
    sort or one heapsort. *)
Fixpoint aquicksort_loop (fuel : nat) (top : bool) (tosort : list nat) (pl pr : nat)
    (cdepth : Z) (stack : list (nat * nat * Z)) : list nat :=
  match fuel with
  | O => tosort
  | S fuel' =>
      if top && (cdepth <? 0) then
        let tosort := aheapsort tosort pl (pr - pl + 1) in
        match stack with
        | [] => tosort
        | (pl', pr', cdepth') :: stack' =>
            aquicksort_loop fuel' true tosort pl' pr' cdepth' stack'
        end
      else if (SMALL_QUICKSORT <? pr - pl)%nat then
        let (tosort, pi) := partition tosort pl pr in
        let cdepth := cdepth - 1 in
        if (pi - pl <? pr - pi)%nat
        then aquicksort_loop fuel' false tosort pl (pi - 1)%nat cdepth
                             ((S pi, pr, cdepth) :: stack)
        else aquicksort_loop fuel' false tosort (S pi) pr cdepth
                             ((pl, (pi - 1)%nat, cdepth) :: stack)
      else
        let tosort := insertion_sort_range tosort pl pr in
        match stack with
        | [] => tosort
        | (pl', pr', cdepth') :: stack' =>
            aquicksort_loop fuel' true tosort pl' pr' cdepth' stack'
        end
  end.

(** [values.argsort(kind="quicksort")]: the indices [0 .. num-1], sorted by
    the values they point to; the depth limit is twice the position of the
    highest bit of [num]. *)
Definition argsort : list nat :=
  let num := List.length v in
  aquicksort_loop (2 * num + 2) true (seq 0 num) 0 (num - 1)
                  (2 * Z.log2 (Z.of_nat num)) [].

End Argsort.

(** [df.take(indexer)] *)
Definition take {A : Type} (rows : list A) (indexer : list nat) : list A :=
  flat_map (fun i => match nth_error rows i with Some r => [r] | None => [] end) indexer.

End numpy.

(** An indexer of a frame of [n] rows names every row once. *)
Definition is_indexer (n : nat) (indexer : list nat) : bool :=
  (List.length indexer =? n)%nat
  && forallb (fun i => existsb (Nat.eqb i) indexer) (seq 0 n).

Fixpoint ascending {A : Type} (le : A -> A -> bool) (l : list A) : bool :=
  match l with
  | a :: (b :: _) as r => le a b && ascending le r
  | _ => true
  end.

(** The rows in the order of numpy's argsort.  That the routine sorts, for
    every total preorder, is a fact about numpy that is not proved here; the
    result is tested instead, so that the function meets the contract of a
    sort on every input: the rows come back in numpy's order whenever that
    order is an ascending arrangement of the rows, which it is on every
    frame evaluated below. *)
Definition numpy_sort_values {A : Type} (le : A -> A -> bool) (rows : list A) : list A :=
  let indexer := numpy.argsort le rows in
  if is_indexer (List.length rows) indexer && ascending le (numpy.take rows indexer)
  then numpy.take rows indexer
  else insertion_sort le rows.

(* ===================================================================== *)
(** ** expand_df *)
(* ===================================================================== *)

(** Lines 174-179: separate the subnet notation from the IP. *)
Definition split_row (row : CIDRRecord) : result SplitRow :=
  let ip_arr := split "/" (Network row) in
  ip_addr <- get_item ip_arr 0 ;;
  ip_subnet <- get_item ip_arr 1 ;;
  subnet <- py_int ip_subnet ;;
  OK (mkSplit ip_addr subnet (Country row)).

(** Lines 184-192: a single IPv4 (/32) becomes the /24 around it. *)
Definition generalize (item : SplitRow) : result SplitRow :=
  if contains "." (IP item) && (Subnet item =? 32) then
    let octets_arr := split "." (IP item) in
    octets_arr <- set_item octets_arr 3 "0" ;;
    OK (mkSplit (join "." octets_arr) 24 (SCountry item))
  else OK item.

(** Lines 196-198: sort by subnet, keep the first row of every IP. *)
Definition resolve_conflicts (S : Sorter) (extensive_list : list SplitRow)
    : result (list SplitRow) :=
  tmp_df <- sort_values S "Subnet" le_Subnet extensive_list ;;
  OK (drop_duplicates String.eqb IP tmp_df).

(** Lines 202-203: [f"{row[0]}/{row[1]}"]. *)
Definition reassemble (row : SplitRow) : CIDRRecord :=
  mkCIDR (IP row ++ "/" ++ py_str (Subnet row))%string (SCountry row).

Definition expand_df (S : Sorter) (df : list CIDRRecord) : result (list CIDRRecord) :=
  split_list <- mapM split_row df ;;
  extensive_list <- mapM generalize split_list ;;
  tmp_df <- resolve_conflicts S extensive_list ;;
  let result_list := map reassemble tmp_df in
  sort_values S "Country" le_Country result_list.

(* ===================================================================== *)
(** ** ipaddress *)
(* ===================================================================== *)

Module ipaddress.

(** [x.bit_length()] *)
Definition bit_length (x : Z) : Z :=
  if x =? 0 then 0 else Z.log2 (Z.abs x) + 1.

(** [a << n], which raises [ValueError] on a negative shift count. *)
Definition lshift (a n : Z) : result Z :=
  if n <? 0 then Raise ValueError else OK (Z.shiftl a n).

(** [min(bits, (~number & (number - 1)).bit_length())], and [bits] for 0. *)
Definition _count_righthand_zero_bits (number bits : Z) : Z :=
  if number =? 0 then bits
  else Z.min bits (bit_length (Z.land (Z.lnot number) (number - 1))).

(** A network: its first address and its prefix length. *)
Record Network : Type := mkNetwork { network_address : Z; prefixlen : Z }.

Definition ALL_ONES (max_prefixlen : Z) : Z := 2 ^ max_prefixlen - 1.

(** [IPv4Network((addr, prefixlen))] and [IPv6Network((addr, prefixlen))],
    strict: the address is one of the family, the prefix length lies in
    [0, max_prefixlen], and no host bit is set. *)
Definition make_network (max_prefixlen addr plen : Z) : result Network :=
  if (addr <? 0) || (ALL_ONES max_prefixlen <? addr) then Raise AddressValueError
  else if negb ((0 <=? plen) && (plen <=? max_prefixlen)) then Raise ValueError
  else
    let netmask :=
      Z.lxor (ALL_ONES max_prefixlen) (Z.shiftr (ALL_ONES max_prefixlen) plen) in
    if Z.land addr netmask =? addr then OK (mkNetwork addr plen)
    else Raise ValueError.

Definition inspect {A : Type} (a : A) : {b : A | a = b} := exist _ a eq_refl.

Definition range_nbits (ip_bits first_int last_int : Z) : Z :=
  Z.min (_count_righthand_zero_bits first_int ip_bits)
        (bit_length (last_int - first_int + 1) - 1).

(** The loop of [summarize_address_range]:
<<
    while first_int <= last_int:
        nbits = min(_count_righthand_zero_bits(first_int, ip_bits),
                    (last_int - first_int + 1).bit_length() - 1)
        net = ip((first_int, ip_bits - nbits))
        yield net
        first_int += 1 << nbits
        if first_int - 1 == ip._ALL_ONES:
            break
>>
    The recursion is on the number of addresses left, which every turn
    makes smaller. *)
Equations? summarize_loop (ip_bits first_int last_int : Z) : result (list Network)
  by wf (Z.to_nat (last_int - first_int + 1)) lt :=
summarize_loop ip_bits first_int last_int with inspect (first_int <=? last_int) := {
  | exist _ false _ => OK []
  | exist _ true Hle
    with make_network ip_bits first_int
           (ip_bits - range_nbits ip_bits first_int last_int) := {
    | Raise e => Raise e
    | OK net with inspect (lshift 1 (range_nbits ip_bits first_int last_int)) := {
      | exist _ (Raise e) _ => Raise e
      | exist _ (OK step) Hstep =>
          if first_int + step - 1 =? ALL_ONES ip_bits then OK [net]
          else rest <- summarize_loop ip_bits (first_int + step) last_int ;;
               OK (net :: rest)
      }
    }
  }.
Proof.
  unfold lshift in Hstep.
  destruct (range_nbits ip_bits first_int last_int <? 0) eqn:Hn; [discriminate|].
  injection Hstep as <-.
  apply Z.ltb_ge in Hn. apply Z.leb_le in Hle.
  rewrite Z.shiftl_1_l.
  assert (0 < 2 ^ range_nbits ip_bits first_int last_int) by (apply Z.pow_pos_nonneg; lia).
  lia.
Qed.

(** An address object: the integer [_ip] and, for an IPv6 address, the
    scope id that followed a [%] in its text ([None] without one; an IPv4
    address has none). *)
Record Address : Type := mkAddress { _ip : Z; _scope_id : option string }.

Definition scope_id_eqb (a b : option string) : bool :=
  match a, b with
  | Some x, Some y => String.eqb x y
  | None, None => true
  | _, _ => false
  end.

(** [_BaseAddress.__lt__]: by the integers. *)
Definition address_lt (a b : Address) : bool :=
  if negb (_ip a =? _ip b) then _ip a <? _ip b else false.

(** [IPv6Address.__eq__]: the integers and the scope ids are equal.  With no
    scope id on either side this is [_BaseAddress.__eq__], the equality of
    IPv4 addresses. *)
Definition address_eq (a b : Address) : bool :=
  (_ip a =? _ip b) && scope_id_eqb (_scope_id a) (_scope_id b).

(** [a > b] and [a <= b] as [functools.total_ordering] derives them from
    [__lt__] and [__eq__]. *)
Definition address_gt (a b : Address) : bool :=
  negb (address_lt a b) && negb (address_eq a b).

Definition address_le (a b : Address) : bool :=
  address_lt a b || address_eq a b.

(** [summarize_address_range(first, last)] on two addresses of one family
    whose networks have [max_prefixlen] bits. *)
Definition summarize_address_range (max_prefixlen : Z) (first last : Address)
    : result (list Network) :=
  if address_gt first last then Raise ValueError
  else summarize_loop max_prefixlen (_ip first) (_ip last).

(** *** Addresses as text *)

Definition all_chars (p : ascii -> bool) (s : string) : bool :=
  forallb p (list_ascii_of_string s).

Definition digit_value (c : ascii) : option Z :=
  let n := Z.of_nat (nat_of_ascii c) in
  if (48 <=? n) && (n <=? 57) then Some (n - 48) else None.

Definition hex_value (c : ascii) : option Z :=
  let n := Z.of_nat (nat_of_ascii c) in
  if (48 <=? n) && (n <=? 57) then Some (n - 48)
  else if (65 <=? n) && (n <=? 70) then Some (n - 55)
  else if (97 <=? n) && (n <=? 102) then Some (n - 87)
  else None.

Definition is_some {A : Type} (o : option A) : bool :=
  match o with Some _ => true | None => false end.

(** [int(s, base)] on a string of digits of the base. *)
Definition int_base (value : ascii -> option Z) (base : Z) (s : string) : Z :=
  fold_left (fun acc c => acc * base + match value c with Some d => d | None => 0 end)
            (list_ascii_of_string s) 0.

(** [IPv4Address._parse_octet] *)
Definition _parse_octet (octet_str : string) : result Z :=
  if String.eqb octet_str "" then Raise ValueError
  else if negb (all_chars (fun c => is_some (digit_value c)) octet_str) then Raise ValueError
  else if (3 <? String.length octet_str)%nat then Raise ValueError
  else if negb (String.eqb octet_str "0") && prefix "0" octet_str then Raise ValueError
  else
    let octet_int := int_base digit_value 10 octet_str in
    if 255 <? octet_int then Raise ValueError else OK octet_int.

(** An exception raised while parsing, reported as [AddressValueError]. *)
Definition as_address_error {A : Type} (m : result A) : result A :=
  match m with
  | OK a => OK a
  | Raise _ => Raise AddressValueError
  end.

(** [int.from_bytes(octets, 'big')] *)
Definition from_bytes (octets : list Z) : Z :=
  fold_left (fun acc b => acc * 256 + b) octets 0.

(** [IPv4Address(address)] for a string: the integer of the address. *)
Definition IPv4Address (address : string) : result Z :=
  if contains "/" address then Raise AddressValueError
  else if String.eqb address "" then Raise AddressValueError
  else
    let octets := split "." address in
    if negb (List.length octets =? 4)%nat then Raise AddressValueError
    else as_address_error (bytes <- mapM _parse_octet octets ;; OK (from_bytes bytes)).

(** [str(IPv4Address(n))] *)
Definition IPv4_str (ip_int : Z) : string :=
  join "." (map (fun k => py_str (Z.land (Z.shiftr ip_int k) 255)) [24; 16; 8; 0]).

(** ['%x' % n] *)
Definition hex (n : Z) : string :=
  HexadecimalString.NilZero.string_of_uint (N.to_hex_uint (Z.to_N n)).

(** [IPv6Address._parse_hextet] *)
Definition _parse_hextet (hextet_str : string) : result Z :=
  if negb (all_chars (fun c => is_some (hex_value c)) hextet_str) then Raise ValueError
  else if (4 <? String.length hextet_str)%nat then Raise ValueError
  else if String.eqb hextet_str "" then Raise ValueError
  else OK (int_base hex_value 16 hextet_str).

(** [ip_int <<= 16; ip_int |= hextet] over a run of parts. *)
Definition shift_in (ip_int : Z) (hextets : list Z) : Z :=
  fold_left (fun acc h => Z.lor (Z.shiftl acc 16) h) hextets ip_int.

(** The positions [1 .. len-2] that hold an empty part. *)
Definition interior_empty (parts : list string) : list nat :=
  filter (fun i => String.eqb (nth i parts "x") "")
         (seq 1 (List.length parts - 2)).

(** [IPv6Address._ip_int_from_string] *)
Definition _ip_int_from_string_v6 (ip_str : string) : result Z :=
  if String.eqb ip_str "" then Raise AddressValueError else
  let parts := split ":" ip_str in
  if (List.length parts <? 3)%nat then Raise AddressValueError else
  parts <- (if contains "." (last parts "")
            then ipv4_int <- IPv4Address (last parts "") ;;
                 OK (removelast parts
                       ++ [hex (Z.land (Z.shiftr ipv4_int 16) 65535);
                           hex (Z.land ipv4_int 65535)])
            else OK parts) ;;
  if (9 <? List.length parts)%nat then Raise AddressValueError else
  let len := List.length parts in
  let first_empty := String.eqb (nth 0 parts "x") "" in
  let last_empty := String.eqb (last parts "x") "" in
  layout <-
    match interior_empty parts with
    | _ :: _ :: _ => Raise AddressValueError
    | [skip_index] =>
        let parts_hi := (skip_index - (if first_empty then 1 else 0))%nat in
        let parts_lo := (len - skip_index - 1 - (if last_empty then 1 else 0))%nat in
        if first_empty && negb (parts_hi =? 0)%nat then Raise AddressValueError
        else if last_empty && negb (parts_lo =? 0)%nat then Raise AddressValueError
        else if (8 <? parts_hi + parts_lo + 1)%nat then Raise AddressValueError
        else OK (parts_hi, parts_lo, (8 - (parts_hi + parts_lo))%nat)
    | [] =>
        if negb (len =? 8)%nat then Raise AddressValueError
        else if first_empty || last_empty then Raise AddressValueError
        else OK (len, 0%nat, 0%nat)
    end ;;
  let '(parts_hi, parts_lo, parts_skipped) := layout in
  as_address_error
    (hi <- mapM _parse_hextet (firstn parts_hi parts) ;;
     lo <- mapM _parse_hextet (skipn (len - parts_lo) parts) ;;
     OK (shift_in (Z.shiftl (shift_in 0 hi) (16 * Z.of_nat parts_skipped)) lo)).

(** [IPv6Address._split_scope_id]: [ip_str.partition('%')]; a scope id is
    not empty and holds no further [%]. *)
Definition _split_scope_id (ip_str : string) : result (string * option string) :=
  match split "%" ip_str with
  | [addr] => OK (addr, None)
  | [addr; scope_id] =>
      if String.eqb scope_id "" then Raise AddressValueError
      else OK (addr, Some scope_id)
  | _ => Raise AddressValueError
  end.

(** [IPv6Address(address)] for a string: the scope id is split off and
    kept, the rest gives the integer. *)
Definition IPv6Address (address : string) : result Address :=
  if contains "/" address then Raise AddressValueError
  else
    split_address <- _split_scope_id address ;;
    ip_int <- _ip_int_from_string_v6 (fst split_address) ;;
    OK (mkAddress ip_int (snd split_address)).

(** [IPv6Address._compress_hextets]: the first longest run of "0" hextets,
    when longer than one, is replaced by an empty part. *)
Record zero_run : Type := mkRun {
  best_doublecolon_start : nat; best_doublecolon_len : nat;
  doublecolon_start : option nat; doublecolon_len : nat }.

Definition scan_hextet (st : zero_run) (entry : nat * string) : zero_run :=
  let (index, hextet) := entry in
  if String.eqb hextet "0" then
    let len := S (doublecolon_len st) in
    let start := match doublecolon_start st with Some i => i | None => index end in
    if (best_doublecolon_len st <? len)%nat
    then mkRun start len (Some start) len
    else mkRun (best_doublecolon_start st) (best_doublecolon_len st) (Some start) len
  else mkRun (best_doublecolon_start st) (best_doublecolon_len st) None 0.

Definition _compress_hextets (hextets : list string) : list string :=
  let st := fold_left scan_hextet (combine (seq 0 (List.length hextets)) hextets)
                      (mkRun 0 0 None 0) in
  if (1 <? best_doublecolon_len st)%nat then
    let best_doublecolon_end := (best_doublecolon_start st + best_doublecolon_len st)%nat in
    let hextets' :=
      if (best_doublecolon_end =? List.length hextets)%nat then hextets ++ [""] else hextets in
    let replaced :=
      firstn (best_doublecolon_start st) hextets' ++ "" :: skipn best_doublecolon_end hextets' in
    if (best_doublecolon_start st =? 0)%nat then "" :: replaced else replaced
  else hextets.

(** [str(IPv6Address(n))] *)
Definition IPv6_str (ip_int : Z) : string :=
  let hextets :=
    map (fun k => hex (Z.land (Z.shiftr ip_int k) 65535)) [112; 96; 80; 64; 48; 32; 16; 0] in
  join ":" (_compress_hextets hextets).

(** The two address families: [IPv4Address]/[IPv4Network] and
    [IPv6Address]/[IPv6Network]. *)
Record Family : Type := mkFamily {
  max_prefixlen : Z;
  parse_address : string -> result Address;
  str_address : Z -> string }.

Definition IPv4 : Family :=
  mkFamily 32 (fun address => ip_int <- IPv4Address address ;; OK (mkAddress ip_int None))
           IPv4_str.
Definition IPv6 : Family := mkFamily 128 IPv6Address IPv6_str.

(** [str(network)]: ["%s/%d" % (network_address, prefixlen)]. *)
Definition Network_str (fam : Family) (net : Network) : string :=
  (str_address fam (network_address net) ++ "/" ++ py_str (prefixlen net))%string.

End ipaddress.

(* ===================================================================== *)
(** ** The source files and the file system *)
(* ===================================================================== *)

(** A row of the DBIP range table ([names=["Range_Start", "Range_End",
    "Country"]]). *)
Module dbip.
Record Row : Type := mkRow { Range_Start : string; Range_End : string; Country : string }.
End dbip.

(** A row of GeoLite2-Country-Locations-en.csv. *)
Module locations.
Record Row : Type := mkRow { country_name : string; geoname_id : Z }.
End locations.

(** A row of GeoLite2-Country-Blocks-IPv*.csv; an empty identifier cell is
    [None] (pandas reads it as NaN, which equals no number). *)
Module blocks.
Record Row : Type := mkRow {
  network : string;
  geoname_id : option Z;
  registered_country_geoname_id : option Z;
  represented_country_geoname_id : option Z;
  is_anonymous_proxy : bool;
  is_satellite_provider : bool }.
End blocks.

(** What is on disk when the script runs: every file the script may open,
    already parsed, or [None] when the path does not exist.
    - [data_dir]: whether ./Data exists;
    - [dbip_csv]: ./Data/dbip-country-lite-2023-01.csv;
    - [locations_csv]: ./Data/GeoLite2/GeoLite2-Country-Locations-en.csv;
    - [blocks_csv ipv6]: ./Data/GeoLite2/GeoLite2-Country-Blocks-IPv4.csv,
      or -IPv6.csv when [ipv6] is set;
    - [as_cidrs_csv ipv6 iso]: ./Data/AS_CIDRs/ipv4_<iso>.csv, or ipv6_;
    - [manual_csv ipv6 iso]: ./Data/Manual/ipv4_<iso>.csv, or ipv6_;
    - [ito_xls]: the IPv4 column of the first table of
      ./Data/Export-14011020215714.xls. *)
Record FileSystem : Type := mkFS {
  data_dir : bool;
  dbip_csv : option (list dbip.Row);
  locations_csv : option (list locations.Row);
  blocks_csv : bool -> option (list blocks.Row);
  as_cidrs_csv : bool -> string -> option (list CIDRRecord);
  manual_csv : bool -> string -> option (list CIDRRecord);
  ito_xls : option (list string) }.

(** A CSV file as written: the header row, then one list of cells per
    line. *)
Record CsvFile : Type := mkCsv { header : list string; lines : list (list string) }.

(** The trace of a run: what was read and what was written. *)
Inductive Event : Type :=
| ReadFile (path : string)
| MakeDirs (path : string)
| WriteFile (path : string) (content : CsvFile).

Definition IO (A : Type) : Type := (list Event * result A)%type.

Definition ret {A : Type} (a : A) : IO A := ([], OK a).
Definition throw {A : Type} (e : PyError) : IO A := ([], Raise e).
Definition lift {A : Type} (m : result A) : IO A := ([], m).
Definition emit (ev : Event) : IO unit := ([ev], OK tt).

Definition bindIO {A B : Type} (m : IO A) (k : A -> IO B) : IO B :=
  match m with
  | (log, OK a) => let (log', r) := k a in (log ++ log', r)
  | (log, Raise e) => (log, Raise e)
  end.

Declare Scope io_scope.
Delimit Scope io_scope with io.
Notation "x <- m ;; k" := (bindIO m (fun x => k))
  (at level 61, m at next level, right associativity) : io_scope.
Notation "' pat <- m ;; k" := (bindIO m (fun x => match x with pat => k end))
  (at level 61, pat pattern, m at next level, right associativity) : io_scope.
Notation "m ;;; k" := (bindIO m (fun _ => k))
  (at level 61, right associativity) : io_scope.

(** Opening a file for reading: [FileNotFoundError] when it is absent. *)
Definition read_file {A : Type} (path : string) (content : option A) : IO A :=
  match content with
  | Some rows => ([ReadFile path], OK rows)
  | None => throw (FileNotFoundError path)
  end.

(** The exit status of the process after [main]. *)
Definition exit_status {A : Type} (r : result A) : Z :=
  match r with
  | OK _ => 0
  | Raise (SystemExit code) => code
  | Raise _ => 1
  end.

(* ===================================================================== *)
(** ** The source adapters *)
(* ===================================================================== *)

Definition family_of (ipv6 : bool) : ipaddress.Family :=
  if ipv6 then ipaddress.IPv6 else ipaddress.IPv4.

(** The body of the [for _, row in df.iterrows()] loop, lines 30-43. *)
Definition convert_row (ipv6 : bool) (row : dbip.Row) : result (list CIDRRecord) :=
  let fam := family_of ipv6 in
  startip <- ipaddress.parse_address fam (dbip.Range_Start row) ;;
  endip <- ipaddress.parse_address fam (dbip.Range_End row) ;;
  current_cidr <-
    ipaddress.summarize_address_range (ipaddress.max_prefixlen fam) startip endip ;;
  OK (map (fun item => mkCIDR (ipaddress.Network_str fam item) (dbip.Country row))
          current_cidr).

Definition convert_iprange_to_cidr (df : list dbip.Row) (ipv6 : bool)
    : result (list CIDRRecord) :=
  cidr_lists <- mapM (convert_row ipv6) df ;;
  OK (List.concat cidr_lists).

(** The cells that [pd.read_csv] takes for missing values (its default
    [na_values], pandas 2): such a cell is NaN in the frame, and NaN is
    equal to no text. *)
Definition STR_NA_VALUES : list string :=
  ["-1.#IND"; "1.#QNAN"; "1.#IND"; "-1.#QNAN"; "#N/A N/A"; "#N/A"; "N/A"; "n/a";
   "NA"; "<NA>"; "#NA"; "NULL"; "null"; "NaN"; "-NaN"; "nan"; "-nan"; "None"; ""].

Definition isna (cell : string) : bool := existsb (String.eqb cell) STR_NA_VALUES.

(** [df["Country"].isin([country_iso_code])] on a column read from a file:
    a cell matches when it is not a missing value and is the code.  The
    cells of the address columns are taken as they are written: a table
    whose first column pandas reads as numbers, or that has a missing value
    in it, is outside the embedding. *)
Definition load_dbip_csv (fs : FileSystem) (file_path country_iso_code : string)
    : IO (list dbip.Row * list dbip.Row) :=
  (df <- read_file file_path (dbip_csv fs) ;;
   let df := filter (fun r => negb (isna (dbip.Country r))
                              && String.eqb (dbip.Country r) country_iso_code) df in
   let df_ip4 := filter (fun r => negb (contains ":" (dbip.Range_Start r))) df in
   let df_ip6 := filter (fun r => contains ":" (dbip.Range_Start r)) df in
   ret (df_ip4, df_ip6))%io.

Definition extract_geo_id (fs : FileSystem) (geolite2_countries_file country : string)
    : IO Z :=
  (geoinfo_df <- read_file geolite2_countries_file (locations_csv fs) ;;
   let geoid :=
     map locations.geoname_id
         (filter (fun r => String.eqb (locations.country_name r) country) geoinfo_df) in
   lift (first <- get_item geoid 0 ;; py_int (py_str first))%py)%io.

Definition same_id (cell : option Z) (geoid : Z) : bool :=
  match cell with
  | Some g => g =? geoid
  | None => false
  end.

Definition extract_geolite2_cidr (fs : FileSystem) (ipv6 : bool)
    (geolite2_ipblocks_csv : string) (geoid : Z) (iso_code : string)
    : IO (list CIDRRecord) :=
  (ipblocks_df <- read_file geolite2_ipblocks_csv (blocks_csv fs ipv6) ;;
   let extracted_df :=
     filter (fun r => same_id (blocks.geoname_id r) geoid
                      && same_id (blocks.registered_country_geoname_id r) geoid)
            ipblocks_df in
   ret (map (fun r => mkCIDR (blocks.network r) iso_code) extracted_df))%io.

(** A geolocation of [main]: [{"name": ..., "iso_code": ...}]. *)
Record Geolocation : Type := mkGeo { name : string; iso_code : string }.

Definition load_geolite2_csv (fs : FileSystem) (dir_path : string)
    (geolocation : Geolocation) : IO (list CIDRRecord * list CIDRRecord) :=
  (geo_id <- extract_geo_id fs (dir_path ++ "/GeoLite2-Country-Locations-en.csv")%string
                            (name geolocation) ;;
   ipv4_df <- extract_geolite2_cidr fs false
                (dir_path ++ "/GeoLite2-Country-Blocks-IPv4.csv")%string
                geo_id (iso_code geolocation) ;;
   ipv6_df <- extract_geolite2_cidr fs true
                (dir_path ++ "/GeoLite2-Country-Blocks-IPv6.csv")%string
                geo_id (iso_code geolocation) ;;
   ret (ipv4_df, ipv6_df))%io.

Definition read_ito_db (fs : FileSystem) (xls_path : string) : IO (list CIDRRecord) :=
  (ito_df <- read_file xls_path (ito_xls fs) ;;
   ret (map (fun ipv4 => mkCIDR ipv4 "IR") ito_df))%io.

(* ===================================================================== *)
(** ** main *)
(* ===================================================================== *)

(** [df.to_csv(path, index=...)] of a (Network, Country) frame: the column
    names, then the rows; with [index=True] a first column holds the row
    label. *)
Definition to_csv (df : list CIDRRecord) (index : bool) : CsvFile :=
  let cells := fun r => [Network r; Country r] in
  if index then
    mkCsv ("" :: ["Network"; "Country"])
          (map (fun ir => py_str (Z.of_nat (fst ir)) :: cells (snd ir))
               (combine (seq 0 (List.length df)) df))
  else mkCsv ["Network"; "Country"] (map cells df).

Definition export_dir_path : string := "./Aggregated_Data".
Definition data_dir_path : string := "./Data".
Definition geolite2_db_dir : string := (data_dir_path ++ "/GeoLite2")%string.
Definition autonomous_systems_db_dir : string := (data_dir_path ++ "/AS_CIDRs")%string.
Definition manual_db_dir : string := (data_dir_path ++ "/Manual")%string.
Definition dbip_filename : string := "dbip-country-lite-2023-01.csv".
Definition ito_excel_filename : string := "Export-14011020215714.xls".
Definition geolocations : list Geolocation :=
  [mkGeo "Iran" "IR"; mkGeo "China" "CN"; mkGeo "Russia" "RU"].

(** [if Path(path).is_file(): df = pd.read_csv(path); agg = concat_df(agg, df)] *)
Definition load_optional (path : string) (content : option (list CIDRRecord))
    (aggregated : list CIDRRecord) : IO (list CIDRRecord) :=
  match content with
  | Some df => (emit (ReadFile path) ;;; ret (concat_df aggregated df))%io
  | None => ret aggregated
  end.

(** The body of [for geolocation in geolocations], lines 229-304, on the
    pair of aggregated frames (IPv4, IPv6). *)
Definition aggregate_geolocation (fs : FileSystem)
    (aggregated : list CIDRRecord * list CIDRRecord) (geolocation : Geolocation)
    : IO (list CIDRRecord * list CIDRRecord) :=
  (let (aggregated_ipv4_df, aggregated_ipv6_df) := aggregated in
   let iso := iso_code geolocation in
   '(dbip_ipv4, dbip_ipv6) <-
      load_dbip_csv fs (data_dir_path ++ "/" ++ dbip_filename)%string iso ;;
   dbip_ipv4 <- lift (convert_iprange_to_cidr dbip_ipv4 false) ;;
   dbip_ipv6 <- lift (convert_iprange_to_cidr dbip_ipv6 true) ;;
   let aggregated_ipv4_df := concat_df aggregated_ipv4_df dbip_ipv4 in
   let aggregated_ipv6_df := concat_df aggregated_ipv6_df dbip_ipv6 in
   '(geolite2_ipv4_df, geolite2_ipv6_df) <- load_geolite2_csv fs geolite2_db_dir geolocation ;;
   let aggregated_ipv4_df := concat_df aggregated_ipv4_df geolite2_ipv4_df in
   let aggregated_ipv6_df := concat_df aggregated_ipv6_df geolite2_ipv6_df in
   aggregated_ipv4_df <-
     load_optional (autonomous_systems_db_dir ++ "/ipv4_" ++ iso ++ ".csv")%string
                   (as_cidrs_csv fs false iso) aggregated_ipv4_df ;;
   aggregated_ipv6_df <-
     load_optional (autonomous_systems_db_dir ++ "/ipv6_" ++ iso ++ ".csv")%string
                   (as_cidrs_csv fs true iso) aggregated_ipv6_df ;;
   aggregated_ipv4_df <-
     load_optional (manual_db_dir ++ "/ipv4_" ++ iso ++ ".csv")%string
                   (manual_csv fs false iso) aggregated_ipv4_df ;;
   aggregated_ipv6_df <-
     load_optional (manual_db_dir ++ "/ipv6_" ++ iso ++ ".csv")%string
                   (manual_csv fs true iso) aggregated_ipv6_df ;;
   aggregated_ipv4_df <-
     (if String.eqb iso "IR" then
        ito_df <- read_ito_db fs (data_dir_path ++ "/" ++ ito_excel_filename)%string ;;
        ret (concat_df aggregated_ipv4_df ito_df)
      else ret aggregated_ipv4_df) ;;
   ret (aggregated_ipv4_df, aggregated_ipv6_df))%io.

(** The whole [for] loop, from the two empty frames of lines 223-224. *)
Fixpoint aggregate_from (fs : FileSystem) (aggregated : list CIDRRecord * list CIDRRecord)
    (todo : list Geolocation) : IO (list CIDRRecord * list CIDRRecord) :=
  match todo with
  | [] => ret aggregated
  | geolocation :: rest =>
      (aggregated <- aggregate_geolocation fs aggregated geolocation ;;
       aggregate_from fs aggregated rest)%io
  end.

Definition aggregate (fs : FileSystem) : IO (list CIDRRecord * list CIDRRecord) :=
  aggregate_from fs ([], []) geolocations.

Definition main (S : Sorter) (fs : FileSystem) : IO unit :=
  (if data_dir fs then
     '(aggregated_ipv4_df, aggregated_ipv6_df) <- aggregate fs ;;
     let aggregated_ipv4_df := drop_duplicates CIDRRecord_eqb (fun r => r) aggregated_ipv4_df in
     let aggregated_ipv6_df := drop_duplicates CIDRRecord_eqb (fun r => r) aggregated_ipv6_df in
     aggregated_ipv4_df <- lift (expand_df S aggregated_ipv4_df) ;;
     let aggregated_df := concat_df aggregated_ipv4_df aggregated_ipv6_df in
     emit (MakeDirs export_dir_path) ;;;
     emit (WriteFile (export_dir_path ++ "/agg_cidrs.csv")%string
                     (to_csv aggregated_df false))
   else throw (SystemExit 0))%io.

(* ===================================================================== *)
(** * Properties *)
(* ===================================================================== *)

(** ** Sorting *)

Section Sorting.
Context {A : Type} (le : A -> A -> bool).

Local Abbreviation R := (fun a b => le a b = true).

Lemma insert_perm (x : A) (l : list A) : Permutation (x :: l) (insert le x l).
Proof.
  induction l as [|y r IH]; simpl; [reflexivity|].
  destruct (le x y); [reflexivity|].
  rewrite perm_swap. now constructor.
Qed.

Lemma insertion_sort_perm (l : list A) : Permutation l (insertion_sort le l).
Proof.
  induction l as [|x r IH]; simpl; [constructor|].
  rewrite <- insert_perm. now constructor.
Qed.

Lemma StronglySorted_app (l1 l2 : list A) :
  StronglySorted R l1 -> StronglySorted R l2 ->
  (forall x y, In x l1 -> In y l2 -> le x y = true) ->
  StronglySorted R (l1 ++ l2).
Proof.
  induction l1 as [|a l1 IH]; simpl; intros H1 H2 H12; [assumption|].
  inversion H1 as [|? ? Hs Hall]; subst.
  constructor.
  - apply IH; auto.
  - apply Forall_app. split; [assumption|].
    apply Forall_forall. intros y Hy. apply H12; auto.
Qed.

Lemma StronglySorted_app_inv (l1 l2 : list A) :
  StronglySorted R (l1 ++ l2) ->
  StronglySorted R l1 /\ StronglySorted R l2 /\
  (forall x y, In x l1 -> In y l2 -> le x y = true).
Proof.
  induction l1 as [|a l1 IH]; simpl; intros H.
  - repeat split; [constructor | assumption | intros ? ? []].
  - inversion H as [|? ? Hs Hall]; subst.
    destruct (IH Hs) as (S1 & S2 & H12).
    apply Forall_app in Hall as [Ha1 Ha2].
    repeat split; [now constructor | assumption |].
    intros x y [<-|Hx] Hy; [|now apply H12].
    rewrite Forall_forall in Ha2. now apply Ha2.
Qed.

Hypothesis le_total : total le.
Hypothesis le_trans : transitive le.

Lemma le_refl (a : A) : le a a = true.
Proof. destruct (le_total a a); assumption. Qed.

Lemma insert_sorted (x : A) (l : list A) :
  StronglySorted R l -> StronglySorted R (insert le x l).
Proof.
  induction 1 as [|y r Hs IH Hall]; simpl.
  - repeat constructor.
  - destruct (le x y) eqn:Hxy.
    + constructor; [now constructor|].
      constructor; [assumption|].
      eapply Forall_impl; [|exact Hall]. intros z Hz. now apply le_trans with y.
    + constructor; [assumption|].
      assert (Hyx : le y x = true) by (destruct (le_total x y); congruence).
      eapply Permutation_Forall; [apply insert_perm|]. now constructor.
Qed.

Lemma insertion_sort_sorted (l : list A) : StronglySorted R (insertion_sort le l).
Proof.
  induction l as [|x r IH]; simpl; [constructor | now apply insert_sorted].
Qed.

Lemma take_middle_perm (l : list A) (p : A) (rest : list A) :
  take_middle l = Some (p, rest) -> Permutation l (p :: rest).
Proof.
  unfold take_middle. intros H.
  rewrite <- (firstn_skipn (Nat.div2 (List.length l)) l) at 1.
  destruct (skipn (Nat.div2 (List.length l)) l) as [|q post]; [discriminate|].
  injection H as <- <-. symmetry. apply Permutation_middle.
Qed.

Lemma take_middle_None (l : list A) : take_middle l = None -> l = [].
Proof.
  unfold take_middle. intros H.
  destruct (skipn (Nat.div2 (List.length l)) l) eqn:Hs; [|discriminate].
  apply (f_equal (@List.length A)) in Hs. rewrite length_skipn in Hs.
  destruct l as [|a r]; [reflexivity|].
  pose proof (Nat.lt_div2 (List.length (a :: r))) as Hd.
  simpl List.length in *. lia.
Qed.

Lemma filter_split_perm (f : A -> bool) (l : list A) :
  Permutation l (filter (fun x => negb (f x)) l ++ filter f l).
Proof.
  induction l as [|x r IH]; simpl; [constructor|].
  destruct (f x); simpl.
  - rewrite <- Permutation_middle. now constructor.
  - now constructor.
Qed.

Lemma quicksort_fuel_perm (fuel : nat) (l : list A) :
  Permutation l (quicksort_fuel fuel le l).
Proof.
  revert l. induction fuel as [|n IH]; intros l; simpl.
  - apply insertion_sort_perm.
  - destruct (take_middle l) as [[p rest]|] eqn:Hm.
    + rewrite (take_middle_perm _ _ _ Hm).
      rewrite <- Permutation_middle. constructor.
      rewrite <- !IH. apply filter_split_perm.
    + rewrite (take_middle_None _ Hm). constructor.
Qed.

Lemma quicksort_fuel_sorted (fuel : nat) (l : list A) :
  StronglySorted R (quicksort_fuel fuel le l).
Proof.
  revert l. induction fuel as [|n IH]; intros l; simpl.
  - apply insertion_sort_sorted.
  - destruct (take_middle l) as [[p rest]|]; [|constructor].
    apply StronglySorted_app; [apply IH| |].
    + constructor; [apply IH|].
      apply Forall_forall. intros y Hy.
      eapply Permutation_in in Hy; [|symmetry; apply quicksort_fuel_perm].
      now apply filter_In in Hy.
    + intros x y Hx Hy.
      eapply Permutation_in in Hx; [|symmetry; apply quicksort_fuel_perm].
      apply filter_In in Hx as [_ Hx]. apply negb_true_iff in Hx.
      assert (Hxp : le x p = true) by (destruct (le_total p x); congruence).
      destruct Hy as [<-|Hy]; [assumption|].
      eapply Permutation_in in Hy; [|symmetry; apply quicksort_fuel_perm].
      apply filter_In in Hy as [_ Hy]. now apply le_trans with p.
Qed.
End Sorting.

(** The two sorts as instances of the interface. *)
Definition stable_sorter : Sorter :=
  mkSorter (@insertion_sort)
           (fun A le l => insertion_sort_perm le l)
           (fun A le l Ht Htr => insertion_sort_sorted le Ht Htr l).

Definition quicksort_sorter : Sorter :=
  mkSorter (@quicksort)
           (fun A le l => quicksort_fuel_perm le (List.length l) l)
           (fun A le l Ht Htr => quicksort_fuel_sorted le Ht Htr (List.length l) l).

(** *** numpy's order as a sort *)

Lemma take_seq {A : Type} (pre rows : list A) :
  numpy.take (pre ++ rows) (seq (List.length pre) (List.length rows)) = rows.
Proof.
  revert pre. induction rows as [|r rows IH]; intros pre; [reflexivity|].
  cbn [List.length seq numpy.take flat_map].
  rewrite nth_error_app2 by lia. rewrite Nat.sub_diag. cbn [nth_error].
  change ([r] ++ ?l) with (r :: l). f_equal. specialize (IH (pre ++ [r])).
  rewrite <- app_assoc, length_app, Nat.add_1_r in IH. exact IH.
Qed.

Lemma is_indexer_perm (n : nat) (indexer : list nat) :
  is_indexer n indexer = true -> Permutation (seq 0 n) indexer.
Proof.
  unfold is_indexer. intros H. apply andb_true_iff in H as [Hlen Hall].
  apply Nat.eqb_eq in Hlen. rewrite forallb_forall in Hall.
  apply NoDup_Permutation_bis.
  - apply seq_NoDup.
  - rewrite length_seq. lia.
  - intros i Hi. specialize (Hall i Hi). apply existsb_exists in Hall as (j & Hj & E).
    apply Nat.eqb_eq in E. now subst j.
Qed.

Lemma ascending_sorted {A : Type} (le : A -> A -> bool) (l : list A) :
  transitive le -> ascending le l = true -> StronglySorted (fun a b => le a b = true) l.
Proof.
  intros Htr. induction l as [|a [|b r] IH]; intros H.
  - constructor.
  - constructor; constructor.
  - cbn [ascending] in H. apply andb_true_iff in H as [Hab Hr].
    specialize (IH Hr). constructor; [exact IH|].
    inversion IH as [|? ? _ Hall]; subst. constructor; [exact Hab|].
    eapply Forall_impl; [|exact Hall]. intros c Hc. now apply (Htr a b c).
Qed.

Lemma numpy_sort_values_perm {A : Type} (le : A -> A -> bool) (rows : list A) :
  Permutation rows (numpy_sort_values le rows).
Proof.
  unfold numpy_sort_values.
  destruct (is_indexer _ _ && ascending le _) eqn:H; [|apply insertion_sort_perm].
  apply andb_true_iff in H as [H _]. apply is_indexer_perm in H.
  rewrite <- (take_seq [] rows) at 1. cbn [app List.length].
  unfold numpy.take. now apply Permutation_flat_map.
Qed.

Lemma numpy_sort_values_sorted {A : Type} (le : A -> A -> bool) (rows : list A) :
  total le -> transitive le ->
  StronglySorted (fun a b => le a b = true) (numpy_sort_values le rows).
Proof.
  intros Ht Htr. unfold numpy_sort_values.
  destruct (is_indexer _ _ && ascending le _) eqn:H;
    [|now apply insertion_sort_sorted].
  apply andb_true_iff in H as [_ H]. now apply ascending_sorted.
Qed.

(** [sort_values] as pandas and numpy compute it. *)
Definition numpy_sorter : Sorter :=
  mkSorter (@numpy_sort_values)
           (fun A le l => numpy_sort_values_perm le l)
           (fun A le l Ht Htr => numpy_sort_values_sorted le l Ht Htr).


(** Two rows have the same key when each is below the other. *)
Definition same_key {A : Type} (le : A -> A -> bool) (x y : A) : bool :=
  le x y && le y x.

(** A sort is stable when it leaves the rows of every key in the order
    they had. *)
Definition stable (S : Sorter) : Prop :=
  forall (A : Type) (le : A -> A -> bool) (l : list A) (x : A),
    total le -> transitive le ->
    filter (same_key le x) (sort_by S le l) = filter (same_key le x) l.

(** ** drop_duplicates *)

Section DropDuplicates.
Context {A K : Type} (eqb : K -> K -> bool) (key : A -> K).
Hypothesis eqb_spec : forall a b, eqb a b = true <-> a = b.

Lemma existsb_eqb (k : K) (seen : list K) :
  existsb (eqb k) seen = true <-> In k seen.
Proof.
  rewrite existsb_exists. split.
  - intros (y & Hy & E). apply eqb_spec in E. now subst.
  - intros H. exists k. split; [assumption | now apply eqb_spec].
Qed.

Lemma existsb_eqb_false (k : K) (seen : list K) :
  existsb (eqb k) seen = false <-> ~ In k seen.
Proof.
  rewrite <- existsb_eqb. destruct (existsb (eqb k) seen); intuition congruence.
Qed.

(** A row survives exactly when it is the first of its key, and its key
    was not seen before. *)
Lemma drop_duplicates_from_In (x : A) (seen : list K) (l : list A) :
  In x (drop_duplicates_from eqb key seen l) <->
  exists pre post, l = pre ++ x :: post /\ ~ In (key x) seen /\ ~ In (key x) (map key pre).
Proof.
  revert seen. induction l as [|y r IH]; intros seen; simpl.
  - split; [intros [] | intros ([|? ?] & ? & ? & _); discriminate].
  - destruct (existsb (eqb (key y)) seen) eqn:E.
    + apply existsb_eqb in E. rewrite IH. split.
      * intros (pre & post & -> & Hs & Hp).
        exists (y :: pre), post. repeat split; [assumption|].
        simpl. intros [Hk|Hk]; [|now apply Hp]. apply Hs. now rewrite <- Hk.
      * intros (pre & post & Hl & Hs & Hp).
        destruct pre as [|z pre]; simpl in *.
        -- injection Hl as -> ->. contradiction.
        -- injection Hl as -> ->. exists pre, post. repeat split; auto.
    + apply existsb_eqb_false in E. simpl. rewrite IH. split.
      * intros [->|(pre & post & -> & Hs & Hp)].
        -- exists [], r. repeat split; auto.
        -- exists (y :: pre), post. repeat split.
           ++ intros Hk. apply Hs. now right.
           ++ simpl. intros [Hk|Hk]; [|now apply Hp]. apply Hs. now left.
      * intros (pre & post & Hl & Hs & Hp).
        destruct pre as [|z pre]; simpl in *.
        -- injection Hl as -> ->. now left.
        -- injection Hl as -> ->. right. exists pre, post. repeat split; auto.
           simpl. intros [Hk|Hk]; [|contradiction]. apply Hp. now left.
Qed.

Lemma drop_duplicates_In (x : A) (l : list A) :
  In x (drop_duplicates eqb key l) <->
  exists pre post, l = pre ++ x :: post /\ ~ In (key x) (map key pre).
Proof.
  unfold drop_duplicates. rewrite drop_duplicates_from_In. split.
  - intros (pre & post & ? & _ & ?). now exists pre, post.
  - intros (pre & post & ? & ?). exists pre, post. repeat split; auto.
Qed.

Lemma drop_duplicates_incl (x : A) (l : list A) :
  In x (drop_duplicates eqb key l) -> In x l.
Proof.
  rewrite drop_duplicates_In. intros (pre & post & -> & _).
  apply in_or_app. right. now left.
Qed.

(** No key is left twice. *)
Lemma drop_duplicates_from_NoDup (seen : list K) (l : list A) :
  NoDup (map key (drop_duplicates_from eqb key seen l)).
Proof.
  revert seen. induction l as [|y r IH]; intros seen; simpl; [constructor|].
  destruct (existsb (eqb (key y)) seen) eqn:E; [apply IH|].
  simpl. constructor; [|apply IH].
  rewrite in_map_iff. intros (x & Hk & Hx).
  apply drop_duplicates_from_In in Hx as (_ & _ & _ & Hs & _).
  apply Hs. left. now rewrite Hk.
Qed.

Lemma drop_duplicates_NoDup (l : list A) : NoDup (map key (drop_duplicates eqb key l)).
Proof. apply drop_duplicates_from_NoDup. Qed.

(** Every key of the frame is the key of a row that is kept. *)
Lemma drop_duplicates_from_keys (k : K) (seen : list K) (l : list A) :
  In k (map key l) -> ~ In k seen ->
  In k (map key (drop_duplicates_from eqb key seen l)).
Proof.
  revert seen. induction l as [|y r IH]; intros seen; simpl; [intros []|].
  intros Hk Hs.
  destruct (existsb (eqb (key y)) seen) eqn:E.
  - apply existsb_eqb in E. destruct Hk as [<-|Hk]; [contradiction | now apply IH].
  - simpl. destruct Hk as [Hk|Hk]; [now left|].
    destruct (eqb (key y) k) eqn:Ey.
    + apply eqb_spec in Ey. now left.
    + right. apply IH; [assumption|].
      intros [Hy|Hin]; [|contradiction].
      apply eqb_spec in Hy. congruence.
Qed.

Lemma drop_duplicates_keys (k : K) (l : list A) :
  In k (map key (drop_duplicates eqb key l)) <-> In k (map key l).
Proof.
  split.
  - rewrite !in_map_iff. intros (x & <- & Hx). exists x. split; [reflexivity|].
    now apply drop_duplicates_incl.
  - intros H. now apply drop_duplicates_from_keys.
Qed.

(** A frame without duplicate keys is left as it is. *)
Lemma drop_duplicates_from_id (seen : list K) (l : list A) :
  NoDup (map key l) -> (forall k, In k (map key l) -> ~ In k seen) ->
  drop_duplicates_from eqb key seen l = l.
Proof.
  revert seen. induction l as [|y r IH]; intros seen Hnd Hs; simpl; [reflexivity|].
  simpl in Hnd. inversion Hnd as [|? ? Hy Hr]; subst.
  destruct (existsb (eqb (key y)) seen) eqn:E.
  - apply existsb_eqb in E. exfalso. apply (Hs (key y)); [now left | assumption].
  - f_equal. apply IH; [assumption|].
    intros k Hk [<-|Hin]; [contradiction|].
    apply (Hs k); [now right | assumption].
Qed.

Lemma drop_duplicates_id (l : list A) :
  NoDup (map key l) -> drop_duplicates eqb key l = l.
Proof. intros H. apply drop_duplicates_from_id; [assumption | intros ? _ []]. Qed.

(** The rows that stay keep their order. *)
Lemma drop_duplicates_from_sorted (R : A -> A -> Prop) (seen : list K) (l : list A) :
  StronglySorted R l -> StronglySorted R (drop_duplicates_from eqb key seen l).
Proof.
  intros H. revert seen. induction H as [|y r Hs IH Hall]; intros seen; simpl; [constructor|].
  destruct (existsb (eqb (key y)) seen); [apply IH|].
  constructor; [apply IH|].
  apply Forall_forall. intros x Hx.
  apply drop_duplicates_from_In in Hx as (pre & post & -> & _).
  rewrite Forall_forall in Hall. apply Hall. apply in_or_app. right. now left.
Qed.
End DropDuplicates.

(** ** The two sort keys are total preorders *)

Lemma le_Subnet_total : total le_Subnet.
Proof. intros a b. unfold le_Subnet. rewrite !Z.leb_le. lia. Qed.

Lemma le_Subnet_trans : transitive le_Subnet.
Proof. intros a b c. unfold le_Subnet. rewrite !Z.leb_le. lia. Qed.

Lemma string_leb_trans (s1 s2 s3 : string) :
  String.leb s1 s2 = true -> String.leb s2 s3 = true -> String.leb s1 s3 = true.
Proof.
  unfold String.leb.
  revert s2 s3. induction s1 as [|a s1 IH]; intros [|b s2] [|c s3]; simpl; try congruence.
  unfold Ascii.compare.
  destruct (N.compare_spec (N_of_ascii a) (N_of_ascii b)) as [Eab|Lab|Gab];
    destruct (N.compare_spec (N_of_ascii b) (N_of_ascii c)) as [Ebc|Lbc|Gbc];
    destruct (N.compare_spec (N_of_ascii a) (N_of_ascii c)) as [Eac|Lac|Gac];
    try congruence; try lia.
  apply IH.
Qed.

Lemma le_Country_total : total le_Country.
Proof. intros a b. apply String.leb_total. Qed.

Lemma le_Country_trans : transitive le_Country.
Proof. intros a b c. apply string_leb_trans. Qed.

Lemma string_eqb_iff (a b : string) : String.eqb a b = true <-> a = b.
Proof. apply String.eqb_eq. Qed.

(** ** Sorting a frame: what every sort gives *)

Lemma sort_values_OK {A : Type} (S : Sorter) (col : string) (le : A -> A -> bool)
    (rows out : list A) :
  sort_values S col le rows = OK out -> rows <> [] /\ out = sort_by S le rows.
Proof.
  unfold sort_values. destruct rows; [discriminate|].
  intros [= <-]. split; [discriminate | reflexivity].
Qed.

Lemma sort_values_nonempty {A : Type} (S : Sorter) (col : string) (le : A -> A -> bool)
    (rows : list A) :
  rows <> [] -> sort_values S col le rows = OK (sort_by S le rows).
Proof. destruct rows; [congruence | reflexivity]. Qed.

Lemma sort_by_In {A : Type} (S : Sorter) (le : A -> A -> bool) (l : list A) (x : A) :
  In x (sort_by S le l) <-> In x l.
Proof.
  split; apply Permutation_in; [symmetry|]; apply sort_by_perm.
Qed.

Lemma sort_by_nonempty {A : Type} (S : Sorter) (le : A -> A -> bool) (l : list A) :
  l <> [] -> sort_by S le l <> [].
Proof.
  intros H E. apply H. apply Permutation_nil. rewrite <- E. symmetry. apply sort_by_perm.
Qed.

(** Two rows in strictly ascending key order are put in that order by
    every sort. *)
Lemma sort_by_pair {A : Type} (S : Sorter) (le : A -> A -> bool) (a b : A) :
  total le -> transitive le -> le b a = false ->
  sort_by S le [a; b] = [a; b] /\ sort_by S le [b; a] = [a; b].
Proof.
  intros Ht Htr Hba.
  assert (Hcase : forall l, Permutation [a; b] l ->
                    StronglySorted (fun x y => le x y = true) l -> l = [a; b]).
  { intros l Hp Hs. apply Permutation_length_2_inv in Hp as [->| ->]; [reflexivity|].
    inversion Hs as [|? ? _ Hall]; subst. inversion Hall; subst. congruence. }
  split; apply Hcase.
  - apply sort_by_perm.
  - now apply sort_by_sorted.
  - rewrite <- sort_by_perm. apply perm_swap.
  - now apply sort_by_sorted.
Qed.

Lemma sort_by_single {A : Type} (S : Sorter) (le : A -> A -> bool) (a : A) :
  sort_by S le [a] = [a].
Proof. apply Permutation_length_1_inv. apply sort_by_perm. Qed.

(** ** The stable sort: rows with equal keys keep their order *)

Section Stability.
Context {A : Type} (le : A -> A -> bool).
Hypothesis le_total : total le.
Hypothesis le_trans : transitive le.

Local Abbreviation R := (fun a b => le a b = true).

Lemma insert_head (x : A) (l : list A) :
  (forall z, In z l -> le x z = true) -> insert le x l = x :: l.
Proof.
  destruct l as [|y r]; simpl; [reflexivity|].
  intros H. now rewrite (H y (or_introl eq_refl)).
Qed.

Lemma insertion_sort_id (l : list A) :
  StronglySorted R l -> insertion_sort le l = l.
Proof.
  induction 1 as [|x r Hs IH Hall]; simpl; [reflexivity|].
  rewrite IH. apply insert_head. now apply Forall_forall.
Qed.

Lemma insert_filter (p : A -> bool) (x : A) (l : list A) :
  StronglySorted R l ->
  filter p (insert le x l) = if p x then insert le x (filter p l) else filter p l.
Proof.
  induction 1 as [|y r Hs IH Hall]; simpl.
  - now destruct (p x).
  - destruct (le x y) eqn:Hxy; simpl.
    + destruct (p x); [|reflexivity].
      symmetry. apply (insert_head x (filter p (y :: r))).
      intros z Hz. apply filter_In in Hz as [[<-|Hz] _]; [assumption|].
      rewrite Forall_forall in Hall. apply le_trans with y; auto.
    + rewrite IH. destruct (p y), (p x); simpl; try reflexivity.
      now rewrite Hxy.
Qed.

Lemma insertion_sort_filter (p : A -> bool) (l : list A) :
  filter p (insertion_sort le l) = insertion_sort le (filter p l).
Proof.
  induction l as [|x r IH]; simpl; [reflexivity|].
  rewrite insert_filter by now apply insertion_sort_sorted.
  rewrite IH. now destruct (p x).
Qed.

(** Rows with one and the same key are left as they stand. *)
Lemma insertion_sort_equal_keys (l : list A) :
  (forall a b, In a l -> In b l -> le a b = true) -> insertion_sort le l = l.
Proof.
  intros H. apply insertion_sort_id.
  induction l as [|x r IH]; constructor.
  - apply IH. intros a b Ha Hb. apply H; now right.
  - apply Forall_forall. intros y Hy. apply H; [now left | now right].
Qed.
End Stability.

Lemma filter_head_split {A : Type} (p : A -> bool) (l : list A) (x : A) (t : list A) :
  filter p l = x :: t ->
  exists pre post, l = pre ++ x :: post /\ (forall y, In y pre -> p y = false).
Proof.
  induction l as [|y r IH]; simpl; [discriminate|].
  destruct (p y) eqn:Hy.
  - intros [= -> <-]. exists [], r. split; [reflexivity | intros ? []].
  - intros H. destruct (IH H) as (pre & post & -> & Hpre).
    exists (y :: pre), post. split; [reflexivity|].
    intros z [<-|Hz]; auto.
Qed.

Lemma filter_nil_iff {A : Type} (p : A -> bool) (l : list A) :
  (forall y, In y l -> p y = false) -> filter p l = [].
Proof.
  induction l as [|y r IH]; simpl; intros H; [reflexivity|].
  rewrite (H y (or_introl eq_refl)). apply IH. intros z Hz. apply H. now right.
Qed.

Lemma NoDup_map_eq {A K : Type} (f : A -> K) (l : list A) (a b : A) :
  NoDup (map f l) -> In a l -> In b l -> f a = f b -> a = b.
Proof.
  induction l as [|x r IH]; simpl; [intros _ []|].
  intros Hnd Ha Hb E. inversion Hnd as [|? ? Hx Hr]; subst.
  destruct Ha as [->|Ha], Hb as [->|Hb]; auto.
  - exfalso. apply Hx. rewrite E. now apply in_map.
  - exfalso. apply Hx. rewrite <- E. now apply in_map.
Qed.

Lemma insertion_sort_map {A B : Type} (f : A -> B) (le : B -> B -> bool)
    (le' : A -> A -> bool) (l : list A) :
  (forall a b, le (f a) (f b) = le' a b) ->
  insertion_sort le (map f l) = map f (insertion_sort le' l).
Proof.
  intros H.
  assert (Hins : forall x l, insert le (f x) (map f l) = map f (insert le' x l)).
  { intros x l0. induction l0 as [|y r IH]; simpl; [reflexivity|].
    rewrite H. destruct (le' x y); simpl; [reflexivity | now rewrite IH]. }
  induction l as [|x r IH]; simpl; [reflexivity|].
  now rewrite IH, Hins.
Qed.

Lemma StronglySorted_filter {A : Type} (R : A -> A -> Prop) (p : A -> bool) (l : list A) :
  StronglySorted R l -> StronglySorted R (filter p l).
Proof.
  induction 1 as [|x r Hs IH Hall]; simpl; [constructor|].
  destruct (p x); [|assumption].
  constructor; [assumption|].
  apply Forall_forall. intros y Hy. apply filter_In in Hy as [Hy _].
  rewrite Forall_forall in Hall. now apply Hall.
Qed.

(** Two sorted lists with the same rows of every key, in the same order,
    are one list; so a stable sort is the insertion sort, and sorting by a
    first key, then stably by a second key, then stably by the first key
    again, gives back the first result. *)
Section TwoKeys.
Context {A : Type} (le1 le2 : A -> A -> bool).
Hypothesis le1_total : total le1.
Hypothesis le1_trans : transitive le1.
Hypothesis le2_total : total le2.
Hypothesis le2_trans : transitive le2.

Lemma same_key_refl (x : A) : same_key le1 x x = true.
Proof. unfold same_key. now rewrite (le_refl le1 le1_total x). Qed.

Lemma sorted_head_least (x : A) (l : list A) (y : A) :
  StronglySorted (fun a b => le1 a b = true) (x :: l) -> In y (x :: l) -> le1 x y = true.
Proof.
  intros Hs [<-|Hy]; [now apply le_refl|].
  inversion Hs as [|? ? _ Hall]; subst. rewrite Forall_forall in Hall. now apply Hall.
Qed.

Lemma sorted_classes_eq (l1 l2 : list A) :
  StronglySorted (fun a b => le1 a b = true) l1 ->
  StronglySorted (fun a b => le1 a b = true) l2 ->
  (forall v, filter (same_key le1 v) l1 = filter (same_key le1 v) l2) ->
  l1 = l2.
Proof.
  revert l2. induction l1 as [|x l1 IH]; intros l2 H1 H2 Hf.
  - destruct l2 as [|y l2]; [reflexivity|].
    specialize (Hf y). simpl in Hf. rewrite same_key_refl in Hf. discriminate.
  - destruct l2 as [|y l2].
    + specialize (Hf x). simpl in Hf. rewrite same_key_refl in Hf. discriminate.
    + assert (Hy : In y (x :: l1)).
      { assert (Hin : In y (filter (same_key le1 y) (x :: l1))).
        { rewrite Hf. simpl. rewrite same_key_refl. now left. }
        now apply filter_In in Hin. }
      assert (Hx : In x (y :: l2)).
      { assert (Hin : In x (filter (same_key le1 x) (y :: l2))).
        { rewrite <- Hf. simpl. rewrite same_key_refl. now left. }
        now apply filter_In in Hin. }
      assert (Hk : same_key le1 x y = true).
      { unfold same_key.
        now rewrite (sorted_head_least x l1 y H1 Hy), (sorted_head_least y l2 x H2 Hx). }
      assert (Hxy : x = y).
      { pose proof (Hf x) as Hv. simpl in Hv.
        rewrite same_key_refl, Hk in Hv. now injection Hv. }
      subst y. f_equal. apply IH.
      * now inversion H1.
      * now inversion H2.
      * intros v. specialize (Hf v). simpl in Hf.
        destruct (same_key le1 v x); [now injection Hf | assumption].
Qed.

Lemma same_key_le (v : A) (l : list A) (a b : A) :
  In a (filter (same_key le1 v) l) -> In b (filter (same_key le1 v) l) -> le1 a b = true.
Proof.
  intros Ha Hb. apply filter_In in Ha as [_ Ha]. apply filter_In in Hb as [_ Hb].
  unfold same_key in Ha, Hb.
  apply andb_true_iff in Ha as [_ Ha]. apply andb_true_iff in Hb as [Hb _].
  now apply le1_trans with v.
Qed.

Lemma insertion_sort_same_key (v : A) (l : list A) :
  filter (same_key le1 v) (insertion_sort le1 l) = filter (same_key le1 v) l.
Proof.
  rewrite (insertion_sort_filter le1 le1_total le1_trans).
  apply insertion_sort_equal_keys. apply same_key_le.
Qed.

Lemma stable_insertion_sort (S : Sorter) (l : list A) :
  stable S -> sort_by S le1 l = insertion_sort le1 l.
Proof.
  intros Hst. apply sorted_classes_eq.
  - now apply sort_by_sorted.
  - now apply insertion_sort_sorted.
  - intros v. now rewrite Hst, insertion_sort_same_key.
Qed.

Lemma resort_fixed (l : list A) :
  StronglySorted (fun a b => le2 a b = true) l ->
  insertion_sort le1 (insertion_sort le2 (insertion_sort le1 l)) = insertion_sort le1 l.
Proof.
  intros Hs. apply sorted_classes_eq.
  - now apply insertion_sort_sorted.
  - now apply insertion_sort_sorted.
  - intros v.
    rewrite insertion_sort_same_key.
    rewrite (insertion_sort_filter le2 le2_total le2_trans).
    rewrite insertion_sort_same_key.
    apply (insertion_sort_id le2).
    now apply StronglySorted_filter.
Qed.
End TwoKeys.

Lemma stable_sorter_stable : stable stable_sorter.
Proof.
  intros A le l x Ht Htr. apply (insertion_sort_same_key le Ht Htr).
Qed.

(** ** expand_df: conflict resolution (lines 196-198) *)

Lemma resolve_conflicts_OK (S : Sorter) (extensive_list tmp_df : list SplitRow) :
  resolve_conflicts S extensive_list = OK tmp_df ->
  extensive_list <> [] /\
  tmp_df = drop_duplicates String.eqb IP (sort_by S le_Subnet extensive_list).
Proof.
  unfold resolve_conflicts. destruct extensive_list; [discriminate|].
  simpl. intros [= <-]. split; [discriminate | reflexivity].
Qed.

Lemma resolve_conflicts_NoDup (S : Sorter) (extensive_list tmp_df : list SplitRow) :
  resolve_conflicts S extensive_list = OK tmp_df -> NoDup (map IP tmp_df).
Proof.
  intros H. apply resolve_conflicts_OK in H as [_ ->].
  apply (drop_duplicates_NoDup _ _ string_eqb_iff).
Qed.

Lemma resolve_conflicts_keys (S : Sorter) (extensive_list tmp_df : list SplitRow) (ip : string) :
  resolve_conflicts S extensive_list = OK tmp_df ->
  (In ip (map IP tmp_df) <-> In ip (map IP extensive_list)).
Proof.
  intros H. apply resolve_conflicts_OK in H as [_ ->].
  rewrite (drop_duplicates_keys _ _ string_eqb_iff).
  rewrite !in_map_iff. split; intros (x & ? & Hx); exists x; split; auto;
    now apply (sort_by_In S le_Subnet).
Qed.

Lemma resolve_conflicts_sorted (S : Sorter) (extensive_list tmp_df : list SplitRow) :
  resolve_conflicts S extensive_list = OK tmp_df ->
  StronglySorted (fun a b => le_Subnet a b = true) tmp_df.
Proof.
  intros H. apply resolve_conflicts_OK in H as [_ ->].
  apply (drop_duplicates_from_sorted _ _ string_eqb_iff).
  apply sort_by_sorted; [apply le_Subnet_total | apply le_Subnet_trans].
Qed.

(** The row that stays for an address is a row of the frame, and none of
    the frame's rows for that address has a shorter prefix. *)
Lemma resolve_conflicts_min (S : Sorter) (extensive_list tmp_df : list SplitRow) (r : SplitRow) :
  resolve_conflicts S extensive_list = OK tmp_df -> In r tmp_df ->
  In r extensive_list /\
  forall r', In r' extensive_list -> IP r' = IP r -> Subnet r <= Subnet r'.
Proof.
  intros H Hr. apply resolve_conflicts_OK in H as [_ ->].
  apply (drop_duplicates_In _ _ string_eqb_iff) in Hr as (pre & post & Hsort & Hpre).
  split.
  - apply (sort_by_In S le_Subnet). rewrite Hsort. apply in_or_app. right. now left.
  - intros r' Hr' Hip.
    apply (sort_by_In S le_Subnet) in Hr'. rewrite Hsort in Hr'.
    pose proof (sort_by_sorted S _ le_Subnet extensive_list le_Subnet_total le_Subnet_trans) as Hs.
    rewrite Hsort in Hs. apply StronglySorted_app_inv in Hs as (_ & Hs & _).
    apply in_app_or in Hr' as [Hin|[<-|Hin]].
    + exfalso. apply Hpre. rewrite <- Hip. now apply in_map.
    + lia.
    + inversion Hs as [|? ? _ Hall]; subst. rewrite Forall_forall in Hall.
      apply Hall in Hin. unfold le_Subnet in Hin. now apply Z.leb_le.
Qed.

(** Under a stable sort the row that stays is the first of the frame among
    the rows of its address with the shortest prefix. *)
Lemma resolve_conflicts_stable_first (S : Sorter) (extensive_list tmp_df : list SplitRow)
    (r : SplitRow) :
  stable S -> resolve_conflicts S extensive_list = OK tmp_df -> In r tmp_df ->
  exists pre post, extensive_list = pre ++ r :: post /\
    forall r', In r' pre -> IP r' = IP r -> Subnet r < Subnet r'.
Proof.
  intros Hst H Hr.
  pose proof (resolve_conflicts_min S _ _ r H Hr) as [_ Hmin].
  apply resolve_conflicts_OK in H as [_ ->].
  rewrite (stable_insertion_sort le_Subnet le_Subnet_total le_Subnet_trans S _ Hst) in Hr.
  apply (drop_duplicates_In _ _ string_eqb_iff) in Hr as (spre & spost & Hsort & Hpre).
  set (p := fun x : SplitRow => String.eqb (IP x) (IP r) && (Subnet x =? Subnet r)).
  assert (Hp : filter p (insertion_sort le_Subnet extensive_list) = filter p extensive_list).
  { rewrite (insertion_sort_filter le_Subnet le_Subnet_total le_Subnet_trans).
    apply insertion_sort_equal_keys. intros a b Ha Hb.
    apply filter_In in Ha as [_ Ha]. apply filter_In in Hb as [_ Hb].
    unfold p in Ha, Hb. apply andb_true_iff in Ha as [_ Ha]. apply andb_true_iff in Hb as [_ Hb].
    apply Z.eqb_eq in Ha. apply Z.eqb_eq in Hb. unfold le_Subnet. apply Z.leb_le. lia. }
  rewrite Hsort, filter_app in Hp. simpl in Hp.
  rewrite (filter_nil_iff p spre) in Hp.
  2:{ intros y Hy. unfold p. destruct (String.eqb (IP y) (IP r)) eqn:E; [|reflexivity].
      apply String.eqb_eq in E. exfalso. apply Hpre. rewrite <- E. now apply in_map. }
  assert (Hpr : p r = true) by (unfold p; now rewrite String.eqb_refl, Z.eqb_refl).
  rewrite Hpr in Hp. simpl in Hp. symmetry in Hp.
  apply filter_head_split in Hp as (pre & post & Hext & Hnone).
  exists pre, post. split; [assumption|].
  intros r' Hin Hip.
  assert (Hle : Subnet r <= Subnet r').
  { apply Hmin; [|assumption]. rewrite Hext. apply in_or_app. now left. }
  specialize (Hnone r' Hin). unfold p in Hnone.
  rewrite Hip, String.eqb_refl in Hnone. simpl in Hnone. apply Z.eqb_neq in Hnone. lia.
Qed.

Lemma expand_df_24_28 (S : Sorter) (c1 c2 : string) :
  expand_df S [mkCIDR "198.51.100.0/24" c1; mkCIDR "198.51.100.0/28" c2]
    = OK [mkCIDR "198.51.100.0/24" c1].
Proof.
  unfold expand_df.
  change (mapM split_row [mkCIDR "198.51.100.0/24" c1; mkCIDR "198.51.100.0/28" c2])
    with (OK [mkSplit "198.51.100.0" 24 c1; mkSplit "198.51.100.0" 28 c2]).
  cbv beta iota delta [bind].
  change (mapM generalize [mkSplit "198.51.100.0" 24 c1; mkSplit "198.51.100.0" 28 c2])
    with (OK [mkSplit "198.51.100.0" 24 c1; mkSplit "198.51.100.0" 28 c2]).
  cbv beta iota delta [bind resolve_conflicts sort_values].
  destruct (sort_by_pair S le_Subnet (mkSplit "198.51.100.0" 24 c1)
              (mkSplit "198.51.100.0" 28 c2) le_Subnet_total le_Subnet_trans eq_refl)
    as [-> _].
  change (drop_duplicates String.eqb IP
            [mkSplit "198.51.100.0" 24 c1; mkSplit "198.51.100.0" 28 c2])
    with [mkSplit "198.51.100.0" 24 c1].
  cbv beta iota delta [map].
  rewrite sort_by_single. reflexivity.
Qed.

Lemma expand_df_28_24 (S : Sorter) (c1 c2 : string) :
  expand_df S [mkCIDR "198.51.100.0/28" c2; mkCIDR "198.51.100.0/24" c1]
    = OK [mkCIDR "198.51.100.0/24" c1].
Proof.
  unfold expand_df.
  change (mapM split_row [mkCIDR "198.51.100.0/28" c2; mkCIDR "198.51.100.0/24" c1])
    with (OK [mkSplit "198.51.100.0" 28 c2; mkSplit "198.51.100.0" 24 c1]).
  cbv beta iota delta [bind].
  change (mapM generalize [mkSplit "198.51.100.0" 28 c2; mkSplit "198.51.100.0" 24 c1])
    with (OK [mkSplit "198.51.100.0" 28 c2; mkSplit "198.51.100.0" 24 c1]).
  cbv beta iota delta [bind resolve_conflicts sort_values].
  destruct (sort_by_pair S le_Subnet (mkSplit "198.51.100.0" 24 c1)
              (mkSplit "198.51.100.0" 28 c2) le_Subnet_total le_Subnet_trans eq_refl)
    as [_ ->].
  change (drop_duplicates String.eqb IP
            [mkSplit "198.51.100.0" 24 c1; mkSplit "198.51.100.0" 28 c2])
    with [mkSplit "198.51.100.0" 24 c1].
  cbv beta iota delta [map].
  rewrite sort_by_single. reflexivity.
Qed.

(** C2, as the code has it.  After the generalization step
    ([extensive_list]), conflict resolution sorts the entries by ascending
    prefix length and keeps the first row of every base address.  So, for
    every sort that [sort_values] may be: no base address is left twice and
    none is lost (exactly one entry per distinct base address survives); the
    survivors are in ascending order of prefix length; the survivor of an
    address is one of the entries and has the minimum prefix length of that
    address, every more specific entry of the address being discarded.
    Which entry stays when several share that minimum is decided by the
    order the sort leaves rows of equal prefix length in: with a stable sort
    it is the first encountered.  In particular "198.51.100.0/24" and
    "198.51.100.0/28" collapse to "198.51.100.0/24", in either input
    order. *)
Theorem expand_df_conflict_resolution :
  forall (S : Sorter) (extensive_list tmp_df : list SplitRow),
    resolve_conflicts S extensive_list = OK tmp_df ->
    NoDup (map IP tmp_df) /\
    (forall ip, In ip (map IP tmp_df) <-> In ip (map IP extensive_list)) /\
    StronglySorted (fun a b => Subnet a <= Subnet b) tmp_df /\
    (forall r, In r tmp_df ->
       In r extensive_list /\
       forall r', In r' extensive_list -> IP r' = IP r -> Subnet r <= Subnet r') /\
    (stable S -> forall r, In r tmp_df ->
       exists pre post, extensive_list = pre ++ r :: post /\
         forall r', In r' pre -> IP r' = IP r -> Subnet r < Subnet r') /\
    (forall c1 c2,
       expand_df S [mkCIDR "198.51.100.0/24" c1; mkCIDR "198.51.100.0/28" c2]
         = OK [mkCIDR "198.51.100.0/24" c1] /\
       expand_df S [mkCIDR "198.51.100.0/28" c2; mkCIDR "198.51.100.0/24" c1]
         = OK [mkCIDR "198.51.100.0/24" c1]).
Proof.
  intros S extensive_list tmp_df H.
  split; [now apply (resolve_conflicts_NoDup S extensive_list)|].
  split; [intros ip; now apply (resolve_conflicts_keys S)|].
  split.
  { apply resolve_conflicts_sorted in H.
    induction H as [|a l Hs IH Hall]; constructor; [assumption|].
    eapply Forall_impl; [|exact Hall]. intros b Hb. now apply Z.leb_le. }
  split; [intros r Hr; now apply (resolve_conflicts_min S extensive_list tmp_df r)|].
  split.
  { intros Hst r Hr. now apply (resolve_conflicts_stable_first S extensive_list tmp_df). }
  intros c1 c2. split; [apply expand_df_24_28 | apply expand_df_28_24].
Qed.

Lemma expand_df_conflict_resolution_witness :
  NoDup (map IP [mkSplit "198.51.100.0" 24 "IR"]).
Proof.
  exact (proj1 (expand_df_conflict_resolution stable_sorter
                  [mkSplit "198.51.100.0" 28 "IR"; mkSplit "198.51.100.0" 24 "IR"]
                  [mkSplit "198.51.100.0" 24 "IR"] eq_refl)).
Defined.

(** A frame of eighteen /24 networks in which 10.0.1.0/24 is given for
    "IR" by the second row and for "CN" by the sixteenth, and 10.0.2.0/24
    for "IR" by the third row and for "RU" by the fifteenth; and its entries
    after the split and the generalization. *)
Definition tied_frame : list CIDRRecord :=
  [mkCIDR "10.0.0.0/24" "IR"; mkCIDR "10.0.1.0/24" "IR";
   mkCIDR "10.0.2.0/24" "IR"; mkCIDR "10.0.3.0/24" "IR";
   mkCIDR "10.0.4.0/24" "IR"; mkCIDR "10.0.5.0/24" "IR";
   mkCIDR "10.0.6.0/24" "IR"; mkCIDR "10.0.7.0/24" "IR";
   mkCIDR "10.0.8.0/24" "IR"; mkCIDR "10.0.9.0/24" "IR";
   mkCIDR "10.0.10.0/24" "IR"; mkCIDR "10.0.11.0/24" "IR";
   mkCIDR "10.0.12.0/24" "IR"; mkCIDR "10.0.13.0/24" "IR";
   mkCIDR "10.0.2.0/24" "RU"; mkCIDR "10.0.1.0/24" "CN";
   mkCIDR "10.0.16.0/24" "IR"; mkCIDR "10.0.17.0/24" "IR"].

Definition tied_entries : list SplitRow :=
  [mkSplit "10.0.0.0" 24 "IR"; mkSplit "10.0.1.0" 24 "IR";
   mkSplit "10.0.2.0" 24 "IR"; mkSplit "10.0.3.0" 24 "IR";
   mkSplit "10.0.4.0" 24 "IR"; mkSplit "10.0.5.0" 24 "IR";
   mkSplit "10.0.6.0" 24 "IR"; mkSplit "10.0.7.0" 24 "IR";
   mkSplit "10.0.8.0" 24 "IR"; mkSplit "10.0.9.0" 24 "IR";
   mkSplit "10.0.10.0" 24 "IR"; mkSplit "10.0.11.0" 24 "IR";
   mkSplit "10.0.12.0" 24 "IR"; mkSplit "10.0.13.0" 24 "IR";
   mkSplit "10.0.2.0" 24 "RU"; mkSplit "10.0.1.0" 24 "CN";
   mkSplit "10.0.16.0" 24 "IR"; mkSplit "10.0.17.0" 24 "IR"].

(** C2, as stated, fails on [tied_frame].  All eighteen entries have prefix
    length 24.  numpy's quicksort partitions a column of more than sixteen
    rows around its middle element and swaps equal elements across it: the
    argsort of the column puts row 15 before row 1 and row 14 before row 2.
    So the entry kept for 10.0.1.0 is the one of "CN", although the entry
    of "IR" has the same (minimum) prefix length and is met first; the tie
    is not broken as first encountered.  The stable sort keeps "IR". *)
Lemma expand_df_tie_not_first_encountered :
  mapM split_row tied_frame = OK tied_entries /\
  mapM generalize tied_entries = OK tied_entries /\
  numpy.argsort le_Subnet tied_entries
    = [0; 15; 14; 13; 12; 11; 10; 9; 8; 7; 6; 5; 4; 3; 2; 1; 16; 17]%nat /\
  resolve_conflicts numpy_sorter tied_entries
    = OK [mkSplit "10.0.0.0" 24 "IR"; mkSplit "10.0.1.0" 24 "CN";
        mkSplit "10.0.2.0" 24 "RU"; mkSplit "10.0.13.0" 24 "IR";
        mkSplit "10.0.12.0" 24 "IR"; mkSplit "10.0.11.0" 24 "IR";
        mkSplit "10.0.10.0" 24 "IR"; mkSplit "10.0.9.0" 24 "IR";
        mkSplit "10.0.8.0" 24 "IR"; mkSplit "10.0.7.0" 24 "IR";
        mkSplit "10.0.6.0" 24 "IR"; mkSplit "10.0.5.0" 24 "IR";
        mkSplit "10.0.4.0" 24 "IR"; mkSplit "10.0.3.0" 24 "IR";
        mkSplit "10.0.16.0" 24 "IR"; mkSplit "10.0.17.0" 24 "IR"] /\
  expand_df numpy_sorter tied_frame
    = OK [mkCIDR "10.0.1.0/24" "CN"; mkCIDR "10.0.0.0/24" "IR";
        mkCIDR "10.0.13.0/24" "IR"; mkCIDR "10.0.12.0/24" "IR";
        mkCIDR "10.0.11.0/24" "IR"; mkCIDR "10.0.10.0/24" "IR";
        mkCIDR "10.0.9.0/24" "IR"; mkCIDR "10.0.8.0/24" "IR";
        mkCIDR "10.0.7.0/24" "IR"; mkCIDR "10.0.6.0/24" "IR";
        mkCIDR "10.0.5.0/24" "IR"; mkCIDR "10.0.4.0/24" "IR";
        mkCIDR "10.0.3.0/24" "IR"; mkCIDR "10.0.16.0/24" "IR";
        mkCIDR "10.0.17.0/24" "IR"; mkCIDR "10.0.2.0/24" "RU"] /\
  nth_error tied_entries 1 = Some (mkSplit "10.0.1.0" 24 "IR") /\
  nth_error tied_entries 15 = Some (mkSplit "10.0.1.0" 24 "CN") /\
  In (mkCIDR "10.0.1.0/24" "IR")
     match expand_df stable_sorter tied_frame with OK out => out | Raise _ => [] end /\
  ~ (forall (extensive_list tmp_df : list SplitRow) (r : SplitRow),
       resolve_conflicts numpy_sorter extensive_list = OK tmp_df -> In r tmp_df ->
       exists pre post, extensive_list = pre ++ r :: post /\
         forall r', In r' pre -> IP r' = IP r -> Subnet r < Subnet r').
Proof.
  split; [reflexivity|]. split; [reflexivity|]. split; [vm_compute; reflexivity|].
  split; [vm_compute; reflexivity|]. split; [vm_compute; reflexivity|].
  split; [reflexivity|]. split; [reflexivity|].
  split; [vm_compute; tauto|].
  intros H.
  destruct (H tied_entries _ (mkSplit "10.0.1.0" 24 "CN") ltac:(vm_compute; reflexivity)
              (or_intror (or_introl eq_refl))) as (pre & post & Hext & Hfirst).
  assert (Hin : In (mkSplit "10.0.1.0" 24 "IR") pre).
  { unfold tied_entries in Hext.
    do 15 (destruct pre as [|? pre]; [discriminate Hext|];
           injection Hext as <- Hext).
    destruct pre as [|? pre].
    - right. now left.
    - exfalso. injection Hext as _ Hext.
      do 2 (destruct pre as [|? pre]; [discriminate Hext|]; injection Hext as _ Hext).
      destruct pre; discriminate Hext. }
  specialize (Hfirst _ Hin eq_refl). cbn in Hfirst. lia.
Qed.



(** ** Strings: split, join, int and str *)

Lemma contains_String (c a : ascii) (s : string) :
  contains c (String a s) = Ascii.eqb a c || contains c s.
Proof. reflexivity. Qed.

Lemma contains_app (c : ascii) (s t : string) :
  contains c (s ++ t)%string = contains c s || contains c t.
Proof.
  induction s as [|a s IH]; simpl; [reflexivity|].
  rewrite IH. now rewrite orb_assoc.
Qed.

Lemma split_no_sep (sep : ascii) (s : string) :
  contains sep s = false -> split sep s = [s].
Proof.
  induction s as [|a s IH]; simpl; [reflexivity|].
  intros H. apply orb_false_iff in H as [Ha Hs].
  rewrite Ha, (IH Hs). reflexivity.
Qed.

Lemma split_app_sep (sep : ascii) (s t : string) :
  contains sep s = false ->
  split sep (s ++ String sep t)%string = s :: split sep t.
Proof.
  induction s as [|a s IH]; simpl.
  - intros _. now rewrite Ascii.eqb_refl.
  - intros H. apply orb_false_iff in H as [Ha Hs].
    rewrite Ha, (IH Hs). reflexivity.
Qed.

(** No part of a split holds the separator. *)
Lemma split_parts (sep : ascii) (s p : string) :
  In p (split sep s) -> contains sep p = false.
Proof.
  revert p. induction s as [|a s IH]; simpl; intros p.
  - intros [<-|[]]. reflexivity.
  - destruct (Ascii.eqb a sep) eqn:Ha.
    + intros [<-|Hp]; [reflexivity | now apply IH].
    + destruct (split sep s) as [|h t] eqn:Hs.
      * intros [<-|[]]. simpl. now rewrite Ha.
      * intros [<-|Hp].
        -- simpl. rewrite Ha. apply IH. now left.
        -- apply IH. now right.
Qed.

(** A character other than the separator is in the text exactly when it
    is in one of the parts. *)
Lemma split_contains (sep c : ascii) (s : string) :
  contains c s = false -> forall p, In p (split sep s) -> contains c p = false.
Proof.
  induction s as [|a s IH]; simpl.
  - intros _ p [<-|[]]. reflexivity.
  - intros H. apply orb_false_iff in H as [Ha Hs]. intros p.
    destruct (Ascii.eqb a sep).
    + intros [<-|Hp]; [reflexivity | now apply IH].
    + destruct (split sep s) as [|h t] eqn:Hsp.
      * intros [<-|[]]. simpl. now rewrite Ha.
      * intros [<-|Hp].
        -- simpl. rewrite Ha. apply IH; [assumption | now left].
        -- apply IH; [assumption | now right].
Qed.

Lemma join_cons (sep x y : string) (l : list string) :
  join sep (x :: y :: l) = (x ++ sep ++ join sep (y :: l))%string.
Proof. reflexivity. Qed.

Lemma join_contains (c : ascii) (sep : string) (l : list string) :
  contains c sep = false -> (forall p, In p l -> contains c p = false) ->
  contains c (join sep l) = false.
Proof.
  intros Hsep. induction l as [|x [|y l] IH]; intros H.
  - reflexivity.
  - apply H. now left.
  - rewrite join_cons, !contains_app, Hsep.
    rewrite (H x (or_introl eq_refl)). simpl.
    apply IH. intros p Hp. apply H. now right.
Qed.

Lemma join_two_contains (sep : ascii) (x y : string) (l : list string) :
  contains sep (join (String sep "") (x :: y :: l)) = true.
Proof.
  rewrite join_cons, !contains_app. simpl. rewrite Ascii.eqb_refl. simpl.
  apply orb_true_r.
Qed.

(** Splitting what was joined gives the parts back. *)
Lemma split_join (sep : ascii) (l : list string) :
  l <> [] -> (forall p, In p l -> contains sep p = false) ->
  split sep (join (String sep "") l) = l.
Proof.
  induction l as [|x [|y l] IH]; intros Hne H.
  - congruence.
  - apply split_no_sep. apply H. now left.
  - rewrite join_cons. simpl String.append.
    rewrite split_app_sep by (apply H; now left).
    f_equal. apply IH; [discriminate|]. intros p Hp. apply H. now right.
Qed.

Lemma set_item_In {A : Type} (l l' : list A) (i : nat) (v x : A) :
  set_item l i v = OK l' -> In x l' -> x = v \/ In x l.
Proof.
  revert l' i. induction l as [|y r IH]; intros l' i; simpl.
  - destruct i; discriminate.
  - destruct i as [|j].
    + intros [= <-] [<-|Hx]; auto.
    + destruct (set_item r j v) as [r'|] eqn:E; simpl; [|discriminate].
      intros [= <-] [<-|Hx]; auto.
      destruct (IH _ _ E Hx); auto.
Qed.

(** The characters of [str(n)]: decimal digits and the minus sign. *)
Definition is_digit (c : ascii) : bool :=
  match digit_of c with Some _ => true | None => false end.

Lemma string_of_uint_digits (u : uint) :
  forallb is_digit (list_ascii_of_string (NilEmpty.string_of_uint u)) = true.
Proof. induction u; simpl; auto. Qed.

Lemma NilZero_string_of_uint_digits (u : uint) :
  forallb is_digit (list_ascii_of_string (NilZero.string_of_uint u)) = true.
Proof.
  destruct u; try apply (string_of_uint_digits (_ u)). reflexivity.
Qed.

Lemma forallb_contains (p : ascii -> bool) (c : ascii) (s : string) :
  forallb p (list_ascii_of_string s) = true -> p c = false -> contains c s = false.
Proof.
  induction s as [|a s IH]; simpl; [reflexivity|].
  intros H Hc. apply andb_true_iff in H as [Ha Hs].
  rewrite (IH Hs Hc), orb_false_r.
  destruct (Ascii.eqb_spec a c); [congruence | reflexivity].
Qed.

Lemma py_str_contains (c : ascii) (n : Z) :
  is_digit c = false -> c <> "-"%char -> contains c (py_str n) = false.
Proof.
  intros Hd Hm. unfold py_str.
  destruct (Z.to_int n) as [u|u]; unfold NilZero.string_of_int.
  - apply (forallb_contains is_digit); [apply NilZero_string_of_uint_digits | assumption].
  - rewrite contains_String.
    assert (E : Ascii.eqb "-" c = false) by (apply Ascii.eqb_neq; congruence).
    rewrite E. simpl.
    apply (forallb_contains is_digit); [apply NilZero_string_of_uint_digits | assumption].
Qed.

Lemma digits_string_of_uint (u : uint) :
  u <> Nil -> digits (NilEmpty.string_of_uint u) = Some u.
Proof.
  induction u as [|u IH|u IH|u IH|u IH|u IH|u IH|u IH|u IH|u IH|u IH];
    intros Hne; try congruence;
    (destruct u; [reflexivity | ..];
     cbn [NilEmpty.string_of_uint digits digit_of] in *;
     rewrite IH by discriminate; reflexivity).
Qed.

Lemma lstrip_id (s : string) :
  forallb (fun c => negb (is_space c)) (list_ascii_of_string s) = true -> lstrip s = s.
Proof.
  destruct s as [|a s]; simpl; [reflexivity|].
  intros H. apply andb_true_iff in H as [Ha _].
  apply negb_true_iff in Ha. now rewrite Ha.
Qed.

Lemma rstrip_id (s : string) :
  forallb (fun c => negb (is_space c)) (list_ascii_of_string s) = true -> rstrip s = s.
Proof.
  induction s as [|a s IH]; simpl; [reflexivity|].
  intros H. apply andb_true_iff in H as [Ha Hs].
  rewrite (IH Hs). apply negb_true_iff in Ha. rewrite Ha. now destruct s.
Qed.

Lemma is_digit_not_space (c : ascii) : is_digit c = true -> negb (is_space c) = true.
Proof.
  destruct c as [[|] [|] [|] [|] [|] [|] [|] [|]]; cbv; congruence.
Qed.

Lemma digits_not_space (s : string) :
  forallb is_digit (list_ascii_of_string s) = true ->
  forallb (fun c => negb (is_space c)) (list_ascii_of_string s) = true.
Proof.
  induction s as [|a s IH]; simpl; [reflexivity|].
  intros H. apply andb_true_iff in H as [Ha Hs].
  now rewrite (is_digit_not_space a Ha), (IH Hs).
Qed.

Lemma strip_id (s : string) :
  forallb (fun c => negb (is_space c)) (list_ascii_of_string s) = true -> strip s = s.
Proof. intros H. unfold strip. now rewrite (lstrip_id s H), (rstrip_id s H). Qed.

(** On ASCII text [int] reads the text itself. *)
Lemma py_int_ascii (s : string) : isascii s = true -> py_int s = PyLong_FromString s.
Proof.
  intros H. unfold py_int, _PyUnicode_TransformDecimalAndSpaceToASCII. now rewrite H.
Qed.

Lemma is_digit_ascii (c : ascii) : is_digit c = true -> (N_of_ascii c <? 128)%N = true.
Proof.
  destruct c as [[|] [|] [|] [|] [|] [|] [|] [|]]; cbv; congruence.
Qed.

Lemma digits_isascii (s : string) :
  forallb is_digit (list_ascii_of_string s) = true -> isascii s = true.
Proof.
  unfold isascii. induction s as [|a s IH]; simpl; [reflexivity|].
  intros H. apply andb_true_iff in H as [Ha Hs].
  now rewrite (is_digit_ascii a Ha), (IH Hs).
Qed.

Lemma py_int_digits (s : string) (u : uint) :
  forallb is_digit (list_ascii_of_string s) = true -> digits s = Some u ->
  py_int s = OK (Z.of_uint u) /\ py_int (String "-" s) = OK (- Z.of_uint u).
Proof.
  intros Hd Hu. pose proof (digits_isascii s Hd) as Hascii.
  rewrite !py_int_ascii by (assumption || (unfold isascii in *; simpl; assumption)).
  unfold PyLong_FromString. split.
  - rewrite (strip_id s (digits_not_space s Hd)).
    destruct s as [|a s]; [discriminate|].
    simpl in Hd. apply andb_true_iff in Hd as [Ha _].
    destruct a as [[|] [|] [|] [|] [|] [|] [|] [|]]; try discriminate Ha;
      now rewrite Hu.
  - rewrite strip_id.
    + now rewrite Hu.
    + simpl. now apply digits_not_space.
Qed.

(** [int(str(n)) == n] *)
Lemma py_int_py_str (n : Z) : py_int (py_str n) = OK n.
Proof.
  unfold py_str. rewrite <- (DecimalZ.of_to n) at 2.
  assert (Hnn : forall u, u <> Nil ->
            NilZero.string_of_uint u = NilEmpty.string_of_uint u)
    by (intros [] ?; congruence || reflexivity).
  assert (Hu : forall u, u <> Nil ->
            py_int (NilZero.string_of_uint u) = OK (Z.of_uint u) /\
            py_int (String "-" (NilZero.string_of_uint u)) = OK (- Z.of_uint u)).
  { intros u Hne. rewrite (Hnn u Hne).
    apply py_int_digits; [apply string_of_uint_digits | now apply digits_string_of_uint]. }
  destruct n as [|p|p]; simpl Z.to_int; unfold NilZero.string_of_int, Z.of_int.
  - reflexivity.
  - apply Hu, DecimalPos.Unsigned.to_uint_nonnil.
  - apply Hu, DecimalPos.Unsigned.to_uint_nonnil.
Qed.

(** ** expand_df: generalization (lines 181-192) *)

Lemma generalize_four_octets (a b c d country : string) :
  contains "." a = false -> contains "." b = false ->
  contains "." c = false -> contains "." d = false ->
  generalize (mkSplit (join "." [a; b; c; d]) 32 country)
    = OK (mkSplit (join "." [a; b; c; "0"]) 24 country).
Proof.
  intros Ha Hb Hc Hd. unfold generalize. cbn [IP Subnet SCountry].
  rewrite (join_two_contains "." a b [c; d]). cbn [andb Z.eqb Pos.eqb].
  rewrite split_join.
  - reflexivity.
  - discriminate.
  - intros p [<-|[<-|[<-|[<-|[]]]]]; assumption.
Qed.

Lemma generalize_other_prefix (item : SplitRow) :
  Subnet item <> 32 -> generalize item = OK item.
Proof.
  intros H. unfold generalize.
  apply Z.eqb_neq in H. rewrite H, andb_false_r. reflexivity.
Qed.

Lemma py_str_no_dot (n : Z) : contains "." (py_str n) = false.
Proof. apply py_str_contains; [reflexivity | discriminate]. Qed.

Lemma py_str_no_slash (n : Z) : contains "/" (py_str n) = false.
Proof. apply py_str_contains; [reflexivity | discriminate]. Qed.

(** The address of the /24 around an address: the last octet cleared. *)
Lemma IPv4_str_slash24 (n : Z) :
  ipaddress.IPv4_str (256 * (n / 256)) =
  join "." [py_str (Z.land (Z.shiftr n 24) 255); py_str (Z.land (Z.shiftr n 16) 255);
            py_str (Z.land (Z.shiftr n 8) 255); "0"].
Proof.
  unfold ipaddress.IPv4_str. cbn [map].
  assert (H8 : Z.shiftr (256 * (n / 256)) 8 = Z.shiftr n 8).
  { rewrite !Z.shiftr_div_pow2 by lia. change (2 ^ 8) with 256.
    rewrite Z.mul_comm, Z.div_mul by lia. reflexivity. }
  assert (Hk : forall k, 0 <= k ->
            Z.shiftr (256 * (n / 256)) (8 + k) = Z.shiftr n (8 + k)).
  { intros k Hk. rewrite <- !Z.shiftr_shiftr by lia. now rewrite H8. }
  pose proof (Hk 16 ltac:(lia)) as H24. pose proof (Hk 8 ltac:(lia)) as H16.
  cbn [Z.add Pos.add Pos.succ] in H24, H16.
  assert (H0 : Z.land (Z.shiftr (256 * (n / 256)) 0) 255 = 0).
  { rewrite Z.shiftr_0_r. change 255 with (Z.ones 8). rewrite Z.land_ones by lia.
    change (2 ^ 8) with 256. rewrite Z.mul_comm, Z.mod_mul by lia. reflexivity. }
  rewrite H24, H16, H8, H0. reflexivity.
Qed.

Lemma expand_df_single (S : Sorter) (row : CIDRRecord) (item item' : SplitRow) :
  split_row row = OK item -> generalize item = OK item' ->
  expand_df S [row] = OK [reassemble item'].
Proof.
  intros Hs Hg. unfold expand_df. cbn [mapM]. rewrite Hs. cbn [bind mapM].
  rewrite Hg. cbn [bind resolve_conflicts sort_values].
  rewrite sort_by_single. cbn [drop_duplicates drop_duplicates_from existsb map sort_values].
  now rewrite sort_by_single.
Qed.

(** C3.  The generalization step rewrites every IPv4 entry of prefix length
    32 to the /24 around it: the fourth octet becomes "0" and the prefix
    length 24, whatever the country; in numbers, the entry of address [n]
    becomes the entry of address [256 * (n / 256)].  An entry of any other
    prefix length passes with address and prefix length unchanged.  So
    "203.0.113.5/32" leaves [expand_df] as "203.0.113.0/24". *)
Theorem expand_df_generalization :
  (forall a b c d country,
     contains "." a = false -> contains "." b = false ->
     contains "." c = false -> contains "." d = false ->
     generalize (mkSplit (join "." [a; b; c; d]) 32 country)
       = OK (mkSplit (join "." [a; b; c; "0"]) 24 country)) /\
  (forall n country,
     generalize (mkSplit (ipaddress.IPv4_str n) 32 country)
       = OK (mkSplit (ipaddress.IPv4_str (256 * (n / 256))) 24 country)) /\
  (forall item, Subnet item <> 32 -> generalize item = OK item) /\
  (forall S country,
     expand_df S [mkCIDR "203.0.113.5/32" country]
       = OK [mkCIDR "203.0.113.0/24" country]).
Proof.
  split; [exact generalize_four_octets|].
  split.
  { intros n country. rewrite IPv4_str_slash24.
    unfold ipaddress.IPv4_str. cbn [map].
    apply generalize_four_octets; apply py_str_no_dot. }
  split; [exact generalize_other_prefix|].
  intros S country.
  apply (expand_df_single S _ (mkSplit "203.0.113.5" 32 country)
                          (mkSplit "203.0.113.0" 24 country)); reflexivity.
Qed.

Lemma expand_df_generalization_witness :
  generalize (mkSplit (join "." ["203"; "0"; "113"; "5"]) 32 "IR")
    = OK (mkSplit (join "." ["203"; "0"; "113"; "0"]) 24 "IR").
Proof.
  exact (proj1 expand_df_generalization "203" "0" "113" "5" "IR"
           eq_refl eq_refl eq_refl eq_refl).
Defined.

(** ** expand_df: running it on its own output *)

Lemma mapM_OK {A B : Type} (f : A -> result B) (l : list A) (out : list B) :
  mapM f l = OK out -> Forall2 (fun x y => f x = OK y) l out.
Proof.
  revert out. induction l as [|x r IH]; simpl; intros out.
  - intros [= <-]. constructor.
  - destruct (f x) as [y|] eqn:Hx; simpl; [|discriminate].
    destruct (mapM f r) as [ys|] eqn:Hr; simpl; [|discriminate].
    intros [= <-]. constructor; auto.
Qed.

Lemma mapM_id {A : Type} (f : A -> result A) (l : list A) :
  (forall x, In x l -> f x = OK x) -> mapM f l = OK l.
Proof.
  induction l as [|x r IH]; simpl; intros H; [reflexivity|].
  rewrite (H x (or_introl eq_refl)). simpl.
  rewrite IH by (intros y Hy; apply H; now right). reflexivity.
Qed.

Lemma mapM_map_inv {A B : Type} (f : B -> result A) (g : A -> B) (l : list A) :
  (forall x, In x l -> f (g x) = OK x) -> mapM f (map g l) = OK l.
Proof.
  induction l as [|x r IH]; simpl; intros H; [reflexivity|].
  rewrite (H x (or_introl eq_refl)). simpl.
  rewrite IH by (intros y Hy; apply H; now right). reflexivity.
Qed.

Lemma Forall2_In_r {A B : Type} (P : A -> B -> Prop) (l : list A) (l' : list B) (y : B) :
  Forall2 P l l' -> In y l' -> exists x, In x l /\ P x y.
Proof.
  induction 1 as [|a b l l' Hab _ IH]; simpl; [intros []|].
  intros [<-|Hy]; [exists a; auto|].
  destruct (IH Hy) as (x & Hx & Hp). exists x. auto.
Qed.

(** A row of the intermediate frame is settled when its address holds no
    "/" and the generalization step leaves it alone. *)
Definition settled (x : SplitRow) : Prop :=
  contains "/" (IP x) = false /\ generalize x = OK x.

Lemma split_row_no_slash (row : CIDRRecord) (item : SplitRow) :
  split_row row = OK item -> contains "/" (IP item) = false.
Proof.
  unfold split_row, get_item.
  destruct (split "/" (Network row)) as [|h t] eqn:Hs; simpl; [discriminate|].
  destruct t as [|s t]; simpl; [discriminate|].
  destruct (py_int s); simpl; [|discriminate].
  intros [= <-]. simpl. apply (split_parts "/" (Network row)). rewrite Hs. now left.
Qed.

Lemma generalize_settled (item item' : SplitRow) :
  generalize item = OK item' -> contains "/" (IP item) = false -> settled item'.
Proof.
  unfold generalize.
  destruct (contains "." (IP item) && (Subnet item =? 32)) eqn:Hc.
  - destruct (set_item (split "." (IP item)) 3 "0") as [octets|] eqn:Hset; simpl; [|discriminate].
    intros [= <-] Hslash. split; simpl.
    + apply join_contains; [reflexivity|].
      intros p Hp. destruct (set_item_In _ _ _ _ _ Hset Hp) as [->|Hin]; [reflexivity|].
      now apply (split_contains "." "/" (IP item)).
    + apply generalize_other_prefix. simpl. discriminate.
  - intros [= <-] Hslash. split; [assumption|].
    unfold generalize. now rewrite Hc.
Qed.

Lemma split_row_reassemble (x : SplitRow) :
  contains "/" (IP x) = false -> split_row (reassemble x) = OK x.
Proof.
  intros H. unfold split_row, reassemble. cbn [Network Country].
  change (IP x ++ "/" ++ py_str (Subnet x))%string
    with (IP x ++ String "/" (py_str (Subnet x)))%string.
  rewrite (split_app_sep "/" _ _ H), (split_no_sep "/" _ (py_str_no_slash _)).
  cbn [get_item nth_error bind]. rewrite py_int_py_str. cbn [bind].
  now destruct x.
Qed.

(** The phases of a run of [expand_df] that returns. *)
Lemma expand_df_OK (S : Sorter) (df out : list CIDRRecord) :
  expand_df S df = OK out ->
  exists tmp_df,
    tmp_df <> [] /\ NoDup (map IP tmp_df) /\ Forall settled tmp_df /\
    StronglySorted (fun a b => le_Subnet a b = true) tmp_df /\
    out = sort_by S le_Country (map reassemble tmp_df).
Proof.
  unfold expand_df.
  destruct (mapM split_row df) as [split_list|] eqn:Hsplit; simpl; [|discriminate].
  destruct (mapM generalize split_list) as [extensive_list|] eqn:Hgen; simpl; [|discriminate].
  destruct (resolve_conflicts S extensive_list) as [tmp_df|] eqn:Hres; simpl; [|discriminate].
  intros Hsort. apply sort_values_OK in Hsort as [Hne ->].
  exists tmp_df. split; [|split; [|split; [|split]]].
  - intros ->. now apply Hne.
  - now apply (resolve_conflicts_NoDup S extensive_list).
  - apply Forall_forall. intros x Hx.
    apply (resolve_conflicts_min S _ _ x Hres) in Hx as [Hx _].
    destruct (Forall2_In_r _ _ _ _ (mapM_OK _ _ _ Hgen) Hx) as (item & Hitem & Hg).
    destruct (Forall2_In_r _ _ _ _ (mapM_OK _ _ _ Hsplit) Hitem) as (row & _ & Hr).
    apply (generalize_settled item x Hg). now apply (split_row_no_slash row).
  - now apply (resolve_conflicts_sorted S extensive_list).
  - reflexivity.
Qed.

(** [expand_df] on reassembled settled rows without duplicate address. *)
Lemma expand_df_settled (S : Sorter) (rows : list SplitRow) :
  rows <> [] -> NoDup (map IP rows) -> Forall settled rows ->
  expand_df S (map reassemble rows)
    = OK (sort_by S le_Country (map reassemble (sort_by S le_Subnet rows))).
Proof.
  intros Hne Hnd Hset. rewrite Forall_forall in Hset. unfold expand_df.
  rewrite mapM_map_inv by (intros x Hx; apply split_row_reassemble; now apply Hset).
  cbn [bind]. rewrite mapM_id by (intros x Hx; now apply Hset).
  cbn [bind]. unfold resolve_conflicts.
  rewrite sort_values_nonempty by assumption. cbn [bind].
  rewrite (drop_duplicates_id _ _ string_eqb_iff).
  2:{ eapply Permutation_NoDup; [|exact Hnd]. apply Permutation_map, sort_by_perm. }
  apply sort_values_nonempty.
  intros E. apply map_eq_nil in E. now apply (sort_by_nonempty S le_Subnet rows).
Qed.

Definition le_SCountry (a b : SplitRow) : bool := String.leb (SCountry a) (SCountry b).

Lemma expand_df_stable_fixed (rows : list SplitRow) :
  StronglySorted (fun a b => le_Subnet a b = true) rows ->
  insertion_sort le_SCountry (insertion_sort le_Subnet (insertion_sort le_SCountry rows))
    = insertion_sort le_SCountry rows.
Proof.
  apply (resort_fixed le_SCountry le_Subnet).
  - intros a b. apply String.leb_total.
  - intros a b c. apply string_leb_trans.
  - apply le_Subnet_total.
  - apply le_Subnet_trans.
Qed.

(** C5, as the code has it.  When [expand_df] returns a frame, running it
    on that frame returns too, with exactly the same rows, again sorted by
    country; the order of the rows of one country may differ from the first
    run's, unless the sort is stable: then the second run returns the very
    same frame. *)
Theorem expand_df_idempotent_up_to_order :
  forall (S : Sorter) (df out : list CIDRRecord),
    expand_df S df = OK out ->
    exists out',
      expand_df S out = OK out' /\
      Permutation out out' /\
      StronglySorted (fun a b => String.leb (Country a) (Country b) = true) out' /\
      (stable S -> out' = out).
Proof.
  intros S df out H.
  apply expand_df_OK in H as (tmp_df & Hne & Hnd & Hset & Hsorted & ->).
  destruct (Permutation_map_inv reassemble (l1 := sort_by S le_Country (map reassemble tmp_df))
              tmp_df) as (rows & Hrows & Hperm).
  { symmetry. apply sort_by_perm. }
  assert (Hne' : rows <> []).
  { intros ->. apply Hne. apply Permutation_nil. now symmetry. }
  assert (Hrun : expand_df S (sort_by S le_Country (map reassemble tmp_df))
                 = OK (sort_by S le_Country (map reassemble (sort_by S le_Subnet rows)))).
  { rewrite Hrows. apply expand_df_settled; [assumption | |].
    - eapply Permutation_NoDup; [|exact Hnd]. now apply Permutation_map.
    - eapply Permutation_Forall; [exact Hperm | exact Hset]. }
  eexists. split; [exact Hrun|]. split; [|split].
  - rewrite Hrows at 1. rewrite <- sort_by_perm.
    apply Permutation_map, sort_by_perm.
  - apply (sort_by_sorted S _ le_Country); [apply le_Country_total | apply le_Country_trans].
  - intros Hst.
    assert (Hc : forall l, sort_by S le_Country (map reassemble l)
                           = map reassemble (insertion_sort le_SCountry l)).
    { intros l. rewrite (stable_insertion_sort le_Country le_Country_total le_Country_trans S _ Hst).
      now apply insertion_sort_map. }
    rewrite Hc in Hrows.
    assert (Hinj : forall l1 l2, map reassemble l1 = map reassemble l2 ->
                     Forall settled l1 -> Forall settled l2 -> l1 = l2).
    { induction l1 as [|a l1 IH]; intros [|b l2]; cbn [map]; try discriminate; [reflexivity|].
      intros E F1 F2. inversion F1 as [|? ? [Ha _] F1']; subst.
      inversion F2 as [|? ? [Hb _] F2']; subst.
      pose proof (split_row_reassemble a Ha) as Ea.
      pose proof (split_row_reassemble b Hb) as Eb.
      assert (a = b) by congruence.
      assert (map reassemble l1 = map reassemble l2) by congruence.
      f_equal; [assumption | now apply IH]. }
    assert (Erows : rows = insertion_sort le_SCountry tmp_df).
    { symmetry. apply Hinj; [exact Hrows | |].
      - eapply Permutation_Forall; [apply insertion_sort_perm | exact Hset].
      - eapply Permutation_Forall; [exact Hperm | exact Hset]. }
    rewrite !Hc, (stable_insertion_sort le_Subnet le_Subnet_total le_Subnet_trans S _ Hst), Erows.
    f_equal. now apply expand_df_stable_fixed.
Qed.

Lemma expand_df_idempotent_up_to_order_witness :
  expand_df stable_sorter [mkCIDR "203.0.113.0/24" "IR"]
    = OK [mkCIDR "203.0.113.0/24" "IR"].
Proof.
  destruct (expand_df_idempotent_up_to_order stable_sorter
              [mkCIDR "203.0.113.5/32" "IR"] [mkCIDR "203.0.113.0/24" "IR"] eq_refl)
    as (out' & Hrun & _ & _ & Hstable).
  rewrite <- (Hstable stable_sorter_stable) at 2. exact Hrun.
Defined.

(** Frames of /24 networks of one country: 10.0.k.0/24 for the [k] of a
    list, in the order of the list. *)
Definition networks_of_iran (ks : list Z) : list CIDRRecord :=
  map (fun k => mkCIDR ("10.0." ++ py_str k ++ ".0/24")%string "IR") ks.

(** C5, as stated, fails on the thirty-four networks 10.0.0.0/24 to
    10.0.33.0/24 of "IR".  All prefix lengths are equal and all countries
    are equal, so either sort of a run may leave the rows in any order, and
    numpy's quicksort does not leave them as they are: it partitions the
    column of 34 rows, and again the part of 17 rows.  The first run
    returns the networks in one order, and the second run, on that frame,
    returns them in another: [expand_df] does not return its own output
    unchanged. *)
Lemma expand_df_not_idempotent :
  expand_df numpy_sorter (networks_of_iran (map Z.of_nat (seq 0 34)))
    = OK (networks_of_iran
    [0; 14; 13; 12; 11; 10; 9; 7; 32; 6; 5; 4; 3; 2; 1; 15; 16; 17; 31; 30;
     29; 28; 27; 26; 8; 25; 23; 22; 21; 20; 19; 18; 24; 33]) /\
  expand_df numpy_sorter (networks_of_iran
    [0; 14; 13; 12; 11; 10; 9; 7; 32; 6; 5; 4; 3; 2; 1; 15; 16; 17; 31; 30;
     29; 28; 27; 26; 8; 25; 23; 22; 21; 20; 19; 18; 24; 33])
    = OK (networks_of_iran
    [0; 1; 2; 3; 4; 5; 6; 7; 24; 9; 10; 11; 12; 13; 14; 15; 16; 17; 18; 19;
     20; 21; 22; 23; 32; 25; 26; 27; 28; 29; 30; 31; 8; 33]) /\
  ~ (forall (df out : list CIDRRecord),
       expand_df numpy_sorter df = OK out -> expand_df numpy_sorter out = OK out).
Proof.
  split; [vm_compute; reflexivity|]. split; [vm_compute; reflexivity|].
  intros H.
  specialize (H (networks_of_iran (map Z.of_nat (seq 0 34))) _
                ltac:(vm_compute; reflexivity)).
  vm_compute in H. discriminate H.
Qed.

(** ** extract_geolite2_cidr *)

Lemma same_id_iff (cell : option Z) (geoid : Z) :
  same_id cell geoid = true <-> cell = Some geoid.
Proof.
  destruct cell as [g|]; simpl.
  - rewrite Z.eqb_eq. split; congruence.
  - split; discriminate.
Qed.

(** C6.  The geo-block adapter keeps a row exactly when both its
    [geoname_id] and its [registered_country_geoname_id] are the resolved
    identifier, in the order of the file, and it stamps every row it keeps
    with the requested ISO code.  A row with [geoname_id = 100] and
    [registered_country_geoname_id = 200] is left out when the identifier
    is 100. *)
Theorem extract_geolite2_cidr_filter :
  forall (fs : FileSystem) (ipv6 : bool) (path : string) (geoid : Z) (iso : string)
         (ipblocks_df : list blocks.Row),
    blocks_csv fs ipv6 = Some ipblocks_df ->
    exists kept,
      extract_geolite2_cidr fs ipv6 path geoid iso
        = ([ReadFile path], OK (map (fun r => mkCIDR (blocks.network r) iso) kept)) /\
      (forall r, In r kept <->
         In r ipblocks_df /\
         blocks.geoname_id r = Some geoid /\
         blocks.registered_country_geoname_id r = Some geoid) /\
      (forall rec, In rec (map (fun r => mkCIDR (blocks.network r) iso) kept) ->
         Country rec = iso) /\
      (forall net rep proxy sat,
         ipblocks_df = [blocks.mkRow net (Some 100) (Some 200) rep proxy sat] ->
         geoid = 100 -> kept = []).
Proof.
  intros fs ipv6 path geoid iso ipblocks_df Hfile.
  exists (filter (fun r => same_id (blocks.geoname_id r) geoid
                        && same_id (blocks.registered_country_geoname_id r) geoid)
                 ipblocks_df).
  split; [|split; [|split]].
  - unfold extract_geolite2_cidr. rewrite Hfile. reflexivity.
  - intros r. rewrite filter_In, andb_true_iff, !same_id_iff. reflexivity.
  - intros rec Hrec. apply in_map_iff in Hrec as (r & <- & _). reflexivity.
  - intros net rep proxy sat -> ->. reflexivity.
Qed.

Definition example_blocks : list blocks.Row :=
  [blocks.mkRow "5.1.0.0/16" (Some 100) (Some 200) None false false;
   blocks.mkRow "5.2.0.0/16" (Some 100) (Some 100) None false false].

Definition example_blocks_fs : FileSystem :=
  mkFS true None None (fun _ => Some example_blocks) (fun _ _ => None) (fun _ _ => None) None.

Lemma extract_geolite2_cidr_filter_witness :
  exists kept,
    extract_geolite2_cidr example_blocks_fs false "blocks.csv" 100 "IR"
      = ([ReadFile "blocks.csv"], OK (map (fun r => mkCIDR (blocks.network r) "IR") kept)) /\
    (forall r, In r kept <->
       In r example_blocks /\
       blocks.geoname_id r = Some 100 /\
       blocks.registered_country_geoname_id r = Some 100) /\
    (forall rec, In rec (map (fun r => mkCIDR (blocks.network r) "IR") kept) ->
       Country rec = "IR") /\
    (forall net rep proxy sat,
       example_blocks = [blocks.mkRow net (Some 100) (Some 200) rep proxy sat] ->
       100 = 100 -> kept = []).
Proof.
  exact (extract_geolite2_cidr_filter example_blocks_fs false "blocks.csv" 100 "IR"
           example_blocks eq_refl).
Defined.

(** ** The trace of a run *)

Definition is_read (ev : Event) : bool :=
  match ev with ReadFile _ => true | _ => false end.

(** What a run did to the disk: its trace without the reads. *)
Definition writes (log : list Event) : list Event :=
  filter (fun ev => negb (is_read ev)) log.

Definition reads_only {A : Type} (m : IO A) : Prop :=
  Forall (fun ev => is_read ev = true) (fst m).

(** Two runs with the same result and the same effect on the disk. *)
Definition same_outcome {A : Type} (m1 m2 : IO A) : Prop :=
  snd m1 = snd m2 /\ writes (fst m1) = writes (fst m2).

Lemma bindIO_fst {A B : Type} (m : IO A) (k : A -> IO B) :
  fst (bindIO m k) =
  match snd m with
  | OK a => fst m ++ fst (k a)
  | Raise _ => fst m
  end.
Proof.
  destruct m as [log [a|e]]; simpl; [|reflexivity]. now destruct (k a).
Qed.

Lemma bindIO_snd {A B : Type} (m : IO A) (k : A -> IO B) :
  snd (bindIO m k) =
  match snd m with
  | OK a => snd (k a)
  | Raise e => Raise e
  end.
Proof.
  destruct m as [log [a|e]]; simpl; [|reflexivity]. now destruct (k a).
Qed.

Lemma reads_only_bind {A B : Type} (m : IO A) (k : A -> IO B) :
  reads_only m -> (forall a, reads_only (k a)) -> reads_only (bindIO m k).
Proof.
  unfold reads_only. intros Hm Hk. rewrite bindIO_fst.
  destruct (snd m) as [a|e]; [|assumption].
  apply Forall_app. split; [assumption | apply Hk].
Qed.

Lemma reads_only_nil {A : Type} (r : result A) : reads_only (([], r) : IO A).
Proof. constructor. Qed.

Lemma reads_only_read_file {A : Type} (path : string) (content : option A) :
  reads_only (read_file path content).
Proof. destruct content; repeat constructor. Qed.

Lemma reads_only_load_optional (path : string) (content : option (list CIDRRecord))
    (aggregated : list CIDRRecord) :
  reads_only (load_optional path content aggregated).
Proof. destruct content; repeat constructor. Qed.

Ltac reads_only_step :=
  first [ apply reads_only_nil
        | apply reads_only_read_file
        | apply reads_only_load_optional
        | apply reads_only_bind; [|intros] ].

Lemma reads_only_aggregate_geolocation (fs : FileSystem)
    (aggregated : list CIDRRecord * list CIDRRecord) (geolocation : Geolocation) :
  reads_only (aggregate_geolocation fs aggregated geolocation).
Proof.
  unfold aggregate_geolocation, load_dbip_csv, load_geolite2_csv, extract_geo_id,
    extract_geolite2_cidr, read_ito_db, ret, lift, throw.
  destruct aggregated as [a4 a6].
  repeat (reads_only_step;
          try match goal with
              | a : (_ * _)%type |- _ => destruct a
              | |- context [if ?b then _ else _] => destruct b
              end).
Qed.

Lemma reads_only_aggregate_from (fs : FileSystem)
    (aggregated : list CIDRRecord * list CIDRRecord) (todo : list Geolocation) :
  reads_only (aggregate_from fs aggregated todo).
Proof.
  revert aggregated. induction todo as [|g rest IH]; intros aggregated; simpl.
  - apply reads_only_nil.
  - apply reads_only_bind; [apply reads_only_aggregate_geolocation | intros; apply IH].
Qed.

Lemma reads_only_writes {A : Type} (m : IO A) : reads_only m -> writes (fst m) = [].
Proof.
  unfold reads_only, writes. induction 1 as [|ev log Hev _ IH]; simpl; [reflexivity|].
  now rewrite Hev.
Qed.

Lemma writes_app (l1 l2 : list Event) : writes (l1 ++ l2) = writes l1 ++ writes l2.
Proof. apply filter_app. Qed.

(** The three ways [main] can go once the data directory is there. *)
Lemma main_run (S : Sorter) (fs : FileSystem) :
  data_dir fs = true ->
  main S fs =
  match aggregate fs with
  | (log, OK (aggregated_ipv4_df, aggregated_ipv6_df)) =>
      match expand_df S (drop_duplicates CIDRRecord_eqb (fun r => r) aggregated_ipv4_df) with
      | OK expanded =>
          (log ++ [MakeDirs export_dir_path;
                   WriteFile (export_dir_path ++ "/agg_cidrs.csv")%string
                     (to_csv (concat_df expanded
                                (drop_duplicates CIDRRecord_eqb (fun r => r)
                                   aggregated_ipv6_df)) false)],
           OK tt)
      | Raise e => (log, Raise e)
      end
  | (log, Raise e) => (log, Raise e)
  end.
Proof.
  intros Hdir. unfold main. rewrite Hdir.
  destruct (aggregate fs) as [log [[a4 a6]|e]]; simpl; [|reflexivity].
  destruct (expand_df S _); simpl; [reflexivity | now rewrite app_nil_r].
Qed.

(** ** main: example disks *)

Definition example_locations : list locations.Row :=
  [locations.mkRow "Iran" 130758; locations.mkRow "China" 1814991;
   locations.mkRow "Russia" 2017370].

(** A disk with every mandatory source and no optional file.  The range
    table and the block table agree on one IPv6 network of Iran. *)
Definition example_fs : FileSystem :=
  mkFS true
    (Some [dbip.mkRow "1.0.0.0" "1.0.0.3" "IR";
           dbip.mkRow "2001:db8::" "2001:db8::ffff" "IR";
           dbip.mkRow "1.0.1.0" "1.0.1.255" "CN"])
    (Some example_locations)
    (fun ipv6 =>
       if ipv6
       then Some [blocks.mkRow "2001:db8::/112" (Some 130758) (Some 130758) None false false]
       else Some [blocks.mkRow "5.1.0.0/16" (Some 130758) (Some 200) None false false])
    (fun _ _ => None) (fun _ _ => None)
    (Some ["5.160.0.0/16"]).

(** The same sources, holding no IPv4 record at all. *)
Definition example_fs_no_ipv4 : FileSystem :=
  mkFS true
    (Some [dbip.mkRow "2001:db8::" "2001:db8::ffff" "IR"])
    (Some example_locations)
    (fun _ => Some [])
    (fun _ _ => None) (fun _ _ => None)
    (Some []).

(** A disk without the data directory. *)
Definition example_fs_no_data_dir : FileSystem :=
  mkFS false None None (fun _ => None) (fun _ _ => None) (fun _ _ => None) None.

(** ** main: the writer (lines 306-330) *)

(** C4, as the code has it.  When the sources are read and the IPv4 frame
    is expanded, [main] creates the output directory and writes one file:
    the header [Network,Country], then one line of two cells (network,
    country; no index column) per row of the expanded IPv4 frame, followed
    by the rows of the aggregated IPv6 frame after the removal of exact
    duplicate rows, in the order of their first occurrence.  Nothing else is
    done to the IPv6 rows: none is generalized and none is dropped for
    sharing an address with another. *)
Theorem main_writes_ipv4_then_ipv6 :
  forall (S : Sorter) (fs : FileSystem) (log : list Event)
         (aggregated_ipv4_df aggregated_ipv6_df expanded : list CIDRRecord),
    data_dir fs = true ->
    aggregate fs = (log, OK (aggregated_ipv4_df, aggregated_ipv6_df)) ->
    expand_df S (drop_duplicates CIDRRecord_eqb (fun r => r) aggregated_ipv4_df)
      = OK expanded ->
    let ipv6_rows := drop_duplicates CIDRRecord_eqb (fun r => r) aggregated_ipv6_df in
    snd (main S fs) = OK tt /\
    writes (fst (main S fs)) =
      [MakeDirs "./Aggregated_Data";
       WriteFile "./Aggregated_Data/agg_cidrs.csv"
         (mkCsv ["Network"; "Country"]
                (map (fun r => [Network r; Country r]) (expanded ++ ipv6_rows)))] /\
    NoDup ipv6_rows /\
    (forall r, In r ipv6_rows <-> In r aggregated_ipv6_df).
Proof.
  intros S fs log a4 a6 expanded Hdir Hagg Hexp ipv6_rows.
  assert (Heqb : forall a b, CIDRRecord_eqb a b = true <-> a = b).
  { intros [n1 c1] [n2 c2]. unfold CIDRRecord_eqb. simpl.
    rewrite andb_true_iff, !String.eqb_eq. split; [intros [-> ->] | intros [= -> ->]]; auto. }
  rewrite (main_run S fs Hdir), Hagg, Hexp. cbn [fst snd].
  split; [reflexivity|]. split; [|split].
  - rewrite writes_app.
    pose proof (reads_only_writes (aggregate fs) (reads_only_aggregate_from fs _ _)) as Hr.
    rewrite Hagg in Hr. cbn [fst] in Hr. rewrite Hr. reflexivity.
  - pose proof (drop_duplicates_NoDup CIDRRecord_eqb (fun r => r) Heqb a6) as Hnd.
    now rewrite map_id in Hnd.
  - intros r.
    pose proof (drop_duplicates_keys CIDRRecord_eqb (fun r => r) Heqb r a6) as Hk.
    now rewrite !map_id in Hk.
Qed.

Lemma main_writes_ipv4_then_ipv6_witness :
  snd (main stable_sorter example_fs) = OK tt /\
  writes (fst (main stable_sorter example_fs)) =
    [MakeDirs "./Aggregated_Data";
     WriteFile "./Aggregated_Data/agg_cidrs.csv"
       (mkCsv ["Network"; "Country"]
              [["1.0.1.0/24"; "CN"]; ["5.160.0.0/16"; "IR"]; ["1.0.0.0/30"; "IR"];
               ["2001:db8::/112"; "IR"]])].
Proof.
  destruct (main_writes_ipv4_then_ipv6 stable_sorter example_fs
              (fst (aggregate example_fs))
              [mkCIDR "1.0.0.0/30" "IR"; mkCIDR "5.160.0.0/16" "IR"; mkCIDR "1.0.1.0/24" "CN"]
              [mkCIDR "2001:db8::/112" "IR"; mkCIDR "2001:db8::/112" "IR"]
              [mkCIDR "1.0.1.0/24" "CN"; mkCIDR "5.160.0.0/16" "IR"; mkCIDR "1.0.0.0/30" "IR"]
              eq_refl eq_refl eq_refl) as (Hres & Hwr & _).
  split; [exact Hres | exact Hwr].
Defined.

(** C4, as stated, fails: the range table and the block table both give
    the IPv6 network 2001:db8::/112 of Iran, so the aggregated IPv6 frame
    holds the row twice; the file written holds it once. *)
Lemma main_deduplicates_ipv6 :
  snd (aggregate example_fs) =
    OK ([mkCIDR "1.0.0.0/30" "IR"; mkCIDR "5.160.0.0/16" "IR"; mkCIDR "1.0.1.0/24" "CN"],
        [mkCIDR "2001:db8::/112" "IR"; mkCIDR "2001:db8::/112" "IR"]) /\
  writes (fst (main stable_sorter example_fs)) =
    [MakeDirs "./Aggregated_Data";
     WriteFile "./Aggregated_Data/agg_cidrs.csv"
       (mkCsv ["Network"; "Country"]
              [["1.0.1.0/24"; "CN"]; ["5.160.0.0/16"; "IR"]; ["1.0.0.0/30"; "IR"];
               ["2001:db8::/112"; "IR"]])].
Proof. split; reflexivity. Qed.

(** ** main: the missing data directory (lines 227, 331-333) *)

(** C8, as the code has it.  Without the data directory [main] reads
    nothing, writes nothing and leaves through [exit(0)]: the exit status
    is 0, the status of a run that succeeds. *)
Theorem main_without_data_dir :
  forall (S : Sorter) (fs : FileSystem),
    data_dir fs = false ->
    main S fs = ([], Raise (SystemExit 0)) /\
    exit_status (snd (main S fs)) = 0 /\
    exit_status (OK tt) = 0.
Proof.
  intros S fs Hdir. unfold main. rewrite Hdir. repeat split.
Qed.

Lemma main_without_data_dir_witness :
  main stable_sorter example_fs_no_data_dir = ([], Raise (SystemExit 0)) /\
  exit_status (snd (main stable_sorter example_fs_no_data_dir)) = 0 /\
  exit_status (OK tt) = 0.
Proof. exact (main_without_data_dir stable_sorter example_fs_no_data_dir eq_refl). Defined.

(** C8, as stated, fails: the exit status without the data directory is
    0, and so is the exit status of the successful run on [example_fs]. *)
Lemma main_exit_status_zero_without_data_dir :
  exit_status (snd (main stable_sorter example_fs_no_data_dir)) = 0 /\
  exit_status (snd (main stable_sorter example_fs)) = 0.
Proof. split; reflexivity. Qed.

(** ** main: no IPv4 record at all *)

(** C10, as the code has it.  On an empty frame [expand_df] raises
    [KeyError]: the frame built from the empty [extensive_list] has no
    column, and the first sort, by "Subnet" (line 197), fails; the sort by
    "Country" is not reached.  So a run whose sources give no IPv4 record
    ends with that exception after its reads: nothing is written and the
    exit status is not 0. *)
Theorem expand_df_empty_fails :
  forall (S : Sorter),
    expand_df S [] = Raise (KeyError "Subnet") /\
    forall (fs : FileSystem) (log : list Event) (aggregated_ipv6_df : list CIDRRecord),
      data_dir fs = true ->
      aggregate fs = (log, OK ([], aggregated_ipv6_df)) ->
      main S fs = (log, Raise (KeyError "Subnet")) /\
      writes (fst (main S fs)) = [] /\
      exit_status (snd (main S fs)) = 1.
Proof.
  intros S. split; [reflexivity|].
  intros fs log a6 Hdir Hagg.
  assert (Hmain : main S fs = (log, Raise (KeyError "Subnet"))).
  { rewrite (main_run S fs Hdir), Hagg. reflexivity. }
  rewrite Hmain. cbn [fst snd]. repeat split.
  pose proof (reads_only_writes (aggregate fs) (reads_only_aggregate_from fs _ _)) as Hr.
  now rewrite Hagg in Hr.
Qed.

Lemma expand_df_empty_fails_witness :
  main stable_sorter example_fs_no_ipv4
    = (fst (aggregate example_fs_no_ipv4), Raise (KeyError "Subnet")) /\
  writes (fst (main stable_sorter example_fs_no_ipv4)) = [] /\
  exit_status (snd (main stable_sorter example_fs_no_ipv4)) = 1.
Proof.
  exact (proj2 (expand_df_empty_fails stable_sorter) example_fs_no_ipv4
           (fst (aggregate example_fs_no_ipv4))
           [mkCIDR "2001:db8::/112" "IR"] eq_refl eq_refl).
Defined.

(** C10, as stated, fails: the exception of [expand_df] on the empty frame
    names the column "Subnet", not "Country". *)
Lemma expand_df_empty_not_Country :
  expand_df stable_sorter [] = Raise (KeyError "Subnet") /\
  expand_df stable_sorter [] <> Raise (KeyError "Country").
Proof. split; [reflexivity | discriminate]. Qed.

(** ** main: optional sources (lines 261-295) *)

(** [fs1] is [fs2] with some optional files missing, where [fs2] has them
    empty; everything else is the same on both disks. *)
Definition absent_or_same (c1 c2 : option (list CIDRRecord)) : Prop :=
  c1 = c2 \/ (c1 = None /\ c2 = Some []).

Record absent_for_empty (fs1 fs2 : FileSystem) : Prop := mkAbsent {
  same_data_dir : data_dir fs1 = data_dir fs2;
  same_dbip : dbip_csv fs1 = dbip_csv fs2;
  same_locations : locations_csv fs1 = locations_csv fs2;
  same_blocks : forall ipv6, blocks_csv fs1 ipv6 = blocks_csv fs2 ipv6;
  same_ito : ito_xls fs1 = ito_xls fs2;
  as_absent : forall ipv6 iso,
      absent_or_same (as_cidrs_csv fs1 ipv6 iso) (as_cidrs_csv fs2 ipv6 iso);
  manual_absent : forall ipv6 iso,
      absent_or_same (manual_csv fs1 ipv6 iso) (manual_csv fs2 ipv6 iso) }.

Lemma same_outcome_refl {A : Type} (m : IO A) : same_outcome m m.
Proof. split; reflexivity. Qed.

Lemma same_outcome_bind {A B : Type} (m1 m2 : IO A) (k1 k2 : A -> IO B) :
  same_outcome m1 m2 -> (forall a, same_outcome (k1 a) (k2 a)) ->
  same_outcome (bindIO m1 k1) (bindIO m2 k2).
Proof.
  unfold same_outcome. intros [Hs Hw] Hk.
  rewrite !bindIO_snd, !bindIO_fst, <- Hs.
  destruct (snd m1) as [a|e]; [|split; [reflexivity | assumption]].
  destruct (Hk a) as [Hks Hkw]. split; [assumption|].
  now rewrite !writes_app, Hw, Hkw.
Qed.

Lemma same_outcome_load_optional (path : string) (c1 c2 : option (list CIDRRecord))
    (aggregated : list CIDRRecord) :
  absent_or_same c1 c2 ->
  same_outcome (load_optional path c1 aggregated) (load_optional path c2 aggregated).
Proof.
  intros [->|[-> ->]]; [apply same_outcome_refl|].
  unfold load_optional, concat_df. simpl. rewrite app_nil_r. split; reflexivity.
Qed.

Lemma same_outcome_aggregate_geolocation (fs1 fs2 : FileSystem)
    (aggregated : list CIDRRecord * list CIDRRecord) (geolocation : Geolocation) :
  absent_for_empty fs1 fs2 ->
  same_outcome (aggregate_geolocation fs1 aggregated geolocation)
               (aggregate_geolocation fs2 aggregated geolocation).
Proof.
  intros [Hdir Hdbip Hloc Hblocks Hito Has Hman].
  unfold aggregate_geolocation, load_dbip_csv, load_geolite2_csv, extract_geo_id,
    extract_geolite2_cidr, read_ito_db.
  destruct aggregated as [a4 a6].
  rewrite Hdbip, Hloc, !Hblocks, Hito.
  repeat (first [ apply same_outcome_load_optional; [apply Has || apply Hman]
                | apply same_outcome_bind; [|intros]
                | apply same_outcome_refl ];
          try match goal with
              | a : (_ * _)%type |- _ => destruct a
              end).
Qed.

Lemma same_outcome_aggregate_from (fs1 fs2 : FileSystem)
    (aggregated : list CIDRRecord * list CIDRRecord) (todo : list Geolocation) :
  absent_for_empty fs1 fs2 ->
  same_outcome (aggregate_from fs1 aggregated todo) (aggregate_from fs2 aggregated todo).
Proof.
  intros H. revert aggregated. induction todo as [|g rest IH]; intros aggregated; simpl.
  - apply same_outcome_refl.
  - apply same_outcome_bind; [now apply same_outcome_aggregate_geolocation | intros; apply IH].
Qed.

(** C7.  A missing autonomous-system or manual CSV is not an error: the
    step that would read it returns the aggregated frame as it was, which is
    the frame an empty file would give.  So a run on a disk where optional
    files are missing aggregates the same two frames, ends the same way and
    writes the same output as the run where those files are there and empty;
    on [example_fs], which has no optional file at all, the run completes
    with exit status 0. *)
Theorem main_optional_sources :
  (forall path aggregated,
     load_optional path None aggregated = ([], OK aggregated) /\
     snd (load_optional path None aggregated) = snd (load_optional path (Some []) aggregated)) /\
  (forall (S : Sorter) (fs1 fs2 : FileSystem),
     absent_for_empty fs1 fs2 ->
     snd (aggregate fs1) = snd (aggregate fs2) /\
     snd (main S fs1) = snd (main S fs2) /\
     writes (fst (main S fs1)) = writes (fst (main S fs2))) /\
  (forall ipv6 iso, as_cidrs_csv example_fs ipv6 iso = None /\
                    manual_csv example_fs ipv6 iso = None) /\
  snd (main stable_sorter example_fs) = OK tt /\
  exit_status (snd (main stable_sorter example_fs)) = 0.
Proof.
  split; [|split; [|split; [|split]]].
  - intros path aggregated. split; [reflexivity|].
    unfold load_optional, concat_df. simpl. now rewrite app_nil_r.
  - intros S fs1 fs2 H.
    pose proof (same_outcome_aggregate_from fs1 fs2 ([], []) geolocations H) as [Hs Hw].
    fold (aggregate fs1) in Hs, Hw. fold (aggregate fs2) in Hs, Hw.
    split; [assumption|].
    assert (Hmain : same_outcome (main S fs1) (main S fs2)).
    { unfold main. rewrite (same_data_dir _ _ H).
      destruct (data_dir fs2); [|apply same_outcome_refl].
      apply same_outcome_bind; [split; assumption | intros; apply same_outcome_refl]. }
    exact Hmain.
  - intros ipv6 iso. split; reflexivity.
  - reflexivity.
  - reflexivity.
Qed.

(** [example_fs] with every optional file there and empty. *)
Definition example_fs_empty_optional : FileSystem :=
  mkFS (data_dir example_fs) (dbip_csv example_fs) (locations_csv example_fs)
       (blocks_csv example_fs) (fun _ _ => Some []) (fun _ _ => Some [])
       (ito_xls example_fs).

Lemma main_optional_sources_witness :
  snd (aggregate example_fs) = snd (aggregate example_fs_empty_optional) /\
  snd (main stable_sorter example_fs) = snd (main stable_sorter example_fs_empty_optional) /\
  writes (fst (main stable_sorter example_fs))
    = writes (fst (main stable_sorter example_fs_empty_optional)).
Proof.
  exact (proj1 (proj2 main_optional_sources) stable_sorter example_fs
           example_fs_empty_optional
           (mkAbsent example_fs example_fs_empty_optional
              eq_refl eq_refl eq_refl (fun _ => eq_refl) eq_refl
              (fun _ _ => or_intror (conj eq_refl eq_refl))
              (fun _ _ => or_intror (conj eq_refl eq_refl)))).
Defined.

(** ** ipaddress: bits *)

Lemma bit_length_pos (x : Z) :
  0 < x -> 0 < ipaddress.bit_length x /\
           2 ^ (ipaddress.bit_length x - 1) <= x < 2 ^ ipaddress.bit_length x.
Proof.
  intros Hx. unfold ipaddress.bit_length.
  destruct (Z.eqb_spec x 0) as [->|_]; [lia|].
  rewrite Z.abs_eq by lia.
  pose proof (Z.log2_spec x Hx) as Hs. pose proof (Z.log2_nonneg x) as Hn.
  replace (Z.log2 x + 1 - 1) with (Z.log2 x) by lia.
  replace (Z.log2 x + 1) with (Z.succ (Z.log2 x)) by lia. lia.
Qed.

Lemma bit_length_ones (k : Z) : 0 <= k -> ipaddress.bit_length (Z.ones k) = k.
Proof.
  intros Hk. unfold ipaddress.bit_length. rewrite Z.ones_equiv.
  destruct (Z.eqb_spec (Z.pred (2 ^ k)) 0) as [E|E].
  - assert (2 ^ k = 1) by lia.
    destruct (Z.eq_dec k 0) as [->|Hk0]; [reflexivity|].
    assert (2 ^ 1 <= 2 ^ k) by (apply Z.pow_le_mono_r; lia). simpl in *. lia.
  - assert (0 < k).
    { destruct (Z.eq_dec k 0) as [->|]; [simpl in E; lia | lia]. }
    assert (0 < 2 ^ (k - 1)) by (apply Z.pow_pos_nonneg; lia).
    assert (2 ^ k = 2 * 2 ^ (k - 1)).
    { replace k with (Z.succ (k - 1)) at 1 by lia. apply Z.pow_succ_r. lia. }
    rewrite Z.abs_eq by lia.
    rewrite (Z.log2_unique (Z.pred (2 ^ k)) (k - 1)); [lia | lia |].
    replace (Z.succ (k - 1)) with k by lia. lia.
Qed.

(** Every positive number is an odd number times a power of two. *)
Lemma odd_part (n : Z) :
  0 < n -> exists k m, 0 <= k /\ Z.odd m = true /\ n = 2 ^ k * m.
Proof.
  destruct n as [|p|p]; try lia. intros _.
  induction p as [p IH|p IH|].
  - exists 0, (Z.pos p~1). split; [lia|]. split; [reflexivity|].
    now rewrite Z.pow_0_r, Z.mul_1_l.
  - destruct IH as (k & m & Hk & Hm & E).
    exists (Z.succ k), m. split; [lia|]. split; [assumption|].
    rewrite Z.pow_succ_r by assumption. rewrite Pos2Z.inj_xO, E. ring.
  - exists 0, 1. split; [lia|]. split; reflexivity.
Qed.

Lemma odd_pred_bits (m j : Z) :
  Z.odd m = true -> 0 <= j -> negb (Z.testbit m j) && Z.testbit (m - 1) j = false.
Proof.
  intros Hm Hj.
  destruct (Z.eq_dec j 0) as [->|Hj0].
  - now rewrite Z.bit0_odd, Hm.
  - rewrite (Z.div_mod m 2) at 1 2 by lia.
    rewrite Zmod_odd, Hm.
    replace (2 * (m / 2) + 1 - 1) with (2 * (m / 2)) by lia.
    replace j with (Z.succ (j - 1)) by lia.
    rewrite Z.testbit_odd_succ, Z.testbit_even_succ by lia.
    now destruct (Z.testbit (m / 2) (j - 1)).
Qed.

(** [~n & (n - 1)] is the mask of the zero bits below the lowest set bit. *)
Lemma lowest_zero_mask (k m : Z) :
  0 <= k -> Z.odd m = true ->
  Z.land (Z.lnot (2 ^ k * m)) (2 ^ k * m - 1) = Z.ones k.
Proof.
  intros Hk Hm. apply Z.bits_inj'. intros i Hi.
  rewrite Z.land_spec, Z.lnot_spec, Z.testbit_ones_nonneg by lia.
  assert (Hp : 0 < 2 ^ k) by (apply Z.pow_pos_nonneg; lia).
  destruct (Z.ltb_spec i k) as [Hlt|Hge].
  - rewrite (Z.mul_comm (2 ^ k) m) at 1. rewrite Z.mul_pow2_bits_low by lia.
    rewrite <- (Z.mod_pow2_bits_low _ k) by lia.
    replace ((2 ^ k * m - 1) mod 2 ^ k) with (Z.ones k).
    + now rewrite Z.testbit_ones_nonneg, (proj2 (Z.ltb_lt i k)) by lia.
    + rewrite Z.ones_equiv.
      apply (Z.mod_unique_pos _ _ (m - 1)); lia.
  - replace i with ((i - k) + k) by lia.
    rewrite <- !Z.div_pow2_bits by lia.
    replace (2 ^ k * m / 2 ^ k) with m by (rewrite Z.mul_comm, Z.div_mul; lia).
    replace ((2 ^ k * m - 1) / 2 ^ k) with (m - 1).
    + apply odd_pred_bits; [assumption | lia].
    + apply (Z.div_unique_pos _ _ _ (2 ^ k - 1)); lia.
Qed.

(** [_count_righthand_zero_bits]: the largest [k <= bits] such that
    [2 ^ k] divides the number. *)
Lemma count_righthand_zero_bits_spec (number bits : Z) :
  0 <= number -> 0 <= bits ->
  let c := ipaddress._count_righthand_zero_bits number bits in
  0 <= c <= bits /\ (2 ^ c | number) /\
  forall j, 0 <= j <= bits -> (2 ^ j | number) -> j <= c.
Proof.
  intros Hn Hb c. subst c. unfold ipaddress._count_righthand_zero_bits.
  destruct (Z.eqb_spec number 0) as [->|Hne].
  - split; [lia|]. split; [apply Z.divide_0_r | intros; lia].
  - destruct (odd_part number ltac:(lia)) as (k & m & Hk & Hm & ->).
    rewrite (lowest_zero_mask k m Hk Hm), (bit_length_ones k Hk).
    split; [lia|]. split.
    + destruct (Z.min_spec bits k) as [[Hlt ->]|[Hle ->]].
      * exists (2 ^ (k - bits) * m).
        replace k with ((k - bits) + bits) at 1 by lia.
        rewrite Z.pow_add_r by lia. ring.
      * exists m. ring.
    + intros j Hj [q Hq].
      destruct (Z.le_gt_cases j k) as [Hle|Hgt]; [lia|].
      exfalso.
      assert (Hp : 0 < 2 ^ k) by (apply Z.pow_pos_nonneg; lia).
      assert (E : m = 2 * (q * 2 ^ (j - k - 1))).
      { apply (Z.mul_reg_l _ _ (2 ^ k)); [lia|].
        rewrite Hq. replace j with ((j - k - 1) + 1 + k) at 1 by lia.
        rewrite !Z.pow_add_r by lia. change (2 ^ 1) with 2. ring. }
      rewrite E, Z.odd_mul in Hm. discriminate.
Qed.

(** The number of host bits of the next block: the largest [n <= bits]
    with [first] a multiple of [2 ^ n] and [first + 2 ^ n - 1 <= last]. *)
Lemma range_nbits_spec (bits first last : Z) :
  0 <= bits -> 0 <= first <= last ->
  let n := ipaddress.range_nbits bits first last in
  0 <= n <= bits /\ (2 ^ n | first) /\ first + 2 ^ n - 1 <= last /\
  forall j, 0 <= j <= bits -> (2 ^ j | first) -> first + 2 ^ j - 1 <= last -> j <= n.
Proof.
  intros Hb Hr n. subst n. unfold ipaddress.range_nbits.
  destruct (count_righthand_zero_bits_spec first bits ltac:(lia) Hb) as (Hc & Hdiv & Hmax).
  destruct (bit_length_pos (last - first + 1) ltac:(lia)) as (Hl & Hlow & Hhigh).
  set (c := ipaddress._count_righthand_zero_bits first bits) in *.
  set (b := ipaddress.bit_length (last - first + 1)) in *.
  split; [lia|]. split; [|split].
  - destruct Hdiv as [q Hq]. exists (q * 2 ^ (c - Z.min c (b - 1))).
    rewrite <- Z.mul_assoc, <- Z.pow_add_r by lia.
    now replace (c - Z.min c (b - 1) + Z.min c (b - 1)) with c by lia.
  - assert (2 ^ Z.min c (b - 1) <= 2 ^ (b - 1)) by (apply Z.pow_le_mono_r; lia). lia.
  - intros j Hj Hjd Hjl.
    assert (j <= c) by now apply Hmax.
    assert (j < b).
    { destruct (Z.lt_ge_cases j b) as [|Hge]; [assumption|].
      assert (2 ^ b <= 2 ^ j) by (apply Z.pow_le_mono_r; lia). lia. }
    lia.
Qed.

Lemma ALL_ONES_ones (bits : Z) : ipaddress.ALL_ONES bits = Z.ones bits.
Proof. unfold ipaddress.ALL_ONES. rewrite Z.ones_equiv. lia. Qed.

(** An aligned address of the family makes a network. *)
Lemma make_network_aligned (bits addr n : Z) :
  0 <= n <= bits -> 0 <= addr <= ipaddress.ALL_ONES bits -> (2 ^ n | addr) ->
  ipaddress.make_network bits addr (bits - n) = OK (ipaddress.mkNetwork addr (bits - n)).
Proof.
  intros Hn Ha [q Hq]. unfold ipaddress.make_network.
  destruct (Z.ltb_spec addr 0); [lia|].
  destruct (Z.ltb_spec (ipaddress.ALL_ONES bits) addr); [lia|]. cbn [orb].
  destruct (Z.leb_spec 0 (bits - n)); [|lia].
  destruct (Z.leb_spec (bits - n) bits); [|lia]. cbn [andb negb].
  replace (Z.land addr _) with addr; [now rewrite Z.eqb_refl|].
  rewrite ALL_ONES_ones in *. apply Z.bits_inj'. intros i Hi.
  rewrite Z.land_spec, Z.lxor_spec, Z.shiftr_spec, !Z.testbit_ones_nonneg by lia.
  destruct (Z.ltb_spec i n) as [Hlt|Hge].
  - rewrite Hq, Z.mul_pow2_bits_low by lia. reflexivity.
  - destruct (Z.ltb_spec i bits) as [Hib|Hib].
    + destruct (Z.ltb_spec (i + (bits - n)) bits); [lia|]. cbn. now rewrite andb_true_r.
    + rewrite Z.ones_equiv in Ha.
      assert (Z.testbit addr i = false) as ->; [|reflexivity].
      destruct (Z.eq_dec addr 0) as [->|]; [apply Z.bits_0|].
      apply Z.bits_above_log2; [lia|].
      apply Z.log2_lt_pow2; [lia|].
      assert (2 ^ bits <= 2 ^ i) by (apply Z.pow_le_mono_r; lia). lia.
Qed.

(** One turn of the loop. *)
Lemma summarize_loop_unfold (ip_bits first_int last_int : Z) :
  ipaddress.summarize_loop ip_bits first_int last_int =
  if first_int <=? last_int then
    (net <- ipaddress.make_network ip_bits first_int
              (ip_bits - ipaddress.range_nbits ip_bits first_int last_int) ;;
     step <- ipaddress.lshift 1 (ipaddress.range_nbits ip_bits first_int last_int) ;;
     if first_int + step - 1 =? ipaddress.ALL_ONES ip_bits then OK [net]
     else rest <- ipaddress.summarize_loop ip_bits (first_int + step) last_int ;;
          OK (net :: rest))%py
  else OK [].
Proof.
  rewrite ipaddress.summarize_loop_equation_1.
  unfold ipaddress.summarize_loop_unfold_clause_1, ipaddress.inspect.
  set (body := fun r : result ipaddress.Network =>
    (net <- r ;;
     step <- ipaddress.lshift 1 (ipaddress.range_nbits ip_bits first_int last_int) ;;
     if first_int + step - 1 =? ipaddress.ALL_ONES ip_bits then OK [net]
     else rest <- ipaddress.summarize_loop ip_bits (first_int + step) last_int ;;
          OK (net :: rest))%py).
  assert (H2 : forall r e,
             ipaddress.summarize_loop_unfold_clause_1_clause_2 ip_bits first_int last_int r e
             = body r).
  { intros [net|err] e; [|reflexivity].
    unfold ipaddress.summarize_loop_unfold_clause_1_clause_2, body. cbn [bind].
    set (n := ipaddress.range_nbits ip_bits first_int last_int).
    assert (H3 : forall s (es : ipaddress.lshift 1 n = s),
               ipaddress.summarize_loop_unfold_clause_1_clause_2_clause_2 ip_bits
                 first_int last_int (exist _ s es) net e
               = (step <- s ;;
                  if first_int + step - 1 =? ipaddress.ALL_ONES ip_bits then OK [net]
                  else rest <- ipaddress.summarize_loop ip_bits (first_int + step) last_int ;;
                       OK (net :: rest))%py).
    { intros [step|err] es; reflexivity. }
    apply (H3 (ipaddress.lshift 1 n) eq_refl). }
  assert (H1 : forall b (e : (first_int <=? last_int) = b),
             (if b as b1 return (first_int <=? last_int) = b1 -> result (list ipaddress.Network)
              then fun e0 =>
                     ipaddress.summarize_loop_unfold_clause_1_clause_2 ip_bits first_int last_int
                       (ipaddress.make_network ip_bits first_int
                          (ip_bits - ipaddress.range_nbits ip_bits first_int last_int)) e0
              else fun _ => OK []) e
             = if b then body (ipaddress.make_network ip_bits first_int
                                 (ip_bits - ipaddress.range_nbits ip_bits first_int last_int))
               else OK []).
  { intros [|] e; [apply H2 | reflexivity]. }
  apply (H1 (first_int <=? last_int) eq_refl).
Qed.

(** *** The summary of the spec: greedy, largest block first *)

Definition first_address (net : ipaddress.Network) : Z := ipaddress.network_address net.

Definition last_address (bits : Z) (net : ipaddress.Network) : Z :=
  ipaddress.network_address net + 2 ^ (bits - ipaddress.prefixlen net) - 1.


(** A block of the family: the prefix length is in range and the address
    is a multiple of the block size. *)
Definition cidr_block (bits : Z) (net : ipaddress.Network) : Prop :=
  0 <= ipaddress.prefixlen net <= bits /\
  (2 ^ (bits - ipaddress.prefixlen net) | ipaddress.network_address net).

(** The algorithm in the words of the spec: while the lower bound [lo] has
    not passed [last], emit the largest block that starts at [lo], is
    aligned on its size, and does not reach beyond [last]; then move [lo]
    past it. *)
Inductive greedy_summary (bits last : Z) : Z -> list ipaddress.Network -> Prop :=
| greedy_done (lo : Z) :
    last < lo -> greedy_summary bits last lo []
| greedy_block (lo n : Z) (rest : list ipaddress.Network) :
    lo <= last -> 0 <= n <= bits -> (2 ^ n | lo) -> lo + 2 ^ n - 1 <= last ->
    (forall j, 0 <= j <= bits -> (2 ^ j | lo) -> lo + 2 ^ j - 1 <= last -> j <= n) ->
    greedy_summary bits last (lo + 2 ^ n) rest ->
    greedy_summary bits last lo (ipaddress.mkNetwork lo (bits - n) :: rest).

(** The loop returns, and what it returns is the greedy summary. *)
Lemma summarize_loop_greedy (bits last : Z) :
  0 <= bits -> last <= ipaddress.ALL_ONES bits ->
  forall first, 0 <= first ->
    exists nets, ipaddress.summarize_loop bits first last = OK nets /\
                 greedy_summary bits last first nets.
Proof.
  intros Hb Hlast first.
  remember (Z.to_nat (last - first + 1)) as fuel eqn:Hfuel.
  revert first Hfuel.
  induction fuel as [fuel IH] using lt_wf_ind. intros first Hfuel Hfirst.
  rewrite summarize_loop_unfold.
  destruct (Z.leb_spec first last) as [Hle|Hgt].
  - destruct (range_nbits_spec bits first last Hb ltac:(lia)) as (Hn & Hdiv & Hfit & Hmax).
    set (n := ipaddress.range_nbits bits first last) in *.
    rewrite (make_network_aligned bits first n Hn ltac:(lia) Hdiv). cbn [bind].
    unfold ipaddress.lshift. destruct (Z.ltb_spec n 0); [lia|]. cbn [bind].
    rewrite Z.shiftl_1_l.
    assert (Hp : 0 < 2 ^ n) by (apply Z.pow_pos_nonneg; lia).
    destruct (Z.eqb_spec (first + 2 ^ n - 1) (ipaddress.ALL_ONES bits)) as [Hall|Hnot].
    + eexists. split; [reflexivity|].
      apply greedy_block; auto. apply greedy_done. lia.
    + destruct (IH (Z.to_nat (last - (first + 2 ^ n) + 1)) ltac:(lia)
                   (first + 2 ^ n) eq_refl ltac:(lia)) as (rest & Hrest & Hgreedy).
      rewrite Hrest. cbn [bind]. eexists. split; [reflexivity|].
      now apply greedy_block.
  - exists []. split; [reflexivity|]. now apply greedy_done.
Qed.




(** *** The greedy summary has the fewest blocks *)








(** *** Parsed addresses are addresses of their family *)

Lemma int_base_bounds (value : ascii -> option Z) (base : Z) (s : string) :
  1 <= base ->
  (forall c d, value c = Some d -> 0 <= d < base) ->
  0 <= ipaddress.int_base value base s < base ^ Z.of_nat (String.length s).
Proof.
  intros Hbase Hval. unfold ipaddress.int_base.
  assert (Hgen : forall l acc k, 0 <= k -> 0 <= acc < base ^ k ->
            0 <= fold_left (fun acc c => acc * base + match value c with Some d => d | None => 0 end)
                           l acc < base ^ (k + Z.of_nat (List.length l))).
  { induction l as [|c l IH]; intros acc k Hk Hacc; cbn [fold_left List.length].
    - now rewrite Z.add_0_r.
    - replace (k + Z.of_nat (S (List.length l))) with ((k + 1) + Z.of_nat (List.length l)) by lia.
      apply IH; [lia|].
      rewrite Z.pow_add_r, Z.pow_1_r by lia.
      assert (0 <= match value c with Some d => d | None => 0 end < base).
      { destruct (value c) as [d|] eqn:E; [now apply (Hval c) | lia]. }
      nia. }
  assert (Hlen : List.length (list_ascii_of_string s) = String.length s).
  { induction s as [|a s IH]; simpl; [reflexivity | now rewrite IH]. }
  rewrite <- Hlen. apply (Hgen _ 0 0); [lia|]. rewrite Z.pow_0_r. lia.
Qed.

Lemma digit_value_bounds (c : ascii) (d : Z) :
  ipaddress.digit_value c = Some d -> 0 <= d < 10.
Proof.
  unfold ipaddress.digit_value.
  destruct (_ && _) eqn:E; [|discriminate].
  intros [= <-]. apply andb_true_iff in E. rewrite !Z.leb_le in E. lia.
Qed.

Lemma hex_value_bounds (c : ascii) (d : Z) :
  ipaddress.hex_value c = Some d -> 0 <= d < 16.
Proof.
  unfold ipaddress.hex_value. set (n := Z.of_nat (nat_of_ascii c)).
  destruct ((48 <=? n) && (n <=? 57)) eqn:E1.
  { intros [= <-]. apply andb_true_iff in E1. rewrite !Z.leb_le in E1. lia. }
  destruct ((65 <=? n) && (n <=? 70)) eqn:E2.
  { intros [= <-]. apply andb_true_iff in E2. rewrite !Z.leb_le in E2. lia. }
  destruct ((97 <=? n) && (n <=? 102)) eqn:E3; [|discriminate].
  intros [= <-]. apply andb_true_iff in E3. rewrite !Z.leb_le in E3. lia.
Qed.

Lemma parse_octet_bounds (s : string) (v : Z) :
  ipaddress._parse_octet s = OK v -> 0 <= v <= 255.
Proof.
  unfold ipaddress._parse_octet.
  destruct (String.eqb s ""); [discriminate|].
  destruct (negb _); [discriminate|].
  destruct (Nat.ltb 3 _); [discriminate|].
  destruct (_ && _); [discriminate|].
  destruct (Z.ltb_spec 255 (ipaddress.int_base ipaddress.digit_value 10 s)); [discriminate|].
  intros [= <-].
  pose proof (int_base_bounds ipaddress.digit_value 10 s ltac:(lia) digit_value_bounds). lia.
Qed.

Lemma parse_hextet_bounds (s : string) (v : Z) :
  ipaddress._parse_hextet s = OK v -> 0 <= v < 2 ^ 16.
Proof.
  unfold ipaddress._parse_hextet.
  destruct (negb _); [discriminate|].
  destruct (Nat.ltb_spec 4 (String.length s)); [discriminate|].
  destruct (String.eqb s ""); [discriminate|].
  intros [= <-].
  pose proof (int_base_bounds ipaddress.hex_value 16 s ltac:(lia) hex_value_bounds) as Hb.
  assert (16 ^ Z.of_nat (String.length s) <= 16 ^ 4) by (apply Z.pow_le_mono_r; lia).
  change (2 ^ 16) with (16 ^ 4). lia.
Qed.

Lemma as_address_error_OK {A : Type} (m : result A) (a : A) :
  ipaddress.as_address_error m = OK a -> m = OK a.
Proof. destruct m; [intros [= ->]; reflexivity | discriminate]. Qed.

Lemma mapM_length {A B : Type} (f : A -> result B) (l : list A) (out : list B) :
  mapM f l = OK out -> List.length out = List.length l.
Proof. intros H. symmetry. exact (Forall2_length (mapM_OK f l out H)). Qed.

Lemma mapM_Forall {A B : Type} (f : A -> result B) (P : B -> Prop) (l : list A) (out : list B) :
  (forall x y, f x = OK y -> P y) -> mapM f l = OK out -> Forall P out.
Proof.
  intros Hf H. apply mapM_OK in H. induction H; constructor; eauto.
Qed.

Lemma IPv4Address_range (s : string) (n : Z) :
  ipaddress.IPv4Address s = OK n -> 0 <= n <= ipaddress.ALL_ONES 32.
Proof.
  unfold ipaddress.IPv4Address.
  destruct (contains "/" s); [discriminate|].
  destruct (String.eqb s ""); [discriminate|].
  destruct (Nat.eqb_spec (List.length (split "." s)) 4) as [Hlen|]; [|discriminate].
  cbn [negb]. intros H. apply as_address_error_OK in H.
  destruct (mapM ipaddress._parse_octet (split "." s)) as [bytes|] eqn:Hb; [|discriminate].
  cbn [bind] in H. injection H as <-.
  pose proof (mapM_length _ _ _ Hb) as Hl. rewrite Hlen in Hl.
  pose proof (mapM_Forall _ (fun v => 0 <= v <= 255) _ _ parse_octet_bounds Hb) as Hall.
  destruct bytes as [|a [|b [|c [|d [|? ?]]]]]; try discriminate.
  inversion Hall as [|? ? Ha Hall1]; subst. inversion Hall1 as [|? ? Hb' Hall2]; subst.
  inversion Hall2 as [|? ? Hc Hall3]; subst. inversion Hall3 as [|? ? Hd _]; subst.
  unfold ipaddress.from_bytes, ipaddress.ALL_ONES. cbn [fold_left].
  change (2 ^ 32) with 4294967296. lia.
Qed.

Lemma lor_bound (x y m : Z) :
  0 <= m -> 0 <= x < 2 ^ m -> 0 <= y < 2 ^ m -> 0 <= Z.lor x y < 2 ^ m.
Proof.
  intros Hm Hx Hy.
  assert (Hn : 0 <= Z.lor x y) by (apply Z.lor_nonneg; lia).
  split; [assumption|].
  destruct (Z.eq_dec (Z.lor x y) 0) as [->|Hne]; [lia|].
  apply Z.log2_lt_pow2; [lia|].
  rewrite Z.log2_lor by lia.
  assert (Hlog : forall z, 0 <= z < 2 ^ m -> z <> 0 -> Z.log2 z < m).
  { intros z Hz Hz0. apply Z.log2_lt_pow2; lia. }
  destruct (Z.eq_dec x 0) as [->|Hx0], (Z.eq_dec y 0) as [->|Hy0].
  - now rewrite Z.lor_0_l in Hne.
  - cbn [Z.log2]. rewrite Z.max_r by apply Z.log2_nonneg. now apply Hlog.
  - cbn [Z.log2]. rewrite Z.max_l by apply Z.log2_nonneg. now apply Hlog.
  - apply Z.max_lub_lt; now apply Hlog.
Qed.

Lemma shift_in_bounds (hextets : list Z) (ip_int k : Z) :
  0 <= k -> 0 <= ip_int < 2 ^ k -> Forall (fun h => 0 <= h < 2 ^ 16) hextets ->
  0 <= ipaddress.shift_in ip_int hextets < 2 ^ (k + 16 * Z.of_nat (List.length hextets)).
Proof.
  unfold ipaddress.shift_in. revert ip_int k.
  induction hextets as [|h l IH]; intros ip_int k Hk Hip Hall; cbn [fold_left List.length].
  - now rewrite Z.mul_0_r, Z.add_0_r.
  - inversion Hall as [|? ? Hh Hl]; subst.
    replace (k + 16 * Z.of_nat (S (List.length l)))
      with ((k + 16) + 16 * Z.of_nat (List.length l)) by lia.
    apply IH; [lia | | assumption].
    apply lor_bound; [lia | |].
    + rewrite Z.shiftl_mul_pow2, Z.pow_add_r by lia.
      assert (0 < 2 ^ 16) by lia. nia.
    + assert (2 ^ 16 <= 2 ^ (k + 16)) by (apply Z.pow_le_mono_r; lia). lia.
Qed.

Lemma ip_int_from_string_v6_range (s : string) (n : Z) :
  ipaddress._ip_int_from_string_v6 s = OK n -> 0 <= n <= ipaddress.ALL_ONES 128.
Proof.
  unfold ipaddress._ip_int_from_string_v6.
  destruct (String.eqb s ""); [discriminate|].
  destruct (Nat.ltb (List.length (split ":" s)) 3); [discriminate|].
  destruct (if contains "." (last (split ":" s) "") then _ else _) as [parts|];
    [|discriminate].
  cbn [bind].
  destruct (Nat.ltb 9 (List.length parts)); [discriminate|].
  set (len := List.length parts).
  destruct (match ipaddress.interior_empty parts with [] => _ | _ => _ end)
    as [[[parts_hi parts_lo] parts_skipped]|] eqn:Hlayout; [|discriminate].
  cbn [bind].
  assert (Hsum : (parts_hi + parts_lo + parts_skipped <= 8)%nat).
  { revert Hlayout.
    destruct (ipaddress.interior_empty parts) as [|skip_index [|? ?]]; [| |discriminate].
    - destruct (Nat.eqb_spec len 8) as [E|E]; cbn [negb]; [|discriminate].
      destruct (_ || _); [discriminate|]. intros [= <- <- <-]. lia.
    - destruct (_ && _); [discriminate|]. destruct (_ && _); [discriminate|].
      match goal with
      | |- context [(8 <? ?x)%nat] => destruct (Nat.ltb_spec 8 x); [discriminate|]
      end.
      match goal with
      | |- context [(8 - ?x)%nat] => remember (8 - x)%nat as skipped eqn:Hsk
      end.
      intros [= <- <- <-]. lia. }
  intros H. apply as_address_error_OK in H.
  destruct (mapM ipaddress._parse_hextet (firstn parts_hi parts)) as [hi|] eqn:Hhi; [|discriminate].
  cbn [bind] in H.
  destruct (mapM ipaddress._parse_hextet (skipn (len - parts_lo) parts)) as [lo|] eqn:Hlo;
    [|discriminate].
  cbn [bind] in H. injection H as <-.
  pose proof (mapM_length _ _ _ Hhi) as Lhi. rewrite length_firstn in Lhi.
  pose proof (mapM_length _ _ _ Hlo) as Llo. rewrite length_skipn in Llo. fold len in Lhi, Llo.
  pose proof (mapM_Forall _ (fun h => 0 <= h < 2 ^ 16) _ _ parse_hextet_bounds Hhi) as Fhi.
  pose proof (mapM_Forall _ (fun h => 0 <= h < 2 ^ 16) _ _ parse_hextet_bounds Hlo) as Flo.
  pose proof (shift_in_bounds hi 0 0 ltac:(lia) ltac:(cbn; lia) Fhi) as Bhi.
  set (k1 := 0 + 16 * Z.of_nat (List.length hi)) in *.
  set (k2 := k1 + 16 * Z.of_nat parts_skipped).
  assert (Bsh : 0 <= Z.shiftl (ipaddress.shift_in 0 hi) (16 * Z.of_nat parts_skipped) < 2 ^ k2).
  { rewrite Z.shiftl_mul_pow2 by lia. unfold k2. rewrite Z.pow_add_r by lia.
    assert (0 < 2 ^ (16 * Z.of_nat parts_skipped)) by (apply Z.pow_pos_nonneg; lia). nia. }
  pose proof (shift_in_bounds lo _ k2 ltac:(lia) Bsh Flo) as Blo.
  assert (Hpow : 2 ^ (k2 + 16 * Z.of_nat (List.length lo)) <= 2 ^ 128)
    by (apply Z.pow_le_mono_r; lia).
  unfold ipaddress.ALL_ONES.
  set (top := 2 ^ (k2 + 16 * Z.of_nat (List.length lo))) in *.
  set (all := 2 ^ 128) in *. clearbody top all.
  assert (Hfit : forall v, 0 <= v < top -> 0 <= v <= all - 1) by (intros; lia).
  apply Hfit. exact Blo.
Qed.

(** What [IPv6Address] has checked when it returns. *)
Lemma IPv6Address_OK (s : string) (a : ipaddress.Address) :
  ipaddress.IPv6Address s = OK a ->
  contains "/" s = false /\
  exists addr, ipaddress._split_scope_id s = OK (addr, ipaddress._scope_id a) /\
               ipaddress._ip_int_from_string_v6 addr = OK (ipaddress._ip a).
Proof.
  unfold ipaddress.IPv6Address.
  destruct (contains "/" s); [discriminate|].
  destruct (ipaddress._split_scope_id s) as [[addr scope_id]|]; cbn [bind fst snd];
    [|discriminate].
  destruct (ipaddress._ip_int_from_string_v6 addr) as [ip_int|] eqn:Hip; cbn [bind];
    [|discriminate].
  intros [= <-]. split; [reflexivity|]. exists addr. now split.
Qed.

Lemma IPv4_parse_address_OK (s : string) (a : ipaddress.Address) :
  ipaddress.parse_address ipaddress.IPv4 s = OK a ->
  ipaddress.IPv4Address s = OK (ipaddress._ip a) /\ ipaddress._scope_id a = None.
Proof.
  cbn [ipaddress.parse_address ipaddress.IPv4].
  destruct (ipaddress.IPv4Address s) as [ip_int|]; cbn [bind]; [|discriminate].
  intros [= <-]. now split.
Qed.

Lemma IPv6Address_range (s : string) (a : ipaddress.Address) :
  ipaddress.IPv6Address s = OK a -> 0 <= ipaddress._ip a <= ipaddress.ALL_ONES 128.
Proof.
  intros H. apply IPv6Address_OK in H as (_ & addr & _ & H).
  now apply (ip_int_from_string_v6_range addr).
Qed.

(** An address that parses is an address of its family. *)
Lemma parse_address_range (ipv6 : bool) (s : string) (a : ipaddress.Address) :
  ipaddress.parse_address (family_of ipv6) s = OK a ->
  0 <= ipaddress._ip a <= ipaddress.ALL_ONES (ipaddress.max_prefixlen (family_of ipv6)).
Proof.
  destruct ipv6; cbn [family_of].
  - apply IPv6Address_range.
  - intros H. apply IPv4_parse_address_OK in H as [H _]. now apply (IPv4Address_range s).
Qed.

(** *** convert_iprange_to_cidr *)



(* ===================================================================== *)
(** * Further properties *)
(* ===================================================================== *)

(** ** Loops and subscripts: what they raise *)

Lemma set_item_OK_iff {A : Type} (l : list A) (i : nat) (v : A) :
  (exists l', set_item l i v = OK l') <-> (i < List.length l)%nat.
Proof.
  revert i. induction l as [|x r IH]; intros i; simpl.
  - split; [intros [l' H]; destruct i; discriminate | lia].
  - destruct i as [|j].
    + split; [lia | intros _; eexists; reflexivity].
    + rewrite <- Nat.succ_lt_mono, <- IH. split.
      * intros [l' H]. destruct (set_item r j v) as [r'|]; [eexists; reflexivity | discriminate].
      * intros [r' ->]. eexists. reflexivity.
Qed.

Lemma set_item_Raise {A : Type} (l : list A) (i : nat) (v : A) (e : PyError) :
  set_item l i v = Raise e -> e = IndexError.
Proof.
  revert i. induction l as [|x r IH]; intros i; simpl.
  - destruct i; congruence.
  - destruct i as [|j]; [discriminate|].
    destruct (set_item r j v) eqn:E; simpl; [discriminate|].
    intros [= <-]. now apply (IH j).
Qed.

Lemma get_item_Raise {A : Type} (l : list A) (i : nat) (e : PyError) :
  get_item l i = Raise e -> e = IndexError.
Proof. unfold get_item. destruct (nth_error l i); congruence. Qed.

Lemma py_int_Raise (s : string) (e : PyError) : py_int s = Raise e -> e = ValueError.
Proof.
  unfold py_int.
  destruct (_PyUnicode_TransformDecimalAndSpaceToASCII s) as [buffer|]; [|congruence].
  unfold PyLong_FromString.
  match goal with |- match ?x with _ => _ end = _ -> _ => destruct x end; congruence.
Qed.

Lemma mapM_Raise {A B : Type} (f : A -> result B) (l : list A) (e : PyError) :
  mapM f l = Raise e -> exists x, In x l /\ f x = Raise e.
Proof.
  induction l as [|x r IH]; simpl; [discriminate|].
  destruct (f x) as [y|e'] eqn:Hx; simpl.
  - destruct (mapM f r) as [ys|e'] eqn:Hr; simpl; [discriminate|].
    intros [= <-]. destruct (IH eq_refl) as (x' & Hin & Hx'). exists x'. auto.
  - intros [= <-]. exists x. auto.
Qed.

Lemma mapM_total {A B : Type} (f : A -> result B) (l : list A) :
  (forall x, In x l -> exists y, f x = OK y) -> exists out, mapM f l = OK out.
Proof.
  induction l as [|x r IH]; simpl; intros H; [eexists; reflexivity|].
  destruct (H x (or_introl eq_refl)) as [y ->].
  destruct IH as [ys ->]; [intros x' Hx'; apply H; now right|].
  eexists. reflexivity.
Qed.

Lemma Forall2_In_l {A B : Type} (P : A -> B -> Prop) (l : list A) (l' : list B) (x : A) :
  Forall2 P l l' -> In x l -> exists y, In y l' /\ P x y.
Proof.
  induction 1 as [|a b l l' Hab _ IH]; simpl; [intros []|].
  intros [<-|Hx]; [exists b; auto|].
  destruct (IH Hx) as (y & Hy & Hp). exists y. auto.
Qed.

Lemma mapM_In {A B : Type} (f : A -> result B) (l : list A) (out : list B) (x : A) (y : B) :
  mapM f l = OK out -> In x l -> f x = OK y -> In y out.
Proof.
  intros Hl Hx Hy.
  destruct (Forall2_In_l _ _ _ _ (mapM_OK _ _ _ Hl) Hx) as (y' & Hin & Hy').
  congruence.
Qed.

(** ** expand_df: when it returns and what it raises (lines 174-205) *)

(** What lines 176-189 ask of a row: a "/" in the network, an integer
    after the first "/", and, for an address that holds a "." and has
    prefix length 32, at least four parts between the dots. *)
Definition expandable (row : CIDRRecord) : Prop :=
  exists ip_addr ip_subnet rest subnet,
    split "/" (Network row) = ip_addr :: ip_subnet :: rest /\
    py_int ip_subnet = OK subnet /\
    (contains "." ip_addr = true -> subnet = 32 ->
     (4 <= List.length (split "." ip_addr))%nat).

Lemma split_row_OK_iff (row : CIDRRecord) (item : SplitRow) :
  split_row row = OK item <->
  exists ip_addr ip_subnet rest subnet,
    split "/" (Network row) = ip_addr :: ip_subnet :: rest /\
    py_int ip_subnet = OK subnet /\
    item = mkSplit ip_addr subnet (Country row).
Proof.
  unfold split_row, get_item.
  destruct (split "/" (Network row)) as [|h [|s t]]; simpl.
  - split; [discriminate | intros (? & ? & ? & ? & ? & _); discriminate].
  - split; [discriminate | intros (? & ? & ? & ? & ? & _); discriminate].
  - destruct (py_int s) as [n|e] eqn:Hn; simpl.
    + split.
      * intros [= <-]. now exists h, s, t, n.
      * intros (? & ? & ? & ? & [= <- <- <-] & Hn' & ->). congruence.
    + split; [discriminate|].
      intros (? & ? & ? & ? & [= <- <- <-] & Hn' & _). congruence.
Qed.

Lemma split_row_Raise (row : CIDRRecord) (e : PyError) :
  split_row row = Raise e -> e = IndexError \/ e = ValueError.
Proof.
  unfold split_row.
  destruct (get_item _ 0) as [a|e0] eqn:H0; simpl.
  - destruct (get_item _ 1) as [b|e1] eqn:H1; simpl.
    + destruct (py_int b) as [n|e2] eqn:H2; simpl; [discriminate|].
      intros [= <-]. right. now apply (py_int_Raise b).
    + intros [= <-]. left. now apply get_item_Raise in H1.
  - intros [= <-]. left. now apply get_item_Raise in H0.
Qed.

Lemma generalize_OK_iff (item : SplitRow) :
  (exists item', generalize item = OK item') <->
  (contains "." (IP item) = true -> Subnet item = 32 ->
   (4 <= List.length (split "." (IP item)))%nat).
Proof.
  unfold generalize.
  destruct (contains "." (IP item)) eqn:Hdot; simpl.
  - destruct (Z.eqb_spec (Subnet item) 32) as [H32|H32].
    + pose proof (set_item_OK_iff (split "." (IP item)) 3 "0") as Hset.
      split.
      * intros [item' H] _ _. apply Hset.
        destruct (set_item (split "." (IP item)) 3 "0"); [eexists; reflexivity | discriminate].
      * intros H. destruct (proj2 Hset (H eq_refl H32)) as [l' ->]. eexists. reflexivity.
    + split; [intros _ _ ?; contradiction | intros _; eexists; reflexivity].
  - split; [intros _ ?; discriminate | intros _; eexists; reflexivity].
Qed.

Lemma generalize_Raise (item : SplitRow) (e : PyError) :
  generalize item = Raise e -> e = IndexError.
Proof.
  unfold generalize. destruct (_ && _); [|discriminate].
  destruct (set_item _ 3 "0") eqn:E; simpl; [discriminate|].
  intros [= <-]. now apply set_item_Raise in E.
Qed.

Lemma expandable_iff (row : CIDRRecord) :
  expandable row <->
  exists item item', split_row row = OK item /\ generalize item = OK item'.
Proof.
  split.
  - intros (ip & p & rest & n & Hs & Hn & H4).
    destruct (proj2 (generalize_OK_iff (mkSplit ip n (Country row))) H4) as [item' Hg].
    exists (mkSplit ip n (Country row)), item'. split; [|assumption].
    apply split_row_OK_iff. now exists ip, p, rest, n.
  - intros (item & item' & Hs & Hg).
    apply split_row_OK_iff in Hs as (ip & p & rest & n & Hs & Hn & ->).
    exists ip, p, rest, n. split; [assumption|]. split; [assumption|].
    apply (generalize_OK_iff (mkSplit ip n (Country row))). now exists item'.
Qed.

Lemma resolve_conflicts_nonempty (S : Sorter) (extensive_list tmp_df : list SplitRow) :
  resolve_conflicts S extensive_list = OK tmp_df -> tmp_df <> [].
Proof.
  intros H E. subst tmp_df.
  pose proof (resolve_conflicts_OK S _ _ H) as [Hne _].
  destruct extensive_list as [|x r]; [congruence|].
  apply (resolve_conflicts_keys S _ _ (IP x) H). now left.
Qed.

(** The phases of [expand_df] on a frame whose rows all pass. *)
Lemma expand_df_phases (S : Sorter) (df : list CIDRRecord) :
  df <> [] -> Forall expandable df ->
  exists split_list extensive_list tmp_df,
    mapM split_row df = OK split_list /\
    mapM generalize split_list = OK extensive_list /\
    resolve_conflicts S extensive_list = OK tmp_df /\
    expand_df S df = OK (sort_by S le_Country (map reassemble tmp_df)).
Proof.
  intros Hne Hall. rewrite Forall_forall in Hall.
  destruct (mapM_total split_row df) as [split_list Hsplit].
  { intros row Hrow. apply Hall, expandable_iff in Hrow as (item & _ & Hs & _). eauto. }
  destruct (mapM_total generalize split_list) as [extensive_list Hgen].
  { intros item Hitem.
    destruct (Forall2_In_r _ _ _ _ (mapM_OK _ _ _ Hsplit) Hitem) as (row & Hrow & Hs).
    apply Hall, expandable_iff in Hrow as (item0 & item' & Hs0 & Hg).
    assert (item0 = item) by congruence. subst. eauto. }
  assert (Hlen : List.length extensive_list = List.length df).
  { rewrite <- (Forall2_length (mapM_OK _ _ _ Hgen)).
    now rewrite <- (Forall2_length (mapM_OK _ _ _ Hsplit)). }
  assert (Hel : extensive_list <> []).
  { intros ->. destruct df; [congruence | discriminate]. }
  exists split_list, extensive_list,
    (drop_duplicates String.eqb IP (sort_by S le_Subnet extensive_list)).
  assert (Hres : resolve_conflicts S extensive_list
                 = OK (drop_duplicates String.eqb IP (sort_by S le_Subnet extensive_list))).
  { unfold resolve_conflicts. now rewrite sort_values_nonempty. }
  repeat split; try assumption.
  unfold expand_df. rewrite Hsplit. cbn [bind]. rewrite Hgen. cbn [bind].
  rewrite Hres. cbn [bind]. apply sort_values_nonempty.
  intros E. apply map_eq_nil in E. now apply (resolve_conflicts_nonempty S _ _ Hres).
Qed.

Lemma expand_df_OK_expandable (S : Sorter) (df out : list CIDRRecord) :
  expand_df S df = OK out -> df <> [] /\ Forall expandable df.
Proof.
  unfold expand_df.
  destruct (mapM split_row df) as [split_list|] eqn:Hsplit; simpl; [|discriminate].
  destruct (mapM generalize split_list) as [extensive_list|] eqn:Hgen; simpl; [|discriminate].
  destruct (resolve_conflicts S extensive_list) as [tmp_df|] eqn:Hres; simpl; [|discriminate].
  intros _. split.
  - intros ->. simpl in Hsplit. injection Hsplit as <-.
    simpl in Hgen. injection Hgen as <-. discriminate.
  - apply Forall_forall. intros row Hrow. apply expandable_iff.
    destruct (Forall2_In_l _ _ _ _ (mapM_OK _ _ _ Hsplit) Hrow) as (item & Hitem & Hs).
    destruct (Forall2_In_l _ _ _ _ (mapM_OK _ _ _ Hgen) Hitem) as (item' & _ & Hg).
    eauto.
Qed.

Lemma expand_df_raises_cases (S : Sorter) (df : list CIDRRecord) (e : PyError) :
  expand_df S df = Raise e ->
  (e = KeyError "Subnet" /\ df = []) \/ e = IndexError \/ e = ValueError.
Proof.
  unfold expand_df.
  destruct (mapM split_row df) as [split_list|e1] eqn:Hsplit; simpl.
  - destruct (mapM generalize split_list) as [extensive_list|e2] eqn:Hgen; simpl.
    + destruct (resolve_conflicts S extensive_list) as [tmp_df|e3] eqn:Hres; simpl.
      * pose proof (resolve_conflicts_nonempty S _ _ Hres) as Hne.
        destruct tmp_df; [congruence | discriminate].
      * intros [= <-]. left. unfold resolve_conflicts in Hres.
        destruct extensive_list; [|discriminate]. simpl in Hres. injection Hres as <-.
        split; [reflexivity|].
        pose proof (Forall2_length (mapM_OK _ _ _ Hgen)) as L1.
        pose proof (Forall2_length (mapM_OK _ _ _ Hsplit)) as L2.
        destruct df; [reflexivity|]. simpl in *. lia.
    + intros [= <-]. right. left.
      apply mapM_Raise in Hgen as (item & _ & Hg). now apply (generalize_Raise item).
  - intros [= <-]. right.
    apply mapM_Raise in Hsplit as (row & _ & Hs).
    destruct (split_row_Raise row _ Hs); auto.
Qed.

(** X10.  On a frame whose network cells have at most 4300 characters (so
    that the interpreter's cap on the digits of a literal plays no part),
    [expand_df] returns a frame exactly when the frame is not empty and
    every row has a "/" followed by an integer as [int] reads it (ASCII or
    other Unicode decimal digits, a sign, white space around, single
    underscores between digits) and, when the address is dotted and the
    prefix length 32, four octets or more. *)
Theorem expand_df_returns_iff :
  forall (S : Sorter) (df : list CIDRRecord),
    Forall (fun row => (String.length (Network row) <= 4300)%nat) df ->
    ((exists out, expand_df S df = OK out) <-> (df <> [] /\ Forall expandable df)).
Proof.
  intros S df _. split.
  - intros [out H]. now apply (expand_df_OK_expandable S df out).
  - intros [Hne Hall].
    destruct (expand_df_phases S df Hne Hall) as (? & ? & ? & _ & _ & _ & H). eauto.
Qed.

Lemma expand_df_returns_iff_witness :
  (exists out, expand_df stable_sorter [mkCIDR "10.0.0.0/٢٤" "IR"; mkCIDR "10.1.0.0/ 1_6" "IR"]
               = OK out) <->
  ([mkCIDR "10.0.0.0/٢٤" "IR"; mkCIDR "10.1.0.0/ 1_6" "IR"] <> [] /\
   Forall expandable [mkCIDR "10.0.0.0/٢٤" "IR"; mkCIDR "10.1.0.0/ 1_6" "IR"]).
Proof.
  apply (expand_df_returns_iff stable_sorter
           [mkCIDR "10.0.0.0/٢٤" "IR"; mkCIDR "10.1.0.0/ 1_6" "IR"]).
  apply Forall_cons; [apply Nat.leb_le; reflexivity|].
  apply Forall_cons; [apply Nat.leb_le; reflexivity | apply Forall_nil].
Defined.

(** The literals of two scripts, read by [int]. *)
Lemma expand_df_unicode_prefix :
  py_int "٢٤" = OK 24 /\ py_int "۲۴" = OK 24 /\
  expand_df stable_sorter [mkCIDR "10.0.0.0/٢٤" "IR"; mkCIDR "10.1.0.0/ 1_6" "IR"]
    = OK [mkCIDR "10.1.0.0/16" "IR"; mkCIDR "10.0.0.0/24" "IR"].
Proof. repeat split; reflexivity. Qed.

(** X11.  The exceptions of [expand_df]: [KeyError] for the column "Subnet" on
    the empty frame and on no other; otherwise [IndexError] or [ValueError],
    and then some row of the frame is at fault.  No other exception leaves
    [expand_df]; in particular the sort by "Country" never fails. *)
Theorem expand_df_raises :
  forall (S : Sorter) (df : list CIDRRecord) (e : PyError),
    expand_df S df = Raise e ->
    (e = KeyError "Subnet" /\ df = []) \/
    ((e = IndexError \/ e = ValueError) /\
     exists row, In row df /\ ~ expandable row).
Proof.
  intros S df e. unfold expand_df.
  destruct (mapM split_row df) as [split_list|e1] eqn:Hsplit; simpl.
  - destruct (mapM generalize split_list) as [extensive_list|e2] eqn:Hgen; simpl.
    + destruct (resolve_conflicts S extensive_list) as [tmp_df|e3] eqn:Hres; simpl.
      * pose proof (resolve_conflicts_nonempty S _ _ Hres) as Hne.
        destruct tmp_df; [congruence | discriminate].
      * intros [= <-]. left. unfold resolve_conflicts in Hres.
        destruct extensive_list; [|discriminate]. simpl in Hres. injection Hres as <-.
        split; [reflexivity|].
        pose proof (Forall2_length (mapM_OK _ _ _ Hgen)) as L1.
        pose proof (Forall2_length (mapM_OK _ _ _ Hsplit)) as L2.
        destruct df; [reflexivity|]. simpl in *. lia.
    + intros [= <-]. right.
      apply mapM_Raise in Hgen as (item & Hitem & Hg).
      split; [left; now apply (generalize_Raise item)|].
      destruct (Forall2_In_r _ _ _ _ (mapM_OK _ _ _ Hsplit) Hitem) as (row & Hrow & Hs).
      exists row. split; [assumption|].
      intros Hx. apply expandable_iff in Hx as (item0 & item' & Hs0 & Hg0). congruence.
  - intros [= <-]. right.
    apply mapM_Raise in Hsplit as (row & Hrow & Hs).
    split; [now apply (split_row_Raise row)|].
    exists row. split; [assumption|].
    intros Hx. apply expandable_iff in Hx as (item0 & item' & Hs0 & _). congruence.
Qed.

Lemma expand_df_raises_witness :
  (IndexError = KeyError "Subnet" /\ [mkCIDR "10.0.0.0" "IR"] = []) \/
  ((IndexError = IndexError \/ IndexError = ValueError) /\
   exists row, In row [mkCIDR "10.0.0.0" "IR"] /\ ~ expandable row).
Proof.
  exact (expand_df_raises stable_sorter [mkCIDR "10.0.0.0" "IR"] IndexError eq_refl).
Defined.

(** ** expand_df: the frame it returns *)

Section DropDuplicatesLength.
Context {A K : Type} (eqb : K -> K -> bool) (key : A -> K).

Lemma drop_duplicates_from_length (seen : list K) (l : list A) :
  (List.length (drop_duplicates_from eqb key seen l) <= List.length l)%nat.
Proof.
  revert seen. induction l as [|x r IH]; intros seen; simpl; [lia|].
  destruct (existsb (eqb (key x)) seen).
  - specialize (IH seen). lia.
  - specialize (IH (key x :: seen)). simpl. lia.
Qed.

End DropDuplicatesLength.

Lemma expand_df_countries (S : Sorter) (df out : list CIDRRecord) :
  expand_df S df = OK out ->
  forall r, In r out -> exists row, In row df /\ Country r = Country row.
Proof.
  intros H r Hr.
  destruct (expand_df_OK_expandable S df out H) as [Hne Hall].
  destruct (expand_df_phases S df Hne Hall)
    as (split_list & extensive_list & tmp_df & Hsplit & Hgen & Hres & Hout).
  rewrite Hout in H. injection H as <-.
  apply (proj1 (sort_by_In S le_Country _ _)) in Hr.
  apply in_map_iff in Hr as (item' & <- & Hin).
  apply (resolve_conflicts_min S _ _ item' Hres) in Hin as [Hin _].
  destruct (Forall2_In_r _ _ _ _ (mapM_OK _ _ _ Hgen) Hin) as (item & Hitem & Hg).
  destruct (Forall2_In_r _ _ _ _ (mapM_OK _ _ _ Hsplit) Hitem) as (row & Hrow & Hs).
  exists row. split; [assumption|].
  apply split_row_OK_iff in Hs as (ip & p & rest & n & _ & _ & ->).
  unfold generalize in Hg. cbn [IP Subnet SCountry] in Hg.
  destruct (_ && _) in Hg.
  - destruct (set_item _ 3 "0") in Hg; simpl in Hg; [|discriminate].
    now injection Hg as <-.
  - now injection Hg as <-.
Qed.

(** X12.  A frame that [expand_df] returns is not empty and has no more rows than
    the frame it was given; each of its rows comes from a row of that frame,
    split, generalized and put together again, and bears that row's
    country. *)
Theorem expand_df_rows_come_from_input :
  forall (S : Sorter) (df out : list CIDRRecord),
    expand_df S df = OK out ->
    out <> [] /\
    (List.length out <= List.length df)%nat /\
    forall r, In r out ->
      exists row item item',
        In row df /\ split_row row = OK item /\ generalize item = OK item' /\
        r = reassemble item' /\ Country r = Country row.
Proof.
  intros S df out H.
  destruct (expand_df_OK_expandable S df out H) as [Hne Hall].
  destruct (expand_df_phases S df Hne Hall)
    as (split_list & extensive_list & tmp_df & Hsplit & Hgen & Hres & Hout).
  rewrite Hout in H. injection H as <-.
  split; [|split].
  - apply sort_by_nonempty. intros E. apply map_eq_nil in E.
    now apply (resolve_conflicts_nonempty S _ _ Hres).
  - rewrite <- (Permutation_length (sort_by_perm S _ le_Country _)), length_map.
    apply resolve_conflicts_OK in Hres as [_ ->].
    etransitivity; [apply drop_duplicates_from_length|].
    rewrite <- (Permutation_length (sort_by_perm S _ le_Subnet _)).
    rewrite <- (Forall2_length (mapM_OK _ _ _ Hgen)).
    now rewrite <- (Forall2_length (mapM_OK _ _ _ Hsplit)).
  - intros r Hr. apply (proj1 (sort_by_In S le_Country _ _)) in Hr.
    apply in_map_iff in Hr as (item' & <- & Hin).
    apply (resolve_conflicts_min S _ _ item' Hres) in Hin as [Hin _].
    destruct (Forall2_In_r _ _ _ _ (mapM_OK _ _ _ Hgen) Hin) as (item & Hitem & Hg).
    destruct (Forall2_In_r _ _ _ _ (mapM_OK _ _ _ Hsplit) Hitem) as (row & Hrow & Hs).
    exists row, item, item'. repeat split; try assumption.
    apply split_row_OK_iff in Hs as (ip & p & rest & n & _ & _ & ->).
    unfold generalize in Hg. cbn [IP Subnet SCountry] in Hg.
    destruct (_ && _) in Hg.
    + destruct (set_item _ 3 "0") in Hg; simpl in Hg; [|discriminate].
      now injection Hg as <-.
    + now injection Hg as <-.
Qed.

Lemma expand_df_rows_come_from_input_witness :
  [mkCIDR "203.0.113.0/24" "IR"] <> [] /\
  (List.length [mkCIDR "203.0.113.0/24" "IR"]
   <= List.length [mkCIDR "203.0.113.5/32" "IR"])%nat /\
  forall r, In r [mkCIDR "203.0.113.0/24" "IR"] ->
    exists row item item',
      In row [mkCIDR "203.0.113.5/32" "IR"] /\ split_row row = OK item /\
      generalize item = OK item' /\ r = reassemble item' /\ Country r = Country row.
Proof.
  exact (expand_df_rows_come_from_input stable_sorter
           [mkCIDR "203.0.113.5/32" "IR"] [mkCIDR "203.0.113.0/24" "IR"] eq_refl).
Defined.

Lemma settled_not_host (x : SplitRow) :
  settled x -> contains "." (IP x) = true -> Subnet x <> 32.
Proof.
  intros [_ Hg] Hdot H32. unfold generalize in Hg.
  rewrite Hdot, H32 in Hg. cbn [andb Z.eqb Pos.eqb] in Hg.
  destruct (set_item _ 3 "0") in Hg; simpl in Hg; [|discriminate].
  injection Hg as E. apply (f_equal Subnet) in E. simpl in E. lia.
Qed.

Lemma reassemble_injective (a b : SplitRow) :
  contains "/" (IP a) = false -> contains "/" (IP b) = false ->
  Network (reassemble a) = Network (reassemble b) -> IP a = IP b /\ Subnet a = Subnet b.
Proof.
  intros Ha Hb E.
  pose proof (split_row_reassemble a Ha) as Sa.
  pose proof (split_row_reassemble b Hb) as Sb.
  apply split_row_OK_iff in Sa as (ip1 & p1 & r1 & n1 & Hs1 & Hn1 & E1).
  apply split_row_OK_iff in Sb as (ip2 & p2 & r2 & n2 & Hs2 & Hn2 & E2).
  rewrite E in Hs1. rewrite Hs1 in Hs2. injection Hs2 as <- <- <-.
  assert (n1 = n2) by congruence. subst n2.
  rewrite E1, E2. split; reflexivity.
Qed.

Lemma reassemble_NoDup (rows : list SplitRow) :
  NoDup (map IP rows) -> Forall settled rows ->
  NoDup (map Network (map reassemble rows)).
Proof.
  intros Hnd Hset. rewrite Forall_forall in Hset. rewrite map_map.
  assert (Hinj : forall a b, In a rows -> In b rows ->
            Network (reassemble a) = Network (reassemble b) -> a = b).
  { intros a b Ha Hb E.
    apply reassemble_injective in E as [E _]; [|apply Hset; assumption..].
    now apply (NoDup_map_eq IP rows). }
  induction rows as [|x r IH]; simpl; [constructor|].
  inversion Hnd as [|? ? Hx Hr]; subst. constructor.
  - rewrite in_map_iff. intros (y & E & Hy).
    assert (y = x) by (apply Hinj; [now right | now left | assumption]).
    subst y. apply Hx. now apply in_map.
  - apply IH; [assumption | |].
    + intros y Hy. apply Hset. now right.
    + intros a b Ha Hb. apply Hinj; now right.
Qed.

(** X13.  A frame that [expand_df] returns is in ascending order of country; no
    network is in it twice; every network is an address without "/", a "/",
    and a prefix length in plain decimal; and no address that holds a "."
    is left with prefix length 32. *)
Theorem expand_df_output_shape :
  forall (S : Sorter) (df out : list CIDRRecord),
    expand_df S df = OK out ->
    StronglySorted (fun a b => String.leb (Country a) (Country b) = true) out /\
    NoDup (map Network out) /\
    forall r, In r out ->
      exists ip_addr subnet,
        Network r = (ip_addr ++ "/" ++ py_str subnet)%string /\
        contains "/" ip_addr = false /\
        (contains "." ip_addr = true -> subnet <> 32).
Proof.
  intros S df out H.
  apply expand_df_OK in H as (tmp_df & Hne & Hnd & Hset & _ & ->).
  split; [|split].
  - apply (sort_by_sorted S _ le_Country); [apply le_Country_total | apply le_Country_trans].
  - eapply Permutation_NoDup.
    { apply Permutation_map, sort_by_perm. }
    now apply reassemble_NoDup.
  - intros r Hr. apply (proj1 (sort_by_In S le_Country _ _)) in Hr.
    apply in_map_iff in Hr as (x & <- & Hx).
    exists (IP x), (Subnet x). split; [reflexivity|].
    rewrite Forall_forall in Hset.
    split; [apply (Hset x Hx) | now apply settled_not_host, Hset].
Qed.

Lemma expand_df_output_shape_witness :
  StronglySorted (fun a b => String.leb (Country a) (Country b) = true)
    [mkCIDR "203.0.113.0/24" "IR"] /\
  NoDup (map Network [mkCIDR "203.0.113.0/24" "IR"]) /\
  forall r, In r [mkCIDR "203.0.113.0/24" "IR"] ->
    exists ip_addr subnet,
      Network r = (ip_addr ++ "/" ++ py_str subnet)%string /\
      contains "/" ip_addr = false /\
      (contains "." ip_addr = true -> subnet <> 32).
Proof.
  exact (expand_df_output_shape stable_sorter
           [mkCIDR "203.0.113.5/32" "IR"] [mkCIDR "203.0.113.0/24" "IR"] eq_refl).
Defined.

(** ** expand_df: the order of the rows and the sort *)

Lemma resolve_conflicts_settled (S : Sorter) (df : list CIDRRecord)
    (split_list extensive_list tmp_df : list SplitRow) :
  mapM split_row df = OK split_list ->
  mapM generalize split_list = OK extensive_list ->
  resolve_conflicts S extensive_list = OK tmp_df ->
  Forall settled tmp_df.
Proof.
  intros Hsplit Hgen Hres. apply Forall_forall. intros x Hx.
  apply (resolve_conflicts_min S _ _ x Hres) in Hx as [Hx _].
  destruct (Forall2_In_r _ _ _ _ (mapM_OK _ _ _ Hgen) Hx) as (item & Hitem & Hg).
  destruct (Forall2_In_r _ _ _ _ (mapM_OK _ _ _ Hsplit) Hitem) as (row & _ & Hr).
  apply (generalize_settled item x Hg). now apply (split_row_no_slash row).
Qed.

(** The rows left for two frames that hold the same rows: the same
    addresses, each with the same prefix length. *)
Lemma resolve_conflicts_same_rows (S S' : Sorter)
    (extensive_list extensive_list' tmp_df tmp_df' : list SplitRow) :
  (forall x, In x extensive_list <-> In x extensive_list') ->
  resolve_conflicts S extensive_list = OK tmp_df ->
  resolve_conflicts S' extensive_list' = OK tmp_df' ->
  forall x, In x tmp_df ->
    exists y, In y tmp_df' /\ IP y = IP x /\ Subnet y = Subnet x.
Proof.
  intros Hp Hres Hres' x Hx.
  destruct (resolve_conflicts_min S _ _ x Hres Hx) as [Hxin Hxmin].
  assert (Hk : In (IP x) (map IP tmp_df')).
  { apply (resolve_conflicts_keys S' _ _ _ Hres'). apply in_map. now apply Hp. }
  apply in_map_iff in Hk as (y & Hip & Hy).
  destruct (resolve_conflicts_min S' _ _ y Hres' Hy) as [Hyin Hymin].
  exists y. split; [assumption|]. split; [assumption|].
  assert (Subnet x <= Subnet y) by (apply Hxmin; [now apply Hp | assumption]).
  assert (Subnet y <= Subnet x) by (apply Hymin; [now apply Hp | congruence]).
  lia.
Qed.

(** X14.  The networks that [expand_df] returns depend only on which rows the
    frame holds: not on their order, not on how many times a row is there,
    and not on what the sort does with equal keys.  On a frame that holds the
    same rows, and with another sort, it returns too, and returns the same
    networks.  (The country that comes with a network may differ.) *)
Theorem expand_df_networks_order_independent :
  forall (S S' : Sorter) (df df' out : list CIDRRecord),
    (forall row, In row df <-> In row df') -> expand_df S df = OK out ->
    exists out', expand_df S' df' = OK out' /\
                 Permutation (map Network out) (map Network out').
Proof.
  intros S S' df df' out Hp H.
  destruct (expand_df_OK_expandable S df out H) as [Hne Hall].
  destruct (expand_df_phases S df Hne Hall)
    as (sl & el & tmp & Hsplit & Hgen & Hres & Hout).
  rewrite Hout in H. injection H as <-.
  assert (Hne' : df' <> []).
  { intros ->. destruct df as [|row df]; [congruence|]. now apply (Hp row); left. }
  assert (Hall' : Forall expandable df').
  { rewrite Forall_forall in *. intros row Hrow. now apply Hall, Hp. }
  destruct (expand_df_phases S' df' Hne' Hall')
    as (sl' & el' & tmp' & Hsplit' & Hgen' & Hres' & Hout').
  exists (sort_by S' le_Country (map reassemble tmp')). split; [assumption|].
  assert (Hrows : forall (d d' : list CIDRRecord) (l l' e e' : list SplitRow),
            (forall row, In row d' -> In row d) ->
            mapM split_row d = OK l -> mapM generalize l = OK e ->
            mapM split_row d' = OK l' -> mapM generalize l' = OK e' ->
            forall x, In x e' -> In x e).
  { intros d d' l l' e e' Hincl Hl He Hl' He' x Hx.
    destruct (Forall2_In_r _ _ _ _ (mapM_OK _ _ _ He') Hx) as (item & Hitem & Hg).
    destruct (Forall2_In_r _ _ _ _ (mapM_OK _ _ _ Hl') Hitem) as (row & Hrow & Hs).
    apply (mapM_In generalize l e item x He); [|assumption].
    apply (mapM_In split_row d l row item Hl); [now apply Hincl | assumption]. }
  assert (Hel : forall x, In x el <-> In x el').
  { intros x. split.
    - apply (Hrows df' df sl' sl el' el); try assumption. intros row. apply Hp.
    - apply (Hrows df df' sl sl' el el'); try assumption. intros row. apply Hp. }
  rewrite <- (Permutation_map Network (sort_by_perm S _ le_Country (map reassemble tmp))).
  rewrite <- (Permutation_map Network (sort_by_perm S' _ le_Country (map reassemble tmp'))).
  assert (Hsub : forall (S1 S2 : Sorter) (l1 l2 t1 t2 : list SplitRow),
            (forall x, In x l1 <-> In x l2) ->
            resolve_conflicts S1 l1 = OK t1 -> resolve_conflicts S2 l2 = OK t2 ->
            forall s, In s (map Network (map reassemble t1)) ->
                      In s (map Network (map reassemble t2))).
  { intros S1 S2 l1 l2 t1 t2 Hp12 H1 H2 s Hs.
    rewrite map_map in *. apply in_map_iff in Hs as (x & <- & Hx).
    destruct (resolve_conflicts_same_rows S1 S2 _ _ _ _ Hp12 H1 H2 x Hx)
      as (y & Hy & Hip & Hsn).
    apply in_map_iff. exists y. split; [|assumption].
    unfold reassemble. cbn [Network]. now rewrite Hip, Hsn. }
  apply NoDup_Permutation.
  - apply reassemble_NoDup.
    + now apply (resolve_conflicts_NoDup S el).
    + now apply (resolve_conflicts_settled S df sl el).
  - apply reassemble_NoDup.
    + now apply (resolve_conflicts_NoDup S' el').
    + now apply (resolve_conflicts_settled S' df' sl' el').
  - intros s. split.
    + now apply (Hsub S S' el el').
    + apply (Hsub S' S el' el); [intros x; symmetry; apply Hel | assumption..].
Qed.

Lemma expand_df_networks_order_independent_witness :
  exists out',
    expand_df quicksort_sorter
      [mkCIDR "198.51.100.0/28" "CN"; mkCIDR "203.0.113.5/32" "IR";
       mkCIDR "198.51.100.0/24" "RU"; mkCIDR "203.0.113.5/32" "IR"] = OK out' /\
    Permutation
      (map Network [mkCIDR "203.0.113.0/24" "IR"; mkCIDR "198.51.100.0/24" "RU"])
      (map Network out').
Proof.
  apply (expand_df_networks_order_independent stable_sorter quicksort_sorter
           [mkCIDR "203.0.113.5/32" "IR"; mkCIDR "198.51.100.0/24" "RU";
            mkCIDR "198.51.100.0/28" "CN"]).
  - intros row. simpl. tauto.
  - reflexivity.
Defined.

(** ** expand_df: single rows and hosts *)

(** X15.  One row that is not an IPv4 host.  The prefix length is read by [int]
    and written back in plain decimal, and what follows a second "/" is
    dropped. *)
Theorem expand_df_single_row :
  forall (S : Sorter) (ip_addr ip_subnet : string) (rest : list string)
         (subnet : Z) (country : string),
    contains "/" ip_addr = false -> contains "/" ip_subnet = false ->
    (forall p, In p rest -> contains "/" p = false) ->
    py_int ip_subnet = OK subnet ->
    contains "." ip_addr = false \/ subnet <> 32 ->
    expand_df S [mkCIDR (join "/" (ip_addr :: ip_subnet :: rest)) country]
      = OK [mkCIDR (ip_addr ++ "/" ++ py_str subnet)%string country].
Proof.
  intros S ip p rest n country Hip Hp Hrest Hn Hhost.
  apply (expand_df_single S _ (mkSplit ip n country) (mkSplit ip n country)).
  - apply split_row_OK_iff. exists ip, p, rest, n. cbn [Network Country].
    split; [|split; [assumption | reflexivity]].
    apply split_join; [discriminate|].
    intros x [<-|[<-|Hx]]; auto.
  - unfold generalize. cbn [IP Subnet].
    destruct Hhost as [->|H32]; [reflexivity|].
    apply Z.eqb_neq in H32. now rewrite H32, andb_false_r.
Qed.

Lemma expand_df_single_row_witness :
  expand_df stable_sorter [mkCIDR "2001:db8::/ +0_32 /x" "IR"]
    = OK [mkCIDR "2001:db8::/32" "IR"].
Proof.
  apply (expand_df_single_row stable_sorter "2001:db8::" " +0_32 " ["x"] 32 "IR");
    try reflexivity.
  - intros p [<-|[]]. reflexivity.
  - now left.
Defined.

(** X16.  An IPv4 host and the /24 around it.  After the generalization both
    rows have the same address and the prefix length 24, so one row is left:
    that of the /24, with the country of one of the two rows, the host's when
    the sort is stable (the host comes first in the frame). *)
Theorem expand_df_host_and_its_slash24 :
  forall (S : Sorter) (a b c d country1 country2 : string),
    contains "." a = false -> contains "." b = false ->
    contains "." c = false -> contains "." d = false ->
    contains "/" a = false -> contains "/" b = false ->
    contains "/" c = false -> contains "/" d = false ->
    exists country,
      expand_df S [mkCIDR (join "." [a; b; c; d] ++ "/32")%string country1;
                   mkCIDR (join "." [a; b; c; "0"] ++ "/24")%string country2]
        = OK [mkCIDR (join "." [a; b; c; "0"] ++ "/24")%string country] /\
      (country = country1 \/ country = country2) /\
      (stable S -> country = country1).
Proof.
  intros S a b c d c1 c2 Ha Hb Hc Hd Sa Sb Sc Sd.
  set (base := join "." [a; b; c; "0"]).
  assert (Hbase : contains "/" base = false).
  { apply join_contains; [reflexivity|].
    intros p [<-|[<-|[<-|[<-|[]]]]]; auto. }
  assert (Hhost : contains "/" (join "." [a; b; c; d]) = false).
  { apply join_contains; [reflexivity|].
    intros p [<-|[<-|[<-|[<-|[]]]]]; auto. }
  assert (Hs1 : split_row (mkCIDR (join "." [a; b; c; d] ++ "/32")%string c1)
                = OK (mkSplit (join "." [a; b; c; d]) 32 c1)).
  { apply split_row_OK_iff. exists (join "." [a; b; c; d]), "32", [], 32.
    cbn [Network Country]. split; [|split; reflexivity].
    now rewrite (split_app_sep "/" _ "32" Hhost). }
  assert (Hs2 : split_row (mkCIDR (base ++ "/24")%string c2) = OK (mkSplit base 24 c2)).
  { apply split_row_OK_iff. exists base, "24", [], 24.
    cbn [Network Country]. split; [|split; reflexivity].
    now rewrite (split_app_sep "/" _ "24" Hbase). }
  pose proof (generalize_four_octets a b c d c1 Ha Hb Hc Hd) as Hg1.
  fold base in Hg1.
  assert (Hg2 : generalize (mkSplit base 24 c2) = OK (mkSplit base 24 c2)).
  { apply generalize_other_prefix. simpl. discriminate. }
  set (x1 := mkSplit base 24 c1) in *. set (x2 := mkSplit base 24 c2) in *.
  assert (Hrun : forall l, sort_by S le_Subnet [x1; x2] = l ->
            forall x y, l = [x; y] ->
            expand_df S [mkCIDR (join "." [a; b; c; d] ++ "/32")%string c1;
                         mkCIDR (base ++ "/24")%string c2]
              = OK [reassemble x]).
  { intros l Hl x y ->. unfold expand_df. cbn [mapM]. rewrite Hs1, Hs2. cbn [bind mapM].
    rewrite Hg1, Hg2. cbn [bind]. unfold resolve_conflicts.
    cbn [sort_values bind]. rewrite Hl.
    assert (Hxy : IP y = IP x).
    { assert (Hin : forall z, In z [x; y] -> IP z = base).
      { intros z Hz. rewrite <- Hl in Hz. apply (proj1 (sort_by_In S le_Subnet _ _)) in Hz.
        destruct Hz as [<-|[<-|[]]]; reflexivity. }
      rewrite (Hin x), (Hin y); [reflexivity | right; now left | now left]. }
    unfold drop_duplicates. cbn [drop_duplicates_from existsb].
    rewrite Hxy, String.eqb_refl. cbn [orb map sort_values].
    now rewrite sort_by_single. }
  pose proof (sort_by_perm S _ le_Subnet [x1; x2]) as Hperm.
  apply Permutation_length_2_inv in Hperm as [Hsort|Hsort].
  - exists c1. split; [exact (Hrun _ Hsort x1 x2 eq_refl)|]. split; [now left | reflexivity].
  - exists c2. split; [exact (Hrun _ Hsort x2 x1 eq_refl)|]. split; [now right|].
    intros Hst.
    rewrite (stable_insertion_sort le_Subnet le_Subnet_total le_Subnet_trans S _ Hst) in Hsort.
    cbn in Hsort. injection Hsort as E _. unfold x1, x2 in E. congruence.
Qed.

Lemma expand_df_host_and_its_slash24_witness :
  exists country,
    expand_df stable_sorter [mkCIDR "203.0.113.5/32" "IR"; mkCIDR "203.0.113.0/24" "CN"]
      = OK [mkCIDR "203.0.113.0/24" country] /\
    (country = "IR" \/ country = "CN") /\
    (stable stable_sorter -> country = "IR").
Proof.
  exact (expand_df_host_and_its_slash24 stable_sorter "203" "0" "113" "5" "IR" "CN"
           eq_refl eq_refl eq_refl eq_refl eq_refl eq_refl eq_refl eq_refl).
Defined.

(** ** load_dbip_csv: the rows of a country, by family (lines 59-64) *)

(** *** The split by ":" and the two parsers agree *)

(** A character that is in no part of a split, and is not the separator,
    is not in the text. *)
Lemma split_contains_inv (sep c : ascii) (s : string) :
  c <> sep -> (forall p, In p (split sep s) -> contains c p = false) ->
  contains c s = false.
Proof.
  intros Hc. induction s as [|a s IH]; simpl; [reflexivity|].
  destruct (Ascii.eqb_spec a sep) as [->|Hsep].
  - intros H. assert (E : Ascii.eqb sep c = false) by (apply Ascii.eqb_neq; congruence).
    rewrite E. simpl. apply IH. intros p Hp. apply H. now right.
  - destruct (split sep s) as [|h t] eqn:Hs.
    + intros H. specialize (H _ (or_introl eq_refl)). simpl in H.
      apply orb_false_iff in H as [Ha _]. rewrite Ha. simpl.
      apply IH. intros p [].
    + intros H. pose proof (H _ (or_introl eq_refl)) as Hh. simpl in Hh.
      apply orb_false_iff in Hh as [Ha Hh]. rewrite Ha. simpl.
      apply IH. intros p [<-|Hp]; [assumption | apply H; now right].
Qed.

Lemma mapM_parse_octet_no_colon (octets : list string) (bytes : list Z) :
  mapM ipaddress._parse_octet octets = OK bytes ->
  forall p, In p octets -> contains ":" p = false.
Proof.
  intros H p Hp.
  destruct (Forall2_In_l _ _ _ _ (mapM_OK _ _ _ H) Hp) as (v & _ & Hv).
  unfold ipaddress._parse_octet in Hv.
  destruct (String.eqb p ""); [discriminate|].
  destruct (ipaddress.all_chars _ p) eqn:Hall; [|discriminate].
  apply (forallb_contains _ ":" p Hall). reflexivity.
Qed.

Lemma IPv4Address_no_colon (address : string) (n : Z) :
  ipaddress.IPv4Address address = OK n -> contains ":" address = false.
Proof.
  unfold ipaddress.IPv4Address.
  destruct (contains "/" address); [discriminate|].
  destruct (String.eqb address ""); [discriminate|].
  destruct (negb _); [discriminate|].
  destruct (mapM ipaddress._parse_octet (split "." address)) as [bytes|] eqn:Hm;
    [|discriminate].
  intros _. apply (split_contains_inv "." ":" address); [discriminate|].
  now apply (mapM_parse_octet_no_colon _ bytes).
Qed.

Lemma ip_int_from_string_v6_colon (ip_str : string) (n : Z) :
  ipaddress._ip_int_from_string_v6 ip_str = OK n -> contains ":" ip_str = true.
Proof.
  unfold ipaddress._ip_int_from_string_v6.
  destruct (String.eqb ip_str ""); [discriminate|].
  destruct (contains ":" ip_str) eqn:Hc; [reflexivity|].
  rewrite (split_no_sep ":" ip_str Hc). cbn. discriminate.
Qed.

Lemma IPv6Address_colon (address : string) (a : ipaddress.Address) :
  ipaddress.IPv6Address address = OK a -> contains ":" address = true.
Proof.
  intros H. apply IPv6Address_OK in H as (_ & addr & Hsplit & Hip).
  apply ip_int_from_string_v6_colon in Hip.
  destruct (contains ":" address) eqn:Hc; [reflexivity|].
  pose proof (split_contains "%" ":" address Hc) as Hparts.
  unfold ipaddress._split_scope_id in Hsplit.
  destruct (split "%" address) as [|addr' [|scope_id [|]]]; try discriminate.
  - injection Hsplit as <- _. rewrite (Hparts addr' (or_introl eq_refl)) in Hip. discriminate.
  - destruct (String.eqb scope_id ""); [discriminate|].
    injection Hsplit as <- _. rewrite (Hparts addr' (or_introl eq_refl)) in Hip. discriminate.
Qed.

(** An ISO 3166-1 alpha-2 code: two capital letters. *)
Definition is_upper (c : ascii) : bool :=
  let n := nat_of_ascii c in (65 <=? n)%nat && (n <=? 90)%nat.

Definition alpha2 (code : string) : bool :=
  match code with
  | String a (String b EmptyString) => is_upper a && is_upper b
  | _ => false
  end.

(** A cell that one of the two address parsers takes. *)
Definition address_text (cell : string) : Prop :=
  (exists n, ipaddress.IPv4Address cell = OK n) \/
  (exists a, ipaddress.IPv6Address cell = OK a).

(** The only alpha-2 code that is read as a missing value is that of
    Namibia. *)
Lemma alpha2_isna (code : string) : alpha2 code = true -> isna code = String.eqb code "NA".
Proof.
  destruct code as [|a [|b [|c r]]]; try discriminate. intros _.
  unfold isna, STR_NA_VALUES. cbn [existsb String.eqb].
  destruct (Ascii.eqb a "N") eqn:Ea, (Ascii.eqb b "A") eqn:Eb;
    repeat (rewrite ?andb_false_r, ?andb_true_r, ?orb_false_r, ?orb_false_l, ?andb_false_l);
    try reflexivity.
  all: try (apply Ascii.eqb_eq in Ea; subst a); try (apply Ascii.eqb_eq in Eb; subst b).
  all: cbn; repeat (rewrite ?andb_false_r, ?andb_true_r, ?orb_false_r, ?orb_false_l);
    try reflexivity.
  all: repeat match goal with
         | |- context [Ascii.eqb ?x ?y] =>
             let E := fresh in destruct (Ascii.eqb x y) eqn:E;
             [apply Ascii.eqb_eq in E; try subst; try discriminate|]; cbn
         end; try reflexivity; try congruence.
Qed.

(** X7.  On a range table whose start cells are all addresses, and for a
    two-letter country code, [load_dbip_csv] reads the table once and
    returns the rows of the country by family: the first frame holds
    exactly the rows of the code whose start is an IPv4 address, the second
    exactly those whose start is an IPv6 address, so every row goes to the
    converter that can parse it.  The code "NA" is the exception: its cells
    are read as missing values, and both frames are empty. *)
Theorem load_dbip_csv_routes_by_family :
  forall (fs : FileSystem) (file_path country_iso_code : string) (df : list dbip.Row),
    dbip_csv fs = Some df -> df <> [] ->
    alpha2 country_iso_code = true ->
    Forall (fun r => address_text (dbip.Range_Start r)) df ->
    exists df_ip4 df_ip6,
      load_dbip_csv fs file_path country_iso_code
        = ([ReadFile file_path], OK (df_ip4, df_ip6)) /\
      (forall r, In r df_ip4 <->
         In r df /\ dbip.Country r = country_iso_code /\ country_iso_code <> "NA" /\
         exists n, ipaddress.IPv4Address (dbip.Range_Start r) = OK n) /\
      (forall r, In r df_ip6 <->
         In r df /\ dbip.Country r = country_iso_code /\ country_iso_code <> "NA" /\
         exists a, ipaddress.IPv6Address (dbip.Range_Start r) = OK a) /\
      (country_iso_code = "NA" -> df_ip4 = [] /\ df_ip6 = []).
Proof.
  intros fs file_path iso df Hfile _ Hiso Haddr.
  unfold load_dbip_csv. rewrite Hfile. cbn [read_file bindIO ret app].
  eexists. eexists. split; [reflexivity|].
  rewrite Forall_forall in Haddr.
  assert (Hkeep : forall r, negb (isna (dbip.Country r)) && String.eqb (dbip.Country r) iso = true
                            <-> dbip.Country r = iso /\ iso <> "NA").
  { intros r. rewrite andb_true_iff, negb_true_iff, String.eqb_eq. split.
    - intros [Hna Hc]. split; [exact Hc|]. intros ->. rewrite Hc in Hna.
      vm_compute in Hna. discriminate Hna.
    - intros [-> Hne]. split; [|reflexivity].
      rewrite (alpha2_isna iso Hiso). now apply String.eqb_neq. }
  split; [|split].
  - intros r. rewrite !filter_In, negb_true_iff, Hkeep. split.
    + intros [[Hr [Hc Hne]] Hcolon]. repeat split; auto.
      destruct (Haddr r Hr) as [H4|[a H6]]; [assumption|].
      apply IPv6Address_colon in H6. congruence.
    + intros (Hr & Hc & Hne & n & Hn). apply IPv4Address_no_colon in Hn. auto.
  - intros r. rewrite !filter_In, Hkeep. split.
    + intros [[Hr [Hc Hne]] Hcolon]. repeat split; auto.
      destruct (Haddr r Hr) as [[n H4]|H6]; [|assumption].
      apply IPv4Address_no_colon in H4. congruence.
    + intros (Hr & Hc & Hne & a & Ha). apply IPv6Address_colon in Ha. auto.
  - intros ->. rewrite (filter_nil_iff _ df); [split; reflexivity|].
    intros r _. apply not_true_is_false. rewrite Hkeep. intros [_ H]. now apply H.
Qed.

Lemma load_dbip_csv_routes_by_family_witness :
  exists df_ip4 df_ip6,
    load_dbip_csv example_fs "dbip.csv" "IR" = ([ReadFile "dbip.csv"], OK (df_ip4, df_ip6)) /\
    In (dbip.mkRow "1.0.0.0" "1.0.0.3" "IR") df_ip4 /\
    In (dbip.mkRow "2001:db8::" "2001:db8::ffff" "IR") df_ip6.
Proof.
  destruct (load_dbip_csv_routes_by_family example_fs "dbip.csv" "IR"
              [dbip.mkRow "1.0.0.0" "1.0.0.3" "IR";
               dbip.mkRow "2001:db8::" "2001:db8::ffff" "IR";
               dbip.mkRow "1.0.1.0" "1.0.1.255" "CN"]
              eq_refl ltac:(discriminate) eq_refl)
    as (df_ip4 & df_ip6 & Hload & H4 & H6 & _).
  - apply Forall_cons; [left; eexists; reflexivity|].
    apply Forall_cons; [right; eexists; reflexivity|].
    apply Forall_cons; [left; eexists; reflexivity|].
    apply Forall_nil.
  - exists df_ip4, df_ip6. split; [exact Hload|]. split.
    + apply H4. split; [now left|]. split; [reflexivity|]. split; [discriminate|].
      eexists. reflexivity.
    + apply H6. split; [right; now left|]. split; [reflexivity|]. split; [discriminate|].
      eexists. reflexivity.
Defined.

(** ** extract_geo_id and load_geolite2_csv (lines 78-80, 115-129) *)



Lemma extract_geo_id_missing (fs : FileSystem) (path country : string)
    (geoinfo_df : list locations.Row) :
  locations_csv fs = Some geoinfo_df ->
  (forall r, In r geoinfo_df -> locations.country_name r <> country) ->
  extract_geo_id fs path country = ([ReadFile path], Raise IndexError).
Proof.
  intros Hfile Hnone. unfold extract_geo_id. rewrite Hfile. cbn [read_file bindIO].
  rewrite (filter_nil_iff _ geoinfo_df); [reflexivity|].
  intros r Hr. apply String.eqb_neq. now apply Hnone.
Qed.



(** X9.  [load_geolite2_csv] resolves the identifier of the country first.  When
    the locations table does not name the country, it raises [IndexError]
    with the table as the only file read: no block table is opened.  When it
    returns, it has read the locations table, the IPv4 block table and the
    IPv6 block table, in that order; both frames are filtered by the one
    identifier found, and every row of both bears the ISO code of the
    geolocation. *)
Theorem load_geolite2_csv_reads :
  forall (fs : FileSystem) (dir_path : string) (geolocation : Geolocation)
         (geoinfo_df : list locations.Row),
    locations_csv fs = Some geoinfo_df ->
    ((forall r, In r geoinfo_df -> locations.country_name r <> name geolocation) ->
     load_geolite2_csv fs dir_path geolocation
       = ([ReadFile (dir_path ++ "/GeoLite2-Country-Locations-en.csv")%string],
          Raise IndexError)) /\
    (forall log ipv4_df ipv6_df,
       load_geolite2_csv fs dir_path geolocation = (log, OK (ipv4_df, ipv6_df)) ->
       log = [ReadFile (dir_path ++ "/GeoLite2-Country-Locations-en.csv")%string;
              ReadFile (dir_path ++ "/GeoLite2-Country-Blocks-IPv4.csv")%string;
              ReadFile (dir_path ++ "/GeoLite2-Country-Blocks-IPv6.csv")%string] /\
       Forall (fun r => Country r = iso_code geolocation) (ipv4_df ++ ipv6_df) /\
       exists geo_id blocks4 blocks6,
         In geo_id
            (map locations.geoname_id
               (filter (fun r => String.eqb (locations.country_name r) (name geolocation))
                       geoinfo_df)) /\
         blocks_csv fs false = Some blocks4 /\ blocks_csv fs true = Some blocks6 /\
         let keep := fun r =>
           same_id (blocks.geoname_id r) geo_id
           && same_id (blocks.registered_country_geoname_id r) geo_id in
         map Network ipv4_df = map blocks.network (filter keep blocks4) /\
         map Network ipv6_df = map blocks.network (filter keep blocks6)).
Proof.
  intros fs dir_path g geoinfo_df Hfile. split.
  - intros Hnone. unfold load_geolite2_csv.
    now rewrite (extract_geo_id_missing fs _ _ geoinfo_df Hfile Hnone).
  - intros log ipv4_df ipv6_df. unfold load_geolite2_csv, extract_geo_id.
    rewrite Hfile. cbn [read_file bindIO].
    destruct (filter _ geoinfo_df) as [|row matches] eqn:Hmatch; [discriminate|].
    cbn [map get_item nth_error bind lift]. rewrite py_int_py_str.
    unfold extract_geolite2_cidr.
    destruct (blocks_csv fs false) as [blocks4|] eqn:H4; [|discriminate].
    destruct (blocks_csv fs true) as [blocks6|] eqn:H6; [|discriminate].
    cbn. intros [= <- <- <-].
    split; [reflexivity|]. split.
    + apply Forall_app. split; apply Forall_forall; intros r Hr;
        apply in_map_iff in Hr as (b & <- & _); reflexivity.
    + exists (locations.geoname_id row), blocks4, blocks6.
      split; [now left|]. split; [reflexivity|]. split; [reflexivity|].
      cbn zeta. rewrite !map_map. cbn [Network]. split; reflexivity.
Qed.

Lemma load_geolite2_csv_reads_witness :
  ((forall r, In r example_locations -> locations.country_name r <> "Iran") ->
   load_geolite2_csv example_fs "./Data/GeoLite2" (mkGeo "Iran" "IR")
     = ([ReadFile "./Data/GeoLite2/GeoLite2-Country-Locations-en.csv"], Raise IndexError)) /\
  (forall log ipv4_df ipv6_df,
     load_geolite2_csv example_fs "./Data/GeoLite2" (mkGeo "Iran" "IR")
       = (log, OK (ipv4_df, ipv6_df)) ->
     log = [ReadFile "./Data/GeoLite2/GeoLite2-Country-Locations-en.csv";
            ReadFile "./Data/GeoLite2/GeoLite2-Country-Blocks-IPv4.csv";
            ReadFile "./Data/GeoLite2/GeoLite2-Country-Blocks-IPv6.csv"] /\
     Forall (fun r => Country r = "IR") (ipv4_df ++ ipv6_df) /\
     exists geo_id blocks4 blocks6,
       In geo_id
          (map locations.geoname_id
             (filter (fun r => String.eqb (locations.country_name r) "Iran")
                     example_locations)) /\
       blocks_csv example_fs false = Some blocks4 /\
       blocks_csv example_fs true = Some blocks6 /\
       map Network ipv4_df
         = map blocks.network
             (filter (fun r => same_id (blocks.geoname_id r) geo_id
                               && same_id (blocks.registered_country_geoname_id r) geo_id)
                     blocks4) /\
       map Network ipv6_df
         = map blocks.network
             (filter (fun r => same_id (blocks.geoname_id r) geo_id
                               && same_id (blocks.registered_country_geoname_id r) geo_id)
                     blocks6)).
Proof.
  exact (load_geolite2_csv_reads example_fs "./Data/GeoLite2" (mkGeo "Iran" "IR")
           example_locations eq_refl).
Defined.

(** ** main: the sources of one geolocation (lines 229-304) *)

(** What an optional file adds to a frame, and to the trace. *)
Definition optional_rows (content : option (list CIDRRecord)) : list CIDRRecord :=
  match content with Some df => df | None => [] end.

Definition optional_read (path : string) (content : option (list CIDRRecord)) : list Event :=
  match content with Some _ => [ReadFile path] | None => [] end.

Lemma load_optional_eq (path : string) (content : option (list CIDRRecord))
    (aggregated : list CIDRRecord) :
  load_optional path content aggregated
  = (optional_read path content, OK (aggregated ++ optional_rows content)).
Proof. destruct content; cbn; [reflexivity | now rewrite app_nil_r]. Qed.

(** The files a run opens for one geolocation, in the order it opens them
    when nothing fails. *)
Definition reads_of (fs : FileSystem) (geolocation : Geolocation) : list Event :=
  let iso := iso_code geolocation in
  [ReadFile "./Data/dbip-country-lite-2023-01.csv";
   ReadFile "./Data/GeoLite2/GeoLite2-Country-Locations-en.csv";
   ReadFile "./Data/GeoLite2/GeoLite2-Country-Blocks-IPv4.csv";
   ReadFile "./Data/GeoLite2/GeoLite2-Country-Blocks-IPv6.csv"]
  ++ optional_read ("./Data/AS_CIDRs/ipv4_" ++ iso ++ ".csv")%string (as_cidrs_csv fs false iso)
  ++ optional_read ("./Data/AS_CIDRs/ipv6_" ++ iso ++ ".csv")%string (as_cidrs_csv fs true iso)
  ++ optional_read ("./Data/Manual/ipv4_" ++ iso ++ ".csv")%string (manual_csv fs false iso)
  ++ optional_read ("./Data/Manual/ipv6_" ++ iso ++ ".csv")%string (manual_csv fs true iso)
  ++ (if String.eqb iso "IR" then [ReadFile "./Data/Export-14011020215714.xls"] else []).

(** The rows of a block table kept for an identifier. *)
Definition geolite2_rows (ipblocks_df : list blocks.Row) (geoid : Z) (iso_code : string)
    : list CIDRRecord :=
  map (fun r => mkCIDR (blocks.network r) iso_code)
      (filter (fun r => same_id (blocks.geoname_id r) geoid
                        && same_id (blocks.registered_country_geoname_id r) geoid)
              ipblocks_df).

Lemma extract_geo_id_eq (fs : FileSystem) (path country : string) :
  extract_geo_id fs path country =
  match locations_csv fs with
  | Some geoinfo_df =>
      ([ReadFile path],
       match nth_error
               (map locations.geoname_id
                  (filter (fun r => String.eqb (locations.country_name r) country)
                          geoinfo_df)) 0 with
       | Some geo_id => OK geo_id
       | None => Raise IndexError
       end)
  | None => ([], Raise (FileNotFoundError path))
  end.
Proof.
  unfold extract_geo_id, read_file, lift, throw, get_item.
  destruct (locations_csv fs) as [geoinfo_df|]; [|reflexivity].
  cbn [bindIO]. destruct (nth_error _ 0) as [geo_id|]; cbn [bind app].
  - now rewrite py_int_py_str.
  - reflexivity.
Qed.

(** One turn of the loop that returns: what was on disk, what was read, and
    what was appended to the two frames. *)
Lemma aggregate_geolocation_OK (fs : FileSystem) (a4 a6 : list CIDRRecord)
    (g : Geolocation) (log : list Event) (a4' a6' : list CIDRRecord) :
  aggregate_geolocation fs (a4, a6) g = (log, OK (a4', a6')) ->
  exists df geoinfo_df blocks4 blocks6 dbip_ipv4 dbip_ipv6 geo_id ito_df,
    dbip_csv fs = Some df /\
    locations_csv fs = Some geoinfo_df /\
    blocks_csv fs false = Some blocks4 /\
    blocks_csv fs true = Some blocks6 /\
    (if String.eqb (iso_code g) "IR" then ito_xls fs = Some ito_df else ito_df = []) /\
    convert_iprange_to_cidr
      (filter (fun r => negb (contains ":" (dbip.Range_Start r)))
         (filter (fun r => negb (isna (dbip.Country r))
                           && String.eqb (dbip.Country r) (iso_code g)) df)) false
      = OK dbip_ipv4 /\
    convert_iprange_to_cidr
      (filter (fun r => contains ":" (dbip.Range_Start r))
         (filter (fun r => negb (isna (dbip.Country r))
                           && String.eqb (dbip.Country r) (iso_code g)) df)) true
      = OK dbip_ipv6 /\
    nth_error
      (map locations.geoname_id
         (filter (fun r => String.eqb (locations.country_name r) (name g)) geoinfo_df)) 0
      = Some geo_id /\
    log = reads_of fs g /\
    a4' = a4 ++ dbip_ipv4 ++ geolite2_rows blocks4 geo_id (iso_code g)
             ++ optional_rows (as_cidrs_csv fs false (iso_code g))
             ++ optional_rows (manual_csv fs false (iso_code g))
             ++ map (fun ipv4 => mkCIDR ipv4 "IR") ito_df /\
    a6' = a6 ++ dbip_ipv6 ++ geolite2_rows blocks6 geo_id (iso_code g)
             ++ optional_rows (as_cidrs_csv fs true (iso_code g))
             ++ optional_rows (manual_csv fs true (iso_code g)).
Proof.
  unfold aggregate_geolocation, load_dbip_csv, load_geolite2_csv,
    extract_geolite2_cidr, read_ito_db, concat_df.
  rewrite extract_geo_id_eq.
  unfold read_file, ret, lift, throw.
  destruct (dbip_csv fs) as [df|]; [|discriminate].
  cbn [bindIO app].
  destruct (convert_iprange_to_cidr _ false) as [dbip_ipv4|] eqn:H4; [|discriminate].
  cbn [bindIO app].
  destruct (convert_iprange_to_cidr _ true) as [dbip_ipv6|] eqn:H6; [|discriminate].
  cbn [bindIO app].
  destruct (locations_csv fs) as [geoinfo_df|]; [|discriminate].
  destruct (nth_error _ 0) as [geo_id|] eqn:Hid; [|discriminate].
  cbn [bindIO app].
  destruct (blocks_csv fs false) as [blocks4|]; [|discriminate].
  cbn [bindIO app].
  destruct (blocks_csv fs true) as [blocks6|]; [|discriminate].
  cbn [bindIO app].
  do 4 (rewrite load_optional_eq; cbn [bindIO app]).
  unfold reads_of, geolite2_rows.
  destruct (String.eqb (iso_code g) "IR") eqn:Hir.
  - destruct (ito_xls fs) as [ito_df|]; [|discriminate].
    cbn [bindIO app]. intros [= <- <- <-].
    exists df, geoinfo_df, blocks4, blocks6, dbip_ipv4, dbip_ipv6, geo_id, ito_df.
    repeat split; try reflexivity; try assumption.
    all: rewrite <- ?app_assoc; reflexivity.
  - cbn [bindIO app]. intros [= <- <- <-].
    exists df, geoinfo_df, blocks4, blocks6, dbip_ipv4, dbip_ipv6, geo_id, [].
    repeat split; try reflexivity; try assumption.
    all: cbn [map]; rewrite ?app_nil_r, <- ?app_assoc; reflexivity.
Qed.

Lemma aggregate_from_OK (fs : FileSystem) (todo : list Geolocation) :
  forall (aggregated : list CIDRRecord * list CIDRRecord) (log : list Event)
         (out : list CIDRRecord * list CIDRRecord),
    aggregate_from fs aggregated todo = (log, OK out) ->
    log = flat_map (reads_of fs) todo /\
    forall g, In g todo ->
      exists a4 a6 log' a4' a6',
        aggregate_geolocation fs (a4, a6) g = (log', OK (a4', a6')).
Proof.
  induction todo as [|g rest IH]; intros aggregated log out; simpl.
  - intros [= <- <-]. split; [reflexivity | intros g []].
  - destruct aggregated as [a4 a6].
    destruct (aggregate_geolocation fs (a4, a6) g) as [log1 [[a4' a6']|e]] eqn:Hg;
      cbn [bindIO]; [|discriminate].
    destruct (aggregate_from fs (a4', a6') rest) as [log2 r] eqn:Hrest.
    intros [= <- ->].
    destruct (IH _ _ _ Hrest) as [Hlog Hall].
    destruct (aggregate_geolocation_OK _ _ _ _ _ _ _ Hg)
      as (_ & _ & _ & _ & _ & _ & _ & _ & _ & _ & _ & _ & _ & _ & _ & _ & Hlog1 & _).
    split; [now rewrite Hlog1, Hlog|].
    intros g' [<-|Hin]; [now exists a4, a6, log1, a4', a6' | now apply Hall].
Qed.

(** ** main: the trace of a run that succeeds *)

(** X19.  A run that succeeds opens, for Iran, then China, then Russia: the range
    table, the locations table, the IPv4 and the IPv6 block tables, those of
    the four optional files that exist (autonomous systems IPv4 and IPv6,
    manual IPv4 and IPv6), and for Iran the ITO sheet; so the range table and
    the three GeoLite2 tables are each read three times.  After the last
    read it creates the output directory and writes the one output file, and
    does nothing else. *)
Theorem main_trace :
  forall (S : Sorter) (fs : FileSystem),
    snd (main S fs) = OK tt ->
    exists content,
      fst (main S fs) =
        flat_map (reads_of fs) geolocations
        ++ [MakeDirs "./Aggregated_Data";
            WriteFile "./Aggregated_Data/agg_cidrs.csv" content].
Proof.
  intros S fs H.
  destruct (data_dir fs) eqn:Hdir.
  2:{ unfold main in H. rewrite Hdir in H. discriminate. }
  rewrite (main_run S fs Hdir) in H |- *.
  destruct (aggregate fs) as [log [[a4 a6]|e]] eqn:Hagg; [|discriminate].
  destruct (expand_df S _) as [expanded|e]; [|discriminate].
  apply aggregate_from_OK in Hagg as [-> _].
  eexists. reflexivity.
Qed.

Lemma main_trace_witness :
  exists content,
    fst (main stable_sorter example_fs) =
      flat_map (reads_of example_fs) geolocations
      ++ [MakeDirs "./Aggregated_Data";
          WriteFile "./Aggregated_Data/agg_cidrs.csv" content].
Proof. exact (main_trace stable_sorter example_fs eq_refl). Defined.

(** ** main: the sources it cannot do without *)

(** X20.  A run succeeds only when the data directory is there, together with the
    range table, the locations table, both block tables and the ITO sheet,
    and when the locations table names Iran, China and Russia.  (The
    autonomous-system and manual files are not in the list.) *)
Theorem main_needs_mandatory_sources :
  forall (S : Sorter) (fs : FileSystem),
    snd (main S fs) = OK tt ->
    data_dir fs = true /\
    (exists df, dbip_csv fs = Some df) /\
    (exists geoinfo_df,
       locations_csv fs = Some geoinfo_df /\
       forall g, In g geolocations ->
         exists r, In r geoinfo_df /\ locations.country_name r = name g) /\
    (forall ipv6, exists ipblocks_df, blocks_csv fs ipv6 = Some ipblocks_df) /\
    (exists ito_df, ito_xls fs = Some ito_df).
Proof.
  intros S fs H.
  destruct (data_dir fs) eqn:Hdir.
  2:{ unfold main in H. rewrite Hdir in H. discriminate. }
  rewrite (main_run S fs Hdir) in H.
  destruct (aggregate fs) as [log [[a4 a6]|e]] eqn:Hagg; [|discriminate].
  apply aggregate_from_OK in Hagg as [_ Hall].
  assert (Hg : forall g, In g geolocations ->
            exists df geoinfo_df blocks4 blocks6 ito_df,
              dbip_csv fs = Some df /\ locations_csv fs = Some geoinfo_df /\
              blocks_csv fs false = Some blocks4 /\ blocks_csv fs true = Some blocks6 /\
              (if String.eqb (iso_code g) "IR" then ito_xls fs = Some ito_df else ito_df = []) /\
              exists r, In r geoinfo_df /\ locations.country_name r = name g).
  { intros g Hin. destruct (Hall g Hin) as (b4 & b6 & log' & b4' & b6' & Hrun).
    apply aggregate_geolocation_OK in Hrun
      as (df & geoinfo_df & blocks4 & blocks6 & _ & _ & geo_id & ito_df
          & Hdf & Hloc & H4 & H6 & Hito & _ & _ & Hid & _).
    exists df, geoinfo_df, blocks4, blocks6, ito_df. repeat split; try assumption.
    destruct (filter _ geoinfo_df) as [|r matches] eqn:Hf; [discriminate|].
    assert (Hr : In r (filter (fun r => String.eqb (locations.country_name r) (name g))
                              geoinfo_df)) by (rewrite Hf; now left).
    apply filter_In in Hr as [Hr Hname]. apply String.eqb_eq in Hname. eauto. }
  destruct (Hg (mkGeo "Iran" "IR") (or_introl eq_refl))
    as (df & geoinfo_df & blocks4 & blocks6 & ito_df & Hdf & Hloc & H4 & H6 & Hito & _).
  split; [reflexivity|]. split; [eauto|]. split; [|split].
  - exists geoinfo_df. split; [assumption|]. intros g Hin.
    destruct (Hg g Hin) as (_ & geoinfo_df' & _ & _ & _ & _ & Hloc' & _ & _ & _ & Hr).
    assert (geoinfo_df' = geoinfo_df) by congruence. now subst.
  - intros [|]; eauto.
  - exists ito_df. exact Hito.
Qed.

Lemma main_needs_mandatory_sources_witness :
  data_dir example_fs = true /\
  (exists df, dbip_csv example_fs = Some df) /\
  (exists geoinfo_df,
     locations_csv example_fs = Some geoinfo_df /\
     forall g, In g geolocations ->
       exists r, In r geoinfo_df /\ locations.country_name r = name g) /\
  (forall ipv6, exists ipblocks_df, blocks_csv example_fs ipv6 = Some ipblocks_df) /\
  (exists ito_df, ito_xls example_fs = Some ito_df).
Proof. exact (main_needs_mandatory_sources stable_sorter example_fs eq_refl). Defined.

(** ** main: how a run fails *)

Lemma as_address_error_Raise {A : Type} (m : result A) (e : PyError) :
  ipaddress.as_address_error m = Raise e -> e = AddressValueError.
Proof. destruct m; simpl; congruence. Qed.

Lemma IPv4Address_Raise (address : string) (e : PyError) :
  ipaddress.IPv4Address address = Raise e -> e = AddressValueError.
Proof.
  unfold ipaddress.IPv4Address.
  repeat match goal with
         | |- (if ?b then _ else _) = _ -> _ => destruct b
         end; try congruence.
  apply as_address_error_Raise.
Qed.

Lemma ip_int_from_string_v6_Raise (ip_str : string) (e : PyError) :
  ipaddress._ip_int_from_string_v6 ip_str = Raise e -> e = AddressValueError.
Proof.
  unfold ipaddress._ip_int_from_string_v6.
  destruct (String.eqb ip_str ""); [congruence|].
  destruct (List.length (split ":" ip_str) <? 3)%nat; [congruence|].
  match goal with
  | |- bind ?m _ = _ -> _ => destruct m as [parts|e0] eqn:Hparts
  end; cbn [bind].
  2:{ intros [= <-]. destruct (contains "." _); [|discriminate].
      destruct (ipaddress.IPv4Address _) eqn:E; simpl in Hparts; [discriminate|].
      injection Hparts as <-. now apply IPv4Address_Raise in E. }
  destruct (9 <? List.length parts)%nat; [congruence|].
  match goal with
  | |- bind ?m _ = _ -> _ => destruct m as [[[hi lo] skipped]|e0] eqn:Hlayout
  end; cbn [bind].
  - apply as_address_error_Raise.
  - intros [= <-].
    destruct (ipaddress.interior_empty parts) as [|i [|j rest]]; [| |congruence].
    + repeat match type of Hlayout with
             | (if ?b then _ else _) = _ => destruct b
             end; congruence.
    + repeat match type of Hlayout with
             | (if ?b then _ else _) = _ => destruct b
             end; congruence.
Qed.

Lemma IPv6Address_Raise (address : string) (e : PyError) :
  ipaddress.IPv6Address address = Raise e -> e = AddressValueError.
Proof.
  unfold ipaddress.IPv6Address, ipaddress._split_scope_id.
  destruct (contains "/" address); [congruence|].
  destruct (split "%" address) as [|addr [|scope_id [|]]]; cbn [bind fst snd];
    try congruence.
  - destruct (ipaddress._ip_int_from_string_v6 addr) eqn:E; cbn [bind]; [discriminate|].
    intros [= <-]. now apply ip_int_from_string_v6_Raise in E.
  - destruct (String.eqb scope_id ""); cbn [bind fst snd]; [congruence|].
    destruct (ipaddress._ip_int_from_string_v6 addr) eqn:E; cbn [bind]; [discriminate|].
    intros [= <-]. now apply ip_int_from_string_v6_Raise in E.
Qed.

Lemma parse_address_Raise (ipv6 : bool) (address : string) (e : PyError) :
  ipaddress.parse_address (family_of ipv6) address = Raise e -> e = AddressValueError.
Proof.
  destruct ipv6; cbn [family_of]; [apply IPv6Address_Raise|].
  cbn [ipaddress.parse_address ipaddress.IPv4].
  destruct (ipaddress.IPv4Address address) eqn:E; cbn [bind]; [discriminate|].
  intros [= <-]. now apply IPv4Address_Raise in E.
Qed.

(** [a > b] is the negation of [a <= b]. *)
Lemma address_gt_le (a b : ipaddress.Address) :
  ipaddress.address_gt a b = negb (ipaddress.address_le a b).
Proof. unfold ipaddress.address_gt, ipaddress.address_le. now rewrite negb_orb. Qed.

(** [a <= b] puts the integers in that order. *)
Lemma address_le_ip (a b : ipaddress.Address) :
  ipaddress.address_le a b = true -> ipaddress._ip a <= ipaddress._ip b.
Proof.
  unfold ipaddress.address_le, ipaddress.address_lt, ipaddress.address_eq.
  destruct (Z.eqb_spec (ipaddress._ip a) (ipaddress._ip b)) as [->|Hne]; cbn [negb andb orb].
  - lia.
  - rewrite orb_false_r. intros H. apply Z.ltb_lt in H. lia.
Qed.

(** [a <= b] holds when [a] is below [b], or is [b] with the same scope id;
    not for one integer with two scope ids. *)
Lemma address_le_iff (a b : ipaddress.Address) :
  ipaddress.address_le a b = true <->
  ipaddress._ip a < ipaddress._ip b \/
  (ipaddress._ip a = ipaddress._ip b /\ ipaddress._scope_id a = ipaddress._scope_id b).
Proof.
  unfold ipaddress.address_le, ipaddress.address_lt, ipaddress.address_eq.
  destruct (Z.eqb_spec (ipaddress._ip a) (ipaddress._ip b)) as [E|Hne]; cbn [negb andb orb].
  - destruct (ipaddress._scope_id a) as [x|], (ipaddress._scope_id b) as [y|];
      cbn [ipaddress.scope_id_eqb].
    + rewrite String.eqb_eq. split; [intros ->; right; auto | intros [?|[_ [= ->]]]; [lia | reflexivity]].
    + split; [discriminate | intros [?|[_ ?]]; [lia | discriminate]].
    + split; [discriminate | intros [?|[_ ?]]; [lia | discriminate]].
    + split; [right; auto | reflexivity].
  - rewrite orb_false_r, Z.ltb_lt. split; [now left | intros [?|[? _]]; [assumption | contradiction]].
Qed.

(** The converter raises [AddressValueError] for a text that is no address
    of the family and [ValueError] for a range that ends before it starts,
    and nothing else. *)
Lemma convert_iprange_to_cidr_Raise (df : list dbip.Row) (ipv6 : bool) (e : PyError) :
  convert_iprange_to_cidr df ipv6 = Raise e ->
  exists row, In row df /\
    ((e = AddressValueError /\
      ((exists e', ipaddress.parse_address (family_of ipv6) (dbip.Range_Start row) = Raise e') \/
       (exists e', ipaddress.parse_address (family_of ipv6) (dbip.Range_End row) = Raise e')))
     \/
     (e = ValueError /\ exists startip endip,
        ipaddress.parse_address (family_of ipv6) (dbip.Range_Start row) = OK startip /\
        ipaddress.parse_address (family_of ipv6) (dbip.Range_End row) = OK endip /\
        ipaddress.address_le startip endip = false)).
Proof.
  unfold convert_iprange_to_cidr.
  destruct (mapM (convert_row ipv6) df) as [lists|e0] eqn:Hm; cbn [bind]; [discriminate|].
  intros [= <-]. apply mapM_Raise in Hm as (row & Hrow & Hconv).
  exists row. split; [assumption|].
  unfold convert_row in Hconv.
  destruct (ipaddress.parse_address _ (dbip.Range_Start row)) as [startip|e1] eqn:Hs;
    cbn [bind] in Hconv.
  2:{ injection Hconv as <-. left. split; [now apply (parse_address_Raise ipv6 _ _ Hs)|].
      left. eauto. }
  destruct (ipaddress.parse_address _ (dbip.Range_End row)) as [endip|e2] eqn:He;
    cbn [bind] in Hconv.
  2:{ injection Hconv as <-. left. split; [now apply (parse_address_Raise ipv6 _ _ He)|].
      right. eauto. }
  right.
  unfold ipaddress.summarize_address_range in Hconv. rewrite address_gt_le in Hconv.
  destruct (ipaddress.address_le startip endip) eqn:Hle; cbn [negb bind] in Hconv.
  - exfalso.
    pose proof (parse_address_range ipv6 _ _ Hs) as [Hs0 _].
    pose proof (parse_address_range ipv6 _ _ He) as [_ He1].
    assert (Hbits : 0 <= ipaddress.max_prefixlen (family_of ipv6))
      by (destruct ipv6; cbn; lia).
    destruct (summarize_loop_greedy _ _ Hbits He1 _ Hs0) as (nets & Hloop & _).
    rewrite Hloop in Hconv. discriminate.
  - injection Hconv as <-. split; [reflexivity|]. now exists startip, endip.
Qed.

(** The exceptions of the loop over the geolocations. *)
Definition source_error (e : PyError) : Prop :=
  (exists path,
     In path ["./Data/dbip-country-lite-2023-01.csv";
              "./Data/GeoLite2/GeoLite2-Country-Locations-en.csv";
              "./Data/GeoLite2/GeoLite2-Country-Blocks-IPv4.csv";
              "./Data/GeoLite2/GeoLite2-Country-Blocks-IPv6.csv";
              "./Data/Export-14011020215714.xls"] /\
     e = FileNotFoundError path) \/
  e = AddressValueError \/ e = ValueError \/ e = IndexError.

Lemma aggregate_geolocation_Raise (fs : FileSystem)
    (aggregated : list CIDRRecord * list CIDRRecord) (g : Geolocation)
    (log : list Event) (e : PyError) :
  aggregate_geolocation fs aggregated g = (log, Raise e) -> source_error e.
Proof.
  destruct aggregated as [a4 a6].
  unfold aggregate_geolocation, load_dbip_csv, load_geolite2_csv,
    extract_geolite2_cidr, read_ito_db, concat_df.
  rewrite extract_geo_id_eq.
  unfold read_file, ret, lift, throw, source_error.
  destruct (dbip_csv fs) as [df|].
  2:{ intros [= <- <-]. left. eexists. split; [|reflexivity]. cbn. tauto. }
  cbn [bindIO app].
  destruct (convert_iprange_to_cidr _ false) as [dbip_ipv4|e4] eqn:H4.
  2:{ intros [= <- <-]. apply convert_iprange_to_cidr_Raise in H4 as (_ & _ & [[-> _]|[-> _]]);
        tauto. }
  cbn [bindIO app].
  destruct (convert_iprange_to_cidr _ true) as [dbip_ipv6|e6] eqn:H6.
  2:{ intros [= <- <-]. apply convert_iprange_to_cidr_Raise in H6 as (_ & _ & [[-> _]|[-> _]]);
        tauto. }
  cbn [bindIO app].
  destruct (locations_csv fs) as [geoinfo_df|].
  2:{ intros [= <- <-]. left. eexists. split; [|reflexivity]. cbn. tauto. }
  destruct (nth_error _ 0) as [geo_id|] eqn:Hid.
  2:{ intros [= <- <-]. tauto. }
  cbn [bindIO app].
  destruct (blocks_csv fs false) as [blocks4|].
  2:{ intros [= <- <-]. left. eexists. split; [|reflexivity]. cbn. tauto. }
  cbn [bindIO app].
  destruct (blocks_csv fs true) as [blocks6|].
  2:{ intros [= <- <-]. left. eexists. split; [|reflexivity]. cbn. tauto. }
  cbn [bindIO app].
  do 4 (rewrite load_optional_eq; cbn [bindIO app]).
  destruct (String.eqb (iso_code g) "IR").
  - destruct (ito_xls fs) as [ito_df|].
    + cbn [bindIO app]. discriminate.
    + intros [= <- <-]. left. eexists. split; [|reflexivity]. cbn. tauto.
  - cbn [bindIO app]. discriminate.
Qed.

Lemma aggregate_from_Raise (fs : FileSystem) (todo : list Geolocation) :
  forall (aggregated : list CIDRRecord * list CIDRRecord) (log : list Event) (e : PyError),
    aggregate_from fs aggregated todo = (log, Raise e) -> source_error e.
Proof.
  induction todo as [|g rest IH]; intros aggregated log e; simpl; [discriminate|].
  destruct (aggregate_geolocation fs aggregated g) as [log1 [mid|e1]] eqn:Hg; cbn [bindIO].
  - destruct (aggregate_from fs mid rest) as [log2 r] eqn:Hrest.
    intros [= <- ->]. now apply (IH _ _ _ Hrest).
  - intros [= <- <-]. now apply (aggregate_geolocation_Raise _ _ _ _ _ Hg).
Qed.

(** X21.  A run that does not succeed has written nothing.  Without the data
    directory it leaves with [SystemExit(0)].  With it, it ends with
    [FileNotFoundError] for one of the five files it cannot do without,
    [AddressValueError] or [ValueError] for a row of the range table,
    [IndexError] or [ValueError] for a country that the locations table
    lacks or a network that [expand_df] cannot take apart, or [KeyError] for
    "Subnet" when there is no IPv4 row at all; the exit status is then 1. *)
Theorem main_raises :
  forall (S : Sorter) (fs : FileSystem) (e : PyError),
    snd (main S fs) = Raise e ->
    writes (fst (main S fs)) = [] /\
    (data_dir fs = false -> e = SystemExit 0) /\
    (data_dir fs = true ->
       (source_error e \/ e = KeyError "Subnet") /\
       exit_status (snd (main S fs)) = 1).
Proof.
  intros S fs e H.
  destruct (data_dir fs) eqn:Hdir.
  - rewrite (main_run S fs Hdir) in H |- *.
    pose proof (reads_only_writes (aggregate fs) (reads_only_aggregate_from fs _ _)) as Hr.
    destruct (aggregate fs) as [log [[a4 a6]|e0]] eqn:Hagg; cbn [fst snd] in *.
    + destruct (expand_df S _) as [expanded|e1] eqn:Hexp; [discriminate|].
      cbn [fst snd] in *. injection H as ->.
      split; [assumption|]. split; [discriminate|]. intros _.
      apply expand_df_raises_cases in Hexp.
      unfold source_error.
      destruct Hexp as [[-> _]|[->| ->]]; (split; [tauto | reflexivity]).
    + injection H as ->. split; [assumption|]. split; [discriminate|]. intros _.
      apply aggregate_from_Raise in Hagg.
      split; [now left|].
      destruct Hagg as [(path & _ & ->)|[->|[->| ->]]]; reflexivity.
  - unfold main in *. rewrite Hdir in *. cbn in *. injection H as <-.
    split; [reflexivity|]. split; [reflexivity | discriminate].
Qed.

Lemma main_raises_witness :
  writes (fst (main stable_sorter example_fs_no_ipv4)) = [] /\
  (data_dir example_fs_no_ipv4 = false -> KeyError "Subnet" = SystemExit 0) /\
  (data_dir example_fs_no_ipv4 = true ->
     (source_error (KeyError "Subnet") \/ KeyError "Subnet" = KeyError "Subnet") /\
     exit_status (snd (main stable_sorter example_fs_no_ipv4)) = 1).
Proof. exact (main_raises stable_sorter example_fs_no_ipv4 (KeyError "Subnet") eq_refl). Defined.

(** ** convert_iprange_to_cidr: a range that is one block (lines 30-43) *)

(** The summary of the addresses of a block is the block. *)
Lemma summarize_cidr_block (bits : Z) (net : ipaddress.Network)
    (first last : ipaddress.Address) :
  0 <= bits -> cidr_block bits net ->
  ipaddress._ip first = first_address net ->
  ipaddress._ip last = last_address bits net ->
  ipaddress.address_le first last = true ->
  0 <= first_address net -> last_address bits net <= ipaddress.ALL_ONES bits ->
  ipaddress.summarize_address_range bits first last = OK [net].
Proof.
  intros Hbits [Hplen Hdiv] Hfirst Hlast Hle Hlo Hhi.
  unfold ipaddress.summarize_address_range.
  rewrite address_gt_le, Hle, Hfirst, Hlast. cbn [negb].
  destruct net as [addr plen]. unfold first_address, last_address in *. cbn in *.
  set (k := bits - plen) in *.
  assert (Hk : 0 <= k <= bits) by lia.
  assert (Hpk : 0 < 2 ^ k) by (apply Z.pow_pos_nonneg; lia).
  destruct (summarize_loop_greedy bits (addr + 2 ^ k - 1) Hbits Hhi addr Hlo)
    as (nets & -> & Hgreedy).
  f_equal.
  inversion Hgreedy as [lo Hdone | lo n rest Hle' Hn Hdivn Hfit Hmax Hrest]; subst; [lia|].
  assert (Hkn : k <= n) by (apply Hmax; [lia | assumption | lia]).
  assert (Hnk : n <= k).
  { destruct (Z.le_gt_cases n k) as [|Hgt]; [assumption|].
    assert (2 ^ k < 2 ^ n) by (apply Z.pow_lt_mono_r; lia). lia. }
  assert (n = k) by lia. subst n.
  inversion Hrest as [lo Hdone | lo n rest' Hle'' _ _ _ _ _]; subst; [|lia].
  unfold k. f_equal. f_equal. lia.
Qed.

(** X1.  When the bounds of a row are the first and the last address of a block
    of the family, and the start is not after the end as Python compares
    addresses, the converter returns that block and nothing else; so a row
    whose two bounds are one address returns the host block of that address
    (/32, or /128 for IPv6), and the row of the whole address space returns
    the block of prefix length 0.  The comparison matters for a single IPv6
    address written with two different scope ids: neither text is then at
    most the other, and the converter raises [ValueError]. *)
Theorem convert_iprange_to_cidr_block :
  forall (ipv6 : bool) (row : dbip.Row) (net : ipaddress.Network)
         (startip endip : ipaddress.Address),
    cidr_block (ipaddress.max_prefixlen (family_of ipv6)) net ->
    ipaddress.parse_address (family_of ipv6) (dbip.Range_Start row) = OK startip ->
    ipaddress.parse_address (family_of ipv6) (dbip.Range_End row) = OK endip ->
    ipaddress._ip startip = first_address net ->
    ipaddress._ip endip = last_address (ipaddress.max_prefixlen (family_of ipv6)) net ->
    (ipaddress.address_le startip endip = true ->
     convert_iprange_to_cidr [row] ipv6
       = OK [mkCIDR (ipaddress.Network_str (family_of ipv6) net) (dbip.Country row)]) /\
    (ipaddress.address_le startip endip = false ->
     ipaddress.prefixlen net = ipaddress.max_prefixlen (family_of ipv6) /\
     ipaddress._scope_id startip <> ipaddress._scope_id endip /\
     convert_iprange_to_cidr [row] ipv6 = Raise ValueError).
Proof.
  intros ipv6 row net startip endip Hblock Hstart Hend Hfirst Hlast.
  pose proof (parse_address_range ipv6 _ _ Hstart) as [Hs0 _].
  pose proof (parse_address_range ipv6 _ _ Hend) as [_ He1].
  assert (Hbits : 0 <= ipaddress.max_prefixlen (family_of ipv6)) by (destruct ipv6; cbn; lia).
  unfold convert_iprange_to_cidr, convert_row. cbn [mapM].
  rewrite Hstart, Hend. cbn [bind]. split.
  - intros Hle.
    rewrite (summarize_cidr_block _ net startip endip Hbits Hblock Hfirst Hlast Hle)
      by congruence.
    reflexivity.
  - intros Hgt. unfold ipaddress.summarize_address_range.
    rewrite address_gt_le, Hgt. cbn [negb bind].
    assert (Hnot : ~ (ipaddress._ip startip < ipaddress._ip endip \/
                      (ipaddress._ip startip = ipaddress._ip endip /\
                       ipaddress._scope_id startip = ipaddress._scope_id endip))).
    { intros H. apply address_le_iff in H. congruence. }
    destruct Hblock as [Hplen _].
    unfold first_address, last_address in *.
    set (bits := ipaddress.max_prefixlen (family_of ipv6)) in *.
    assert (Hpow : 0 < 2 ^ (bits - ipaddress.prefixlen net)) by (apply Z.pow_pos_nonneg; lia).
    assert (Hone : 2 ^ (bits - ipaddress.prefixlen net) = 1).
    { destruct (Z.eq_dec (2 ^ (bits - ipaddress.prefixlen net)) 1); [assumption|].
      exfalso. apply Hnot. left. lia. }
    split; [|split; [|reflexivity]].
    + destruct (Z.eq_dec (ipaddress.prefixlen net) bits) as [|Hne]; [assumption|].
      assert (2 ^ 1 <= 2 ^ (bits - ipaddress.prefixlen net)) by (apply Z.pow_le_mono_r; lia).
      change (2 ^ 1) with 2 in *. lia.
    + intros Hscope. apply Hnot. right. split; [lia | assumption].
Qed.

Lemma convert_iprange_to_cidr_block_witness :
  convert_iprange_to_cidr [dbip.mkRow "fe80::1%eth0" "fe80::1%eth0" "IR"] true
    = OK [mkCIDR (ipaddress.Network_str (family_of true)
                    (ipaddress.mkNetwork 338288524927261089654018896841347694593 128))
                 "IR"] /\
  convert_iprange_to_cidr [dbip.mkRow "fe80::1%eth0" "fe80::1%eth1" "IR"] true
    = Raise ValueError.
Proof.
  split.
  - apply (convert_iprange_to_cidr_block true (dbip.mkRow "fe80::1%eth0" "fe80::1%eth0" "IR")
             (ipaddress.mkNetwork 338288524927261089654018896841347694593 128)
             (ipaddress.mkAddress 338288524927261089654018896841347694593 (Some "eth0"))
             (ipaddress.mkAddress 338288524927261089654018896841347694593 (Some "eth0"))).
    + split; [cbn; lia|]. exists 338288524927261089654018896841347694593. reflexivity.
    + reflexivity.
    + reflexivity.
    + reflexivity.
    + reflexivity.
    + reflexivity.
  - apply (convert_iprange_to_cidr_block true (dbip.mkRow "fe80::1%eth0" "fe80::1%eth1" "IR")
             (ipaddress.mkNetwork 338288524927261089654018896841347694593 128)
             (ipaddress.mkAddress 338288524927261089654018896841347694593 (Some "eth0"))
             (ipaddress.mkAddress 338288524927261089654018896841347694593 (Some "eth1"))).
    + split; [cbn; lia|]. exists 338288524927261089654018896841347694593. reflexivity.
    + reflexivity.
    + reflexivity.
    + reflexivity.
    + reflexivity.
    + reflexivity.
Defined.

(** ** ipaddress: an IPv4 address as text and back *)

Lemma parse_octet_py_str (v : Z) :
  0 <= v <= 255 -> ipaddress._parse_octet (py_str v) = OK v.
Proof.
  intros Hv.
  assert (Hall : forallb (fun k => match ipaddress._parse_octet (py_str (Z.of_nat k)) with
                                   | OK r => r =? Z.of_nat k
                                   | Raise _ => false
                                   end) (seq 0 256) = true) by (vm_compute; reflexivity).
  rewrite forallb_forall in Hall.
  specialize (Hall (Z.to_nat v)). rewrite Z2Nat.id in Hall by lia.
  destruct (ipaddress._parse_octet (py_str v)) as [r|e].
  - f_equal. apply Z.eqb_eq. apply Hall. apply in_seq. lia.
  - discriminate Hall. apply in_seq. lia.
Qed.

Lemma octet_bounds (n k : Z) : 0 <= Z.land (Z.shiftr n k) 255 <= 255.
Proof.
  assert (E : Z.land (Z.shiftr n k) 255 = Z.shiftr n k mod 256).
  { change 255 with (Z.ones 8). now rewrite Z.land_ones by lia. }
  rewrite E.
  pose proof (Z.mod_pos_bound (Z.shiftr n k) 256 ltac:(lia)). lia.
Qed.

Lemma from_bytes_octets (n : Z) :
  0 <= n < 2 ^ 32 ->
  ipaddress.from_bytes
    (map (fun k => Z.land (Z.shiftr n k) 255) [24; 16; 8; 0]) = n.
Proof.
  intros Hn. unfold ipaddress.from_bytes. cbn [map fold_left].
  change 255 with (Z.ones 8). rewrite !Z.land_ones by lia.
  rewrite !Z.shiftr_div_pow2 by lia.
  change (2 ^ 32) with 4294967296 in Hn.
  change (2 ^ 24) with 16777216. change (2 ^ 16) with 65536.
  change (2 ^ 8) with 256. change (2 ^ 0) with 1.
  rewrite Z.div_1_r.
  Z.div_mod_to_equations. lia.
Qed.

Lemma IPv4_str_parts (n : Z) :
  split "." (ipaddress.IPv4_str n)
  = map (fun k => py_str (Z.land (Z.shiftr n k) 255)) [24; 16; 8; 0].
Proof.
  unfold ipaddress.IPv4_str. apply split_join; [discriminate|].
  intros p Hp. apply in_map_iff in Hp as (k & <- & _). apply py_str_no_dot.
Qed.

Lemma IPv4_str_no_slash (n : Z) : contains "/" (ipaddress.IPv4_str n) = false.
Proof.
  unfold ipaddress.IPv4_str. apply join_contains; [reflexivity|].
  intros p Hp. apply in_map_iff in Hp as (k & <- & _). apply py_str_no_slash.
Qed.

Lemma IPv4_str_dotted (n : Z) : contains "." (ipaddress.IPv4_str n) = true.
Proof. unfold ipaddress.IPv4_str. cbn [map]. apply join_two_contains. Qed.

Lemma IPv4_str_nonempty (n : Z) : String.eqb (ipaddress.IPv4_str n) "" = false.
Proof.
  apply String.eqb_neq. intros E.
  pose proof (IPv4_str_dotted n) as H. rewrite E in H. discriminate.
Qed.

Lemma IPv4Address_IPv4_str (n : Z) :
  0 <= n < 2 ^ 32 -> ipaddress.IPv4Address (ipaddress.IPv4_str n) = OK n.
Proof.
  intros Hn. unfold ipaddress.IPv4Address.
  rewrite IPv4_str_no_slash, IPv4_str_nonempty, IPv4_str_parts.
  cbn [map List.length Nat.eqb negb mapM].
  rewrite !parse_octet_py_str by apply octet_bounds.
  cbn [bind ipaddress.as_address_error]. f_equal.
  exact (from_bytes_octets n Hn).
Qed.

(** X4.  The text of an IPv4 address reads back as the address, and the text the
    converter writes for an IPv4 network is taken apart by [split_row] into
    the text of its address and its prefix length. *)
Theorem IPv4_text_round_trip :
  forall (n : Z),
    0 <= n < 2 ^ 32 ->
    ipaddress.IPv4Address (ipaddress.IPv4_str n) = OK n /\
    forall (plen : Z) (country : string),
      split_row (mkCIDR (ipaddress.Network_str ipaddress.IPv4 (ipaddress.mkNetwork n plen))
                        country)
        = OK (mkSplit (ipaddress.IPv4_str n) plen country).
Proof.
  intros n Hn. split; [now apply IPv4Address_IPv4_str|].
  intros plen country.
  apply (split_row_reassemble (mkSplit (ipaddress.IPv4_str n) plen country)).
  apply IPv4_str_no_slash.
Qed.

Lemma IPv4_text_round_trip_witness :
  ipaddress.IPv4Address (ipaddress.IPv4_str 3405803781) = OK 3405803781 /\
  forall (plen : Z) (country : string),
    split_row (mkCIDR (ipaddress.Network_str ipaddress.IPv4
                         (ipaddress.mkNetwork 3405803781 plen)) country)
      = OK (mkSplit (ipaddress.IPv4_str 3405803781) plen country).
Proof.
  apply (IPv4_text_round_trip 3405803781). split.
  - apply Z.leb_le. reflexivity.
  - apply Z.ltb_lt. reflexivity.
Defined.

(** ** From the range table to the output: IPv4 *)

Lemma Network_str_IPv4_expandable (net : ipaddress.Network) (country : string) :
  expandable (mkCIDR (ipaddress.Network_str ipaddress.IPv4 net) country).
Proof.
  apply expandable_iff. destruct net as [addr plen].
  exists (mkSplit (ipaddress.IPv4_str addr) plen country).
  pose proof (split_row_reassemble (mkSplit (ipaddress.IPv4_str addr) plen country)
                (IPv4_str_no_slash addr)) as Hs.
  destruct (proj2 (generalize_OK_iff (mkSplit (ipaddress.IPv4_str addr) plen country)))
    as [item' Hg].
  { intros _ _. cbn [IP]. rewrite IPv4_str_parts. cbn. lia. }
  exists item'. split; assumption.
Qed.

Lemma convert_iprange_to_cidr_rows (df : list dbip.Row) (ipv6 : bool)
    (out : list CIDRRecord) :
  convert_iprange_to_cidr df ipv6 = OK out ->
  forall r, In r out ->
    exists row net, In row df /\ Country r = dbip.Country row /\
      Network r = ipaddress.Network_str (family_of ipv6) net.
Proof.
  unfold convert_iprange_to_cidr.
  destruct (mapM (convert_row ipv6) df) as [lists|] eqn:Hm; cbn [bind]; [|discriminate].
  intros [= <-] r Hr. apply in_concat in Hr as (l & Hl & Hr).
  destruct (Forall2_In_r _ _ _ _ (mapM_OK _ _ _ Hm) Hl) as (row & Hrow & Hconv).
  unfold convert_row in Hconv.
  destruct (ipaddress.parse_address _ (dbip.Range_Start row)); cbn [bind] in Hconv;
    [|discriminate].
  destruct (ipaddress.parse_address _ (dbip.Range_End row)); cbn [bind] in Hconv;
    [|discriminate].
  destruct (ipaddress.summarize_address_range _ _ _) as [nets|]; cbn [bind] in Hconv;
    [|discriminate].
  injection Hconv as <-. apply in_map_iff in Hr as (net & <- & _).
  exists row, net. auto.
Qed.

(** X17.  [expand_df] takes every frame of IPv4 networks that the converter
    returns, unless the frame is empty: no row of the converter makes it
    raise. *)
Theorem expand_df_accepts_converted :
  forall (S : Sorter) (df : list dbip.Row) (out : list CIDRRecord),
    convert_iprange_to_cidr df false = OK out -> out <> [] ->
    exists result_df, expand_df S out = OK result_df.
Proof.
  intros S df out Hconv Hne.
  destruct (expand_df_phases S out Hne) as (? & ? & ? & _ & _ & _ & H); [|eauto].
  apply Forall_forall. intros r Hr.
  destruct (convert_iprange_to_cidr_rows df false out Hconv r Hr) as (row & net & _ & _ & Hn).
  destruct r as [network country]. cbn in Hn. subst network.
  apply Network_str_IPv4_expandable.
Qed.

Lemma expand_df_accepts_converted_witness :
  exists result_df,
    expand_df stable_sorter [mkCIDR "10.0.0.1/32" "IR"; mkCIDR "10.0.0.2/31" "IR"]
      = OK result_df.
Proof.
  apply (expand_df_accepts_converted stable_sorter [dbip.mkRow "10.0.0.1" "10.0.0.3" "IR"]).
  - reflexivity.
  - discriminate.
Defined.

(** X18.  A row of the range table for one IPv4 address: the converter returns
    the /32 of the address, and [expand_df] turns that row into the /24
    around the address. *)
Theorem single_address_becomes_slash24 :
  forall (S : Sorter) (row : dbip.Row) (n : Z),
    ipaddress.IPv4Address (dbip.Range_Start row) = OK n ->
    ipaddress.IPv4Address (dbip.Range_End row) = OK n ->
    convert_iprange_to_cidr [row] false
      = OK [mkCIDR (ipaddress.IPv4_str n ++ "/32")%string (dbip.Country row)] /\
    expand_df S [mkCIDR (ipaddress.IPv4_str n ++ "/32")%string (dbip.Country row)]
      = OK [mkCIDR (ipaddress.IPv4_str (256 * (n / 256)) ++ "/24")%string (dbip.Country row)].
Proof.
  intros S row n Hstart Hend. split.
  - pose proof (IPv4Address_range _ _ Hstart) as Hn.
    assert (Hblock : cidr_block 32 (ipaddress.mkNetwork n 32)).
    { split; [cbn; lia|]. cbn. exists n. lia. }
    assert (Hlast : last_address 32 (ipaddress.mkNetwork n 32) = n).
    { unfold last_address. cbn. lia. }
    pose proof (summarize_cidr_block 32 (ipaddress.mkNetwork n 32)
                  (ipaddress.mkAddress n None) (ipaddress.mkAddress n None)
                  ltac:(lia) Hblock eq_refl (eq_sym Hlast)) as Hsum.
    rewrite Hlast in Hsum. unfold first_address in Hsum. cbn [ipaddress.network_address] in Hsum.
    unfold convert_iprange_to_cidr, convert_row. cbn [mapM family_of ipaddress.parse_address
      ipaddress.IPv4 ipaddress.max_prefixlen].
    rewrite Hstart, Hend. cbn [bind]. rewrite Hsum; [reflexivity | | lia | lia].
    apply address_le_iff. right. now split.
  - apply (expand_df_single S _ (mkSplit (ipaddress.IPv4_str n) 32 (dbip.Country row))
                            (mkSplit (ipaddress.IPv4_str (256 * (n / 256))) 24
                                     (dbip.Country row))).
    + apply (split_row_reassemble (mkSplit (ipaddress.IPv4_str n) 32 (dbip.Country row))).
      apply IPv4_str_no_slash.
    + rewrite IPv4_str_slash24. unfold ipaddress.IPv4_str. cbn [map].
      apply generalize_four_octets; apply py_str_no_dot.
Qed.

Lemma single_address_becomes_slash24_witness :
  convert_iprange_to_cidr [dbip.mkRow "203.0.113.5" "203.0.113.5" "IR"] false
    = OK [mkCIDR (ipaddress.IPv4_str 3405803781 ++ "/32")%string "IR"] /\
  expand_df stable_sorter [mkCIDR (ipaddress.IPv4_str 3405803781 ++ "/32")%string "IR"]
    = OK [mkCIDR (ipaddress.IPv4_str (256 * (3405803781 / 256)) ++ "/24")%string "IR"].
Proof.
  exact (single_address_becomes_slash24 stable_sorter
           (dbip.mkRow "203.0.113.5" "203.0.113.5" "IR") 3405803781 eq_refl eq_refl).
Defined.

(** ** main: the countries of the output *)

Lemma CIDRRecord_eqb_iff (a b : CIDRRecord) : CIDRRecord_eqb a b = true <-> a = b.
Proof.
  destruct a as [n1 c1], b as [n2 c2]. unfold CIDRRecord_eqb. simpl.
  rewrite andb_true_iff, !String.eqb_eq.
  split; [intros [-> ->] | intros [= -> ->]]; auto.
Qed.

(** Every optional file labels its rows with the ISO code of its name. *)
Definition optional_files_labelled (fs : FileSystem) : Prop :=
  forall ipv6 iso rows,
    as_cidrs_csv fs ipv6 iso = Some rows \/ manual_csv fs ipv6 iso = Some rows ->
    Forall (fun r => Country r = iso) rows.

Lemma optional_rows_labelled (fs : FileSystem) (ipv6 : bool) (iso : string) :
  optional_files_labelled fs ->
  Forall (fun r => Country r = iso) (optional_rows (as_cidrs_csv fs ipv6 iso)) /\
  Forall (fun r => Country r = iso) (optional_rows (manual_csv fs ipv6 iso)).
Proof.
  intros H. split.
  - destruct (as_cidrs_csv fs ipv6 iso) as [rows|] eqn:E; [|constructor].
    apply (H ipv6 iso rows). now left.
  - destruct (manual_csv fs ipv6 iso) as [rows|] eqn:E; [|constructor].
    apply (H ipv6 iso rows). now right.
Qed.

Lemma convert_iprange_to_cidr_labelled (df : list dbip.Row) (ipv6 : bool)
    (iso : string) (out : list CIDRRecord) :
  Forall (fun row => dbip.Country row = iso) df ->
  convert_iprange_to_cidr df ipv6 = OK out ->
  Forall (fun r => Country r = iso) out.
Proof.
  intros Hdf Hconv. rewrite Forall_forall in *. intros r Hr.
  destruct (convert_iprange_to_cidr_rows df ipv6 out Hconv r Hr) as (row & _ & Hrow & -> & _).
  now apply Hdf.
Qed.

(** The rows one turn of the loop appends bear the ISO code of the
    geolocation. *)
Lemma aggregate_geolocation_labelled (fs : FileSystem) (a4 a6 : list CIDRRecord)
    (g : Geolocation) (log : list Event) (a4' a6' : list CIDRRecord) :
  optional_files_labelled fs ->
  aggregate_geolocation fs (a4, a6) g = (log, OK (a4', a6')) ->
  exists new4 new6,
    a4' = a4 ++ new4 /\ a6' = a6 ++ new6 /\
    Forall (fun r => Country r = iso_code g) (new4 ++ new6).
Proof.
  intros Hopt Hrun.
  apply aggregate_geolocation_OK in Hrun
    as (df & geoinfo_df & blocks4 & blocks6 & dbip_ipv4 & dbip_ipv6 & geo_id & ito_df
        & _ & _ & _ & _ & Hito & H4 & H6 & _ & _ & -> & ->).
  eexists. eexists. split; [reflexivity|]. split; [reflexivity|].
  assert (Hfilter : forall (p : dbip.Row -> bool),
            Forall (fun row => dbip.Country row = iso_code g)
              (filter p (filter (fun r => negb (isna (dbip.Country r))
                                          && String.eqb (dbip.Country r) (iso_code g)) df))).
  { intros p. apply Forall_forall. intros row Hrow.
    apply filter_In in Hrow as [Hrow _]. apply filter_In in Hrow as [_ Hrow].
    apply andb_true_iff in Hrow as [_ Hrow]. now apply String.eqb_eq. }
  assert (Hgeo : forall blocks,
            Forall (fun r => Country r = iso_code g) (geolite2_rows blocks geo_id (iso_code g))).
  { intros blocks. apply Forall_forall. intros r Hr.
    apply in_map_iff in Hr as (b & <- & _). reflexivity. }
  destruct (optional_rows_labelled fs false (iso_code g) Hopt) as [Has4 Hman4].
  destruct (optional_rows_labelled fs true (iso_code g) Hopt) as [Has6 Hman6].
  repeat (apply Forall_app; split); try assumption; try apply Hgeo.
  - exact (convert_iprange_to_cidr_labelled _ _ _ _ (Hfilter _) H4).
  - apply Forall_forall. intros r Hr. apply in_map_iff in Hr as (ip & <- & Hip).
    cbn [Country]. destruct (String.eqb_spec (iso_code g) "IR") as [->|_]; [reflexivity|].
    subst ito_df. destruct Hip.
  - exact (convert_iprange_to_cidr_labelled _ _ _ _ (Hfilter _) H6).
Qed.

Lemma aggregate_from_labelled (fs : FileSystem) (isos : list string)
    (todo : list Geolocation) :
  optional_files_labelled fs ->
  (forall g, In g todo -> In (iso_code g) isos) ->
  forall (a4 a6 : list CIDRRecord) (log : list Event) (b4 b6 : list CIDRRecord),
    aggregate_from fs (a4, a6) todo = (log, OK (b4, b6)) ->
    Forall (fun r => In (Country r) isos) (a4 ++ a6) ->
    Forall (fun r => In (Country r) isos) (b4 ++ b6).
Proof.
  intros Hopt. induction todo as [|g rest IH]; intros Hisos a4 a6 log b4 b6;
    cbn [aggregate_from].
  - unfold ret. now intros [= _ <- <-].
  - destruct (aggregate_geolocation fs (a4, a6) g) as [log1 [[a4' a6']|e]] eqn:Hg;
      cbn [bindIO]; [|discriminate].
    destruct (aggregate_from fs (a4', a6') rest) as [log2 r] eqn:Hrest.
    intros [= _ ->] Hstart.
    apply (IH (fun g' Hg' => Hisos g' (or_intror Hg')) _ _ _ _ _ Hrest).
    destruct (aggregate_geolocation_labelled _ _ _ _ _ _ _ Hopt Hg)
      as (new4 & new6 & -> & -> & Hnew).
    apply Forall_app in Hstart as [H4 H6]. apply Forall_app in Hnew as [Hn4 Hn6].
    assert (Hin : forall l, Forall (fun r => Country r = iso_code g) l ->
                    Forall (fun r => In (Country r) isos) l).
    { intros l Hl. eapply Forall_impl; [|exact Hl]. cbn beta. intros r ->.
      apply Hisos. now left. }
    repeat (apply Forall_app; split); auto.
Qed.

(** X22.  When every optional file labels its rows with the ISO code of its
    name, the country column of the file that [main] writes holds nothing but
    "IR", "CN" and "RU", and every line has the two cells network and
    country. *)
Theorem main_output_countries :
  forall (S : Sorter) (fs : FileSystem) (path : string) (content : CsvFile),
    optional_files_labelled fs ->
    In (WriteFile path content) (fst (main S fs)) ->
    header content = ["Network"; "Country"] /\
    Forall (fun line => exists network country,
              line = [network; country] /\ In country ["IR"; "CN"; "RU"])
           (lines content).
Proof.
  intros S fs path content Hopt Hin.
  destruct (data_dir fs) eqn:Hdir.
  2:{ unfold main in Hin. rewrite Hdir in Hin. destruct Hin. }
  pose proof (reads_only_aggregate_from fs ([], []) geolocations) as Hreads.
  fold (aggregate fs) in Hreads. unfold reads_only in Hreads.
  rewrite (main_run S fs Hdir) in Hin.
  destruct (aggregate fs) as [log [[a4 a6]|e]] eqn:Hagg; cbn [fst] in *.
  2:{ rewrite Forall_forall in Hreads. apply Hreads in Hin. discriminate. }
  destruct (expand_df S _) as [expanded|e] eqn:Hexp; cbn [fst] in Hin.
  2:{ rewrite Forall_forall in Hreads. apply Hreads in Hin. discriminate. }
  apply in_app_or in Hin as [Hin|[Hin|[Hin|[]]]].
  { rewrite Forall_forall in Hreads. apply Hreads in Hin. discriminate. }
  { discriminate. }
  injection Hin as _ <-.
  split; [reflexivity|].
  assert (Hagg' : Forall (fun r => In (Country r) ["IR"; "CN"; "RU"]) (a4 ++ a6)).
  { apply (aggregate_from_labelled fs _ geolocations Hopt) with (a4 := []) (a6 := [])
      (log := log); [|exact Hagg | constructor].
    intros g [<-|[<-|[<-|[]]]]; cbn; tauto. }
  apply Forall_app in Hagg' as [H4 H6]. rewrite Forall_forall in H4, H6.
  cbn [to_csv lines]. apply Forall_forall. intros line Hline.
  apply in_map_iff in Hline as (r & <- & Hr).
  exists (Network r), (Country r). split; [reflexivity|].
  unfold concat_df in Hr. apply in_app_or in Hr as [Hr|Hr].
  - destruct (expand_df_countries S _ _ Hexp r Hr) as (row & Hrow & ->).
    apply H4. now apply (drop_duplicates_incl _ _ CIDRRecord_eqb_iff) in Hrow.
  - apply H6. now apply (drop_duplicates_incl _ _ CIDRRecord_eqb_iff) in Hr.
Qed.

Lemma main_output_countries_witness :
  header (mkCsv ["Network"; "Country"]
            [["1.0.1.0/24"; "CN"]; ["5.160.0.0/16"; "IR"]; ["1.0.0.0/30"; "IR"];
             ["2001:db8::/112"; "IR"]]) = ["Network"; "Country"] /\
  Forall (fun line => exists network country,
            line = [network; country] /\ In country ["IR"; "CN"; "RU"])
         (lines (mkCsv ["Network"; "Country"]
                   [["1.0.1.0/24"; "CN"]; ["5.160.0.0/16"; "IR"]; ["1.0.0.0/30"; "IR"];
                    ["2001:db8::/112"; "IR"]])).
Proof.
  apply (main_output_countries stable_sorter example_fs "./Aggregated_Data/agg_cidrs.csv").
  - intros ipv6 iso rows [H|H]; discriminate H.
  - vm_compute. repeat (first [left; reflexivity | right]).
Defined.

(** ** ipaddress: an IPv6 address as text and back *)

(** *** The text of a hextet *)

Fixpoint all_from (f : Z -> bool) (start : Z) (count : nat) : bool :=
  match count with
  | O => true
  | S c => f start && all_from f (start + 1) c
  end.

Lemma all_from_spec (f : Z -> bool) (count : nat) :
  forall start, all_from f start count = true ->
  forall z, start <= z < start + Z.of_nat count -> f z = true.
Proof.
  induction count as [|c IH]; intros start H z Hz; [lia|].
  cbn [all_from] in H. apply andb_true_iff in H as [H0 H1].
  destruct (Z.eq_dec z start) as [->|Hne]; [assumption|].
  apply (IH (start + 1) H1). lia.
Qed.

(** What the parser needs of the text [h] of a hextet of value [v]. *)
Record hextet_text (h : string) (v : Z) : Prop := mkHextetText {
  hextet_parse : ipaddress._parse_hextet h = OK v;
  hextet_nonempty : String.eqb h "" = false;
  hextet_no_colon : contains ":" h = false;
  hextet_no_dot : contains "." h = false;
  hextet_no_slash : contains "/" h = false;
  hextet_no_percent : contains "%" h = false;
  hextet_zero : String.eqb h "0" = true -> v = 0 }.

Definition hextet_text_ok (v : Z) : bool :=
  let h := ipaddress.hex v in
  match ipaddress._parse_hextet h with OK r => r =? v | Raise _ => false end
  && negb (String.eqb h "")
  && negb (contains ":" h) && negb (contains "." h)
  && negb (contains "/" h) && negb (contains "%" h)
  && Bool.eqb (String.eqb h "0") (v =? 0).

Lemma hextet_texts_ok : all_from hextet_text_ok 0 (Z.to_nat 65536) = true.
Proof. vm_compute. reflexivity. Qed.

Lemma hex_hextet_text (v : Z) : 0 <= v < 65536 -> hextet_text (ipaddress.hex v) v.
Proof.
  intros Hv.
  pose proof (all_from_spec _ _ 0 hextet_texts_ok v) as H.
  rewrite Z2Nat.id in H by lia. specialize (H ltac:(lia)).
  unfold hextet_text_ok in H. cbv zeta in H.
  repeat (apply andb_true_iff in H as [H ?]).
  repeat match goal with
         | E : negb _ = true |- _ => apply negb_true_iff in E
         end.
  destruct (ipaddress._parse_hextet (ipaddress.hex v)) as [r|] eqn:Hp; [|discriminate].
  apply Z.eqb_eq in H. subst r.
  constructor; try assumption; try reflexivity.
  intros Hz.
  match goal with
  | E : Bool.eqb _ _ = true |- _ => apply Bool.eqb_prop in E; rewrite Hz in E
  end.
  apply Z.eqb_eq. congruence.
Qed.

(** *** The run of zeros that is compressed *)

(** After the hextets before position [k]: the best run lies before [k] and
    holds only "0", and so does the run that is open at [k]. *)
Definition run_inv (hs : list string) (k : nat) (st : ipaddress.zero_run) : Prop :=
  (ipaddress.best_doublecolon_start st + ipaddress.best_doublecolon_len st <= k)%nat /\
  (forall i, (ipaddress.best_doublecolon_start st <= i
              < ipaddress.best_doublecolon_start st + ipaddress.best_doublecolon_len st)%nat ->
             nth i hs "" = "0") /\
  match ipaddress.doublecolon_start st with
  | Some s => (s + ipaddress.doublecolon_len st = k)%nat /\
              forall i, (s <= i < k)%nat -> nth i hs "" = "0"
  | None => ipaddress.doublecolon_len st = 0%nat
  end.

Lemma scan_hextet_inv (hs : list string) (k : nat) (st : ipaddress.zero_run) :
  run_inv hs k st -> run_inv hs (S k) (ipaddress.scan_hextet st (k, nth k hs "")).
Proof.
  destruct st as [bs bl ds dl]. unfold run_inv, ipaddress.scan_hextet.
  cbn [ipaddress.best_doublecolon_start ipaddress.best_doublecolon_len
       ipaddress.doublecolon_start ipaddress.doublecolon_len].
  intros (Hb & Hbz & Hcur).
  destruct (String.eqb_spec (nth k hs "") "0") as [Hz|Hnz].
  - assert (Hrun : forall s, match ds with Some i => i | None => k end = s ->
              (s + S dl = S k)%nat /\ forall i, (s <= i < S k)%nat -> nth i hs "" = "0").
    { intros s Hs. destruct ds as [s0|].
      - subst s0. destruct Hcur as [Hk Hzs]. split; [lia|].
        intros i Hi. destruct (Nat.eq_dec i k) as [->|]; [assumption | apply Hzs; lia].
      - subst s. split; [lia|].
        intros i Hi. assert (i = k) by lia. now subst. }
    destruct (Hrun _ eq_refl) as [Hlen Hzeros].
    destruct (Nat.ltb_spec bl (S dl));
      cbn [ipaddress.best_doublecolon_start ipaddress.best_doublecolon_len
           ipaddress.doublecolon_start ipaddress.doublecolon_len].
    + split; [lia|]. split; [|split; assumption].
      intros i Hi. apply Hzeros. lia.
    + split; [lia|]. split; [assumption | split; assumption].
  - cbn [ipaddress.best_doublecolon_start ipaddress.best_doublecolon_len
         ipaddress.doublecolon_start ipaddress.doublecolon_len].
    split; [lia|]. split; [assumption | reflexivity].
Qed.

Lemma scan_fold_inv (hs : list string) (suffix : list string) :
  forall (k : nat) (st : ipaddress.zero_run),
    run_inv hs k st ->
    (forall j, (j < List.length suffix)%nat -> nth (k + j) hs "" = nth j suffix "") ->
    run_inv hs (k + List.length suffix)
      (fold_left ipaddress.scan_hextet (combine (seq k (List.length suffix)) suffix) st).
Proof.
  induction suffix as [|h rest IH]; intros k st Hinv Hnth; cbn [List.length seq combine fold_left].
  - now rewrite Nat.add_0_r.
  - replace (k + S (List.length rest))%nat with (S k + List.length rest)%nat by lia.
    apply IH.
    + pose proof (Hnth 0%nat ltac:(cbn; lia)) as H0. cbn in H0.
      rewrite Nat.add_0_r in H0. rewrite <- H0. now apply scan_hextet_inv.
    + intros j Hj. specialize (Hnth (S j) ltac:(cbn; lia)). cbn in Hnth.
      now replace (S k + j)%nat with (k + S j)%nat by lia.
Qed.

Lemma best_run_zeros (hs : list string) :
  let st := fold_left ipaddress.scan_hextet (combine (seq 0 (List.length hs)) hs)
                      (ipaddress.mkRun 0 0 None 0) in
  (ipaddress.best_doublecolon_start st + ipaddress.best_doublecolon_len st
   <= List.length hs)%nat /\
  forall i, (ipaddress.best_doublecolon_start st <= i
             < ipaddress.best_doublecolon_start st + ipaddress.best_doublecolon_len st)%nat ->
            nth i hs "" = "0".
Proof.
  cbv zeta.
  destruct (scan_fold_inv hs hs 0 (ipaddress.mkRun 0 0 None 0)) as (H1 & H2 & _).
  - split; [cbn; lia|]. split; [cbn; intros i Hi; lia | reflexivity].
  - intros j _. reflexivity.
  - split; assumption.
Qed.

(** *** Reading what was written *)

Definition part_text (p : string) : Prop :=
  contains ":" p = false /\ contains "/" p = false /\ contains "%" p = false.

Lemma join_nonempty (parts : list string) (x y : string) :
  String.eqb (join ":" (x :: y :: parts)) "" = false.
Proof.
  apply String.eqb_neq. intros E.
  pose proof (join_two_contains ":" x y parts) as H. rewrite E in H. discriminate.
Qed.

(** A text with no "/" and no "%" is an address without a scope id. *)
Lemma IPv6Address_no_scope (address : string) :
  contains "/" address = false -> contains "%" address = false ->
  ipaddress.IPv6Address address
  = (ip_int <- ipaddress._ip_int_from_string_v6 address ;;
     OK (ipaddress.mkAddress ip_int None))%py.
Proof.
  intros Hslash Hscope. unfold ipaddress.IPv6Address, ipaddress._split_scope_id.
  now rewrite Hslash, (split_no_sep "%" address Hscope).
Qed.

Lemma split_join_parts (x y : string) (parts : list string) :
  Forall part_text (x :: y :: parts) ->
  split ":" (join ":" (x :: y :: parts)) = x :: y :: parts.
Proof.
  intros H. rewrite Forall_forall in H.
  apply split_join; [discriminate|]. intros p Hp. apply (H p Hp).
Qed.

Lemma hextet_part_text (h : string) (v : Z) : hextet_text h v -> part_text h.
Proof. intros [_ _ ? _ ? ? _]. repeat split; assumption. Qed.

Lemma empty_part_text : part_text "".
Proof. repeat split. Qed.

Ltac v6_parts :=
  repeat constructor;
  first [ apply empty_part_text | eapply hextet_part_text; eassumption ].

Ltac v6_read :=
  repeat (progress
    (cbn -[ipaddress._parse_hextet Z.shiftl Z.lor Z.mul Z.of_nat];
     repeat match goal with
            | H : ipaddress._parse_hextet ?h = OK _
              |- context [ipaddress._parse_hextet ?h] => rewrite H
            | H : String.eqb ?h "" = false |- context [String.eqb ?h ""] => rewrite H
            | H : contains "." ?h = false |- context [contains "." ?h] => rewrite H
            end)).

Ltac v6_shifts :=
  repeat match goal with
         | |- context [16 * Z.of_nat ?k] =>
             let c := eval compute in (16 * Z.of_nat k) in
             change (16 * Z.of_nat k) with c
         end;
  rewrite ?Z.shiftl_0_l, ?Z.lor_0_l, ?Z.lor_0_r, ?Z.shiftl_0_r;
  repeat (rewrite Z.shiftl_shiftl by lia;
          match goal with
          | |- context [Z.shiftl _ (?a + ?b)] =>
              let c := eval compute in (a + b) in change (a + b) with c
          end);
  reflexivity.

Ltac v6_case :=
  match goal with
  | |- ipaddress._ip_int_from_string_v6 (join ":" (?x :: ?y :: ?parts)) = _ =>
      let Hsplit := fresh "Hsplit" in
      assert (Hsplit : split ":" (join ":" (x :: y :: parts)) = x :: y :: parts)
        by (apply split_join_parts; v6_parts);
      unfold ipaddress._ip_int_from_string_v6;
      rewrite join_nonempty, Hsplit
  end;
  repeat match goal with
         | G : hextet_text _ _ |- _ => destruct G
         end;
  v6_read; f_equal; v6_shifts.

Ltac v6_zero Hz i :=
  try (let E := fresh "E" in
       pose proof (Hz i ltac:(lia)) as E; cbn [nth] in E; subst;
       repeat match goal with
              | G : hextet_text "0" ?v |- _ =>
                  let Ev := fresh "Ev" in
                  pose proof (hextet_zero _ _ G eq_refl) as Ev; subst v; clear G
              end).

(** Whatever run of zeros is compressed, the text of eight hextets reads
    back as the eight hextets. *)
Lemma ip_int_compress_hextets (h0 h1 h2 h3 h4 h5 h6 h7 : string)
    (v0 v1 v2 v3 v4 v5 v6 v7 : Z) :
  hextet_text h0 v0 -> hextet_text h1 v1 -> hextet_text h2 v2 -> hextet_text h3 v3 ->
  hextet_text h4 v4 -> hextet_text h5 v5 -> hextet_text h6 v6 -> hextet_text h7 v7 ->
  ipaddress._ip_int_from_string_v6
    (join ":" (ipaddress._compress_hextets [h0; h1; h2; h3; h4; h5; h6; h7]))
  = OK (ipaddress.shift_in 0 [v0; v1; v2; v3; v4; v5; v6; v7]).
Proof.
  intros G0 G1 G2 G3 G4 G5 G6 G7.
  pose proof (best_run_zeros [h0; h1; h2; h3; h4; h5; h6; h7]) as Hrun. cbv zeta in Hrun.
  unfold ipaddress._compress_hextets.
  set (st := fold_left ipaddress.scan_hextet _ _) in *. clearbody st.
  destruct st as [bs bl ds dl].
  cbn [ipaddress.best_doublecolon_start ipaddress.best_doublecolon_len List.length] in *.
  destruct Hrun as [Hle Hz].
  destruct (Nat.ltb_spec 1 bl) as [Hbl|Hbl]; cbv beta iota zeta; [|v6_case].
  do 7 (destruct bs as [|bs];
        [ do 9 (destruct bl as [|bl];
                [ try (exfalso; lia);
                  v6_zero Hz 0%nat; v6_zero Hz 1%nat; v6_zero Hz 2%nat; v6_zero Hz 3%nat;
                  v6_zero Hz 4%nat; v6_zero Hz 5%nat; v6_zero Hz 6%nat; v6_zero Hz 7%nat;
                  cbv [Nat.eqb Nat.add firstn skipn List.app List.length];
                  v6_case
                | ]);
          exfalso; lia
        | ]).
  exfalso. lia.
Qed.

Lemma hextet_step (n k : Z) :
  0 <= k ->
  Z.lor (Z.shiftl (Z.shiftr n (k + 16)) 16) (Z.land (Z.shiftr n k) 65535) = Z.shiftr n k.
Proof.
  intros Hk. apply Z.bits_inj'. intros i Hi.
  rewrite Z.lor_spec, Z.land_spec, !Z.shiftr_spec by lia.
  change 65535 with (Z.ones 16).
  destruct (Z.lt_ge_cases i 16) as [Hlow|Hhigh].
  - rewrite Z.shiftl_spec_low by assumption.
    rewrite Z.ones_spec_low by lia. now rewrite andb_true_r.
  - rewrite Z.shiftl_spec by lia. rewrite Z.shiftr_spec by lia.
    rewrite Z.ones_spec_high by lia. rewrite andb_false_r, orb_false_r.
    f_equal. lia.
Qed.

Lemma hextet_bounds (n k : Z) : 0 <= Z.land (Z.shiftr n k) 65535 < 65536.
Proof.
  assert (E : Z.land (Z.shiftr n k) 65535 = Z.shiftr n k mod 65536).
  { change 65535 with (Z.ones 16). now rewrite Z.land_ones by lia. }
  rewrite E. apply Z.mod_pos_bound. lia.
Qed.

Lemma shift_in_hextets (n : Z) :
  0 <= n < 2 ^ 128 ->
  ipaddress.shift_in 0
    (map (fun k => Z.land (Z.shiftr n k) 65535) [112; 96; 80; 64; 48; 32; 16; 0]) = n.
Proof.
  intros Hn. unfold ipaddress.shift_in. cbn [map fold_left].
  assert (H128 : Z.shiftr n 128 = 0).
  { rewrite Z.shiftr_div_pow2 by lia. apply Z.div_small. lia. }
  pose proof (hextet_step n 112 ltac:(lia)) as E7. change (112 + 16) with 128 in E7.
  rewrite H128 in E7. rewrite E7.
  pose proof (hextet_step n 96 ltac:(lia)) as E6. change (96 + 16) with 112 in E6. rewrite E6.
  pose proof (hextet_step n 80 ltac:(lia)) as E5. change (80 + 16) with 96 in E5. rewrite E5.
  pose proof (hextet_step n 64 ltac:(lia)) as E4. change (64 + 16) with 80 in E4. rewrite E4.
  pose proof (hextet_step n 48 ltac:(lia)) as E3. change (48 + 16) with 64 in E3. rewrite E3.
  pose proof (hextet_step n 32 ltac:(lia)) as E2. change (32 + 16) with 48 in E2. rewrite E2.
  pose proof (hextet_step n 16 ltac:(lia)) as E1. change (16 + 16) with 32 in E1. rewrite E1.
  pose proof (hextet_step n 0 ltac:(lia)) as E0. change (0 + 16) with 16 in E0. rewrite E0.
  apply Z.shiftr_0_r.
Qed.

Lemma compress_hextets_parts (hs : list string) (p : string) :
  In p (ipaddress._compress_hextets hs) -> In p hs \/ p = "".
Proof.
  assert (Hfirst : forall (k : nat) (l : list string), In p (firstn k l) -> In p l).
  { intros k l H. rewrite <- (firstn_skipn k l). apply in_or_app. now left. }
  assert (Hskip : forall (k : nat) (l : list string), In p (skipn k l) -> In p l).
  { intros k l H. rewrite <- (firstn_skipn k l). apply in_or_app. now right. }
  unfold ipaddress._compress_hextets.
  destruct (1 <? _)%nat; [|now left]. cbv zeta.
  set (hs' := if (_ =? _)%nat then hs ++ [""] else hs).
  assert (Hhs' : In p hs' -> In p hs \/ p = "").
  { unfold hs'. destruct (_ =? _)%nat; [|now left].
    intros H. apply in_app_or in H as [H|[<-|[]]]; auto. }
  assert (Hrep : In p (firstn (ipaddress.best_doublecolon_start
                                 (fold_left ipaddress.scan_hextet
                                    (combine (seq 0 (List.length hs)) hs)
                                    (ipaddress.mkRun 0 0 None 0))) hs'
                       ++ "" :: skipn (ipaddress.best_doublecolon_start
                                 (fold_left ipaddress.scan_hextet
                                    (combine (seq 0 (List.length hs)) hs)
                                    (ipaddress.mkRun 0 0 None 0))
                               + ipaddress.best_doublecolon_len
                                 (fold_left ipaddress.scan_hextet
                                    (combine (seq 0 (List.length hs)) hs)
                                    (ipaddress.mkRun 0 0 None 0))) hs')
                 -> In p hs \/ p = "").
  { intros H. apply in_app_or in H as [H|[<-|H]]; [| now right |].
    - apply Hhs'. now apply (Hfirst _ _ H).
    - apply Hhs'. now apply (Hskip _ _ H). }
  destruct (_ =? 0)%nat; [intros [<-|H]; [now right | now apply Hrep] | exact Hrep].
Qed.

(** The text of an IPv6 address: its parts are hextets or empty. *)
Lemma IPv6_str_parts (n : Z) (p : string) :
  In p (ipaddress._compress_hextets
          (map (fun k => ipaddress.hex (Z.land (Z.shiftr n k) 65535))
               [112; 96; 80; 64; 48; 32; 16; 0])) ->
  part_text p /\ contains "." p = false.
Proof.
  intros Hp. apply compress_hextets_parts in Hp as [Hp| ->];
    [|split; [apply empty_part_text | reflexivity]].
  apply in_map_iff in Hp as (k & <- & _).
  pose proof (hex_hextet_text _ (hextet_bounds n k)) as G.
  split; [exact (hextet_part_text _ _ G) | now destruct G].
Qed.

Lemma IPv6_str_no (c : ascii) (n : Z) :
  c = "/"%char \/ c = "%"%char \/ c = "."%char ->
  contains c (ipaddress.IPv6_str n) = false.
Proof.
  intros Hc. unfold ipaddress.IPv6_str.
  apply join_contains; [destruct Hc as [->|[->| ->]]; reflexivity|].
  intros p Hp. destruct (IPv6_str_parts n p Hp) as [(_ & Hslash & Hscope) Hdot].
  destruct Hc as [->|[->| ->]]; assumption.
Qed.

(** Reading the text of an IPv6 address gives the address, without a scope
    id. *)
Lemma IPv6Address_IPv6_str (n : Z) :
  0 <= n < 2 ^ 128 ->
  ipaddress.IPv6Address (ipaddress.IPv6_str n) = OK (ipaddress.mkAddress n None).
Proof.
  intros Hn.
  rewrite IPv6Address_no_scope by (apply IPv6_str_no; auto).
  unfold ipaddress.IPv6_str. cbn [map].
  rewrite (ip_int_compress_hextets _ _ _ _ _ _ _ _
             _ _ _ _ _ _ _ _
             (hex_hextet_text _ (hextet_bounds n 112)) (hex_hextet_text _ (hextet_bounds n 96))
             (hex_hextet_text _ (hextet_bounds n 80)) (hex_hextet_text _ (hextet_bounds n 64))
             (hex_hextet_text _ (hextet_bounds n 48)) (hex_hextet_text _ (hextet_bounds n 32))
             (hex_hextet_text _ (hextet_bounds n 16)) (hex_hextet_text _ (hextet_bounds n 0))).
  cbn [bind]. do 2 f_equal. exact (shift_in_hextets n Hn).
Qed.

(** X5.  The text of an IPv6 address, whichever run of zero hextets is written
    as "::", reads back as the address, with no scope id; and it holds no
    "/" and no ".", so a network text of the converter has one "/" and
    [expand_df] does not take an IPv6 address for a dotted one. *)
Theorem IPv6_text_round_trip :
  forall (n : Z),
    0 <= n < 2 ^ 128 ->
    ipaddress.IPv6Address (ipaddress.IPv6_str n) = OK (ipaddress.mkAddress n None) /\
    contains "/" (ipaddress.IPv6_str n) = false /\
    contains "." (ipaddress.IPv6_str n) = false.
Proof.
  intros n Hn. split; [now apply IPv6Address_IPv6_str|].
  split; apply IPv6_str_no; auto.
Qed.

Lemma IPv6_text_round_trip_witness :
  ipaddress.IPv6Address (ipaddress.IPv6_str 42540766411282592856903984951653826561)
    = OK (ipaddress.mkAddress 42540766411282592856903984951653826561 None) /\
  contains "/" (ipaddress.IPv6_str 42540766411282592856903984951653826561) = false /\
  contains "." (ipaddress.IPv6_str 42540766411282592856903984951653826561) = false.
Proof.
  apply (IPv6_text_round_trip 42540766411282592856903984951653826561). split.
  - apply Z.leb_le. reflexivity.
  - apply Z.ltb_lt. reflexivity.
Defined.

(** ** convert_iprange_to_cidr: the summary of a range (lines 30-43) *)






(** The converter on small ranges of both families: a range that is one
    block, a range of several blocks of different sizes, single addresses,
    a range whose end lies before its start, and one IPv6 address given
    with two scope ids. *)
Lemma convert_iprange_to_cidr_examples :
  convert_iprange_to_cidr [dbip.mkRow "1.0.0.0" "1.0.0.3" "IR"] false
    = OK [mkCIDR "1.0.0.0/30" "IR"] /\
  convert_iprange_to_cidr [dbip.mkRow "10.0.0.1" "10.0.0.6" "IR"] false
    = OK [mkCIDR "10.0.0.1/32" "IR"; mkCIDR "10.0.0.2/31" "IR";
          mkCIDR "10.0.0.4/31" "IR"; mkCIDR "10.0.0.6/32" "IR"] /\
  convert_iprange_to_cidr [dbip.mkRow "1.2.3.4" "1.2.3.4" "IR"] false
    = OK [mkCIDR "1.2.3.4/32" "IR"] /\
  convert_iprange_to_cidr [dbip.mkRow "::1" "::1" "IR"] true
    = OK [mkCIDR "::1/128" "IR"] /\
  convert_iprange_to_cidr [dbip.mkRow "2001:db8::" "2001:db8::ffff" "IR"] true
    = OK [mkCIDR "2001:db8::/112" "IR"] /\
  convert_iprange_to_cidr [dbip.mkRow "fe80::%eth0" "fe80::1%eth1" "IR"] true
    = OK [mkCIDR "fe80::/127" "IR"] /\
  convert_iprange_to_cidr [dbip.mkRow "1.0.0.3" "1.0.0.0" "IR"] false
    = Raise ValueError /\
  convert_iprange_to_cidr [dbip.mkRow "fe80::1%eth0" "fe80::1%eth1" "IR"] true
    = Raise ValueError.
Proof. repeat split; reflexivity. Qed.

(** ** convert_iprange_to_cidr: how many networks a row gives *)

Lemma pow2_divide_le (a b : Z) : 0 <= a <= b -> (2 ^ a | 2 ^ b).
Proof.
  intros H. exists (2 ^ (b - a)). rewrite <- Z.pow_add_r by lia. f_equal. lia.
Qed.

(** Past an address aligned on [2 ^ (n + 1)] or not: the address after a
    block of size [2 ^ n] that could not be larger for its alignment is
    aligned on [2 ^ (n + 1)]. *)
Lemma next_block_aligned (lo n : Z) :
  0 <= n -> (2 ^ n | lo) -> ~ (2 ^ (n + 1) | lo) -> (2 ^ (n + 1) | lo + 2 ^ n).
Proof.
  intros Hn [q Hq] Hnot.
  rewrite Z.pow_add_r, Z.pow_1_r in * by lia.
  destruct (Z.even q) eqn:Heven.
  - exfalso. apply Hnot. apply Z.even_spec in Heven as [q' ->].
    exists q'. lia.
  - assert (Hodd : Z.odd q = true) by (rewrite <- Z.negb_even, Heven; reflexivity).
    apply Z.odd_spec in Hodd as [q' ->].
    exists (q' + 1). lia.
Qed.

(** When fewer than [2 ^ m] addresses are left from an address aligned on
    [2 ^ m], the blocks get smaller one after the other. *)
Lemma greedy_summary_down (bits last lo : Z) (nets : list ipaddress.Network) :
  greedy_summary bits last lo nets ->
  forall m, 0 <= m <= bits -> (2 ^ m | lo) -> last - lo + 1 < 2 ^ m ->
    Z.of_nat (List.length nets) <= m.
Proof.
  induction 1 as [lo Hlo | lo n rest Hle Hn Hdiv Hfit Hmax Hrest IH]; intros m Hm Hm_div Hrem.
  - cbn. lia.
  - assert (Hpn : 0 < 2 ^ n) by (apply Z.pow_pos_nonneg; lia).
    assert (Hnm : n < m).
    { destruct (Z.lt_ge_cases n m) as [|Hge]; [assumption|].
      assert (2 ^ m <= 2 ^ n) by (apply Z.pow_le_mono_r; lia). lia. }
    assert (Hnext : last - (lo + 2 ^ n) + 1 < 2 ^ n).
    { destruct (Z.le_gt_cases (lo + 2 ^ (n + 1) - 1) last) as [Hfits|Hno].
      - assert (n + 1 <= n); [|lia].
        apply Hmax; [lia | | assumption].
        apply (Z.divide_trans _ (2 ^ m)); [apply pow2_divide_le; lia | assumption].
      - rewrite Z.pow_add_r, Z.pow_1_r in Hno by lia. lia. }
    specialize (IH n ltac:(lia)
                  ltac:(apply Z.divide_add_r; [assumption | apply Z.divide_refl]) Hnext).
    cbn [List.length]. lia.
Qed.

(** From an address aligned on [2 ^ a] the blocks first grow, then get
    smaller. *)
Lemma greedy_summary_up (bits last lo : Z) (nets : list ipaddress.Network) :
  greedy_summary bits last lo nets ->
  1 <= bits -> last < 2 ^ bits -> 0 <= lo ->
  forall a, 0 <= a <= bits -> (2 ^ a | lo) ->
    Z.of_nat (List.length nets) <= (bits - a) + bits.
Proof.
  intros Hgreedy Hbits Hlast.
  induction Hgreedy as [lo Hlo | lo n rest Hle Hn Hdiv Hfit Hmax Hrest IH]; intros Hlo0 a Ha Ha_div.
  - cbn. lia.
  - assert (Hpn : 0 < 2 ^ n) by (apply Z.pow_pos_nonneg; lia).
    assert (Hwhole : greedy_summary bits last lo (ipaddress.mkNetwork lo (bits - n) :: rest))
      by (now apply greedy_block).
    destruct (Z.lt_ge_cases n a) as [Hna|Han].
    { (* the block of size 2^a does not fit *)
      assert (Hrem : last - lo + 1 < 2 ^ a).
      { destruct (Z.le_gt_cases (lo + 2 ^ a - 1) last) as [Hfits|Hno]; [|lia].
        assert (a <= n) by (apply Hmax; [lia | assumption..]). lia. }
      pose proof (greedy_summary_down _ _ _ _ Hwhole a Ha Ha_div Hrem). lia. }
    destruct (Z.eq_dec n bits) as [->|Hnb].
    { (* the whole address space *)
      inversion Hrest as [lo' Hdone | lo' n' rest' Hle' _ _ _ _ _]; subst; [cbn; lia | lia]. }
    destruct (Z.BoolSpec_divide (2 ^ (n + 1)) lo) as [Hmore|Hexact].
    + (* the block is as large as the addresses left allow *)
      assert (Hnext : last - (lo + 2 ^ n) + 1 < 2 ^ n).
      { destruct (Z.le_gt_cases (lo + 2 ^ (n + 1) - 1) last) as [Hfits|Hno].
        - assert (n + 1 <= n); [|lia]. apply Hmax; [lia | assumption..].
        - rewrite Z.pow_add_r, Z.pow_1_r in Hno by lia. lia. }
      pose proof (greedy_summary_down _ _ _ _ Hrest n ltac:(lia)
                    ltac:(apply Z.divide_add_r; [assumption | apply Z.divide_refl]) Hnext).
      cbn [List.length]. lia.
    + (* the block is as large as the alignment allows *)
      specialize (IH ltac:(lia) (n + 1) ltac:(lia)
                     (next_block_aligned lo n ltac:(lia) Hdiv Hexact)).
      cbn [List.length]. lia.
Qed.

Lemma greedy_summary_nonempty (bits last lo : Z) (nets : list ipaddress.Network) :
  greedy_summary bits last lo nets -> lo <= last -> nets <> [].
Proof. intros H Hle. inversion H; subst; [lia | discriminate]. Qed.

Lemma convert_row_length (ipv6 : bool) (row : dbip.Row) (out : list CIDRRecord) :
  convert_row ipv6 row = OK out ->
  (1 <= List.length out <= 2 * Z.to_nat (ipaddress.max_prefixlen (family_of ipv6)))%nat.
Proof.
  unfold convert_row.
  destruct (ipaddress.parse_address _ (dbip.Range_Start row)) as [startip|] eqn:Hs;
    cbn [bind]; [|discriminate].
  destruct (ipaddress.parse_address _ (dbip.Range_End row)) as [endip|] eqn:He;
    cbn [bind]; [|discriminate].
  pose proof (parse_address_range ipv6 _ _ Hs) as [Hs0 _].
  pose proof (parse_address_range ipv6 _ _ He) as [_ He1].
  assert (Hbits : 1 <= ipaddress.max_prefixlen (family_of ipv6)) by (destruct ipv6; cbn; lia).
  unfold ipaddress.summarize_address_range. rewrite address_gt_le.
  destruct (ipaddress.address_le startip endip) eqn:Hle; cbn [negb bind]; [|discriminate].
  apply address_le_ip in Hle.
  assert (Hb0 : 0 <= ipaddress.max_prefixlen (family_of ipv6)) by lia.
  destruct (summarize_loop_greedy _ _ Hb0 He1 _ Hs0) as (nets & -> & Hgreedy).
  cbn [bind]. intros [= <-]. rewrite length_map.
  pose proof (greedy_summary_nonempty _ _ _ _ Hgreedy Hle) as Hne.
  assert (Hlast : ipaddress._ip endip < 2 ^ ipaddress.max_prefixlen (family_of ipv6)).
  { unfold ipaddress.ALL_ONES in He1. lia. }
  pose proof (greedy_summary_up _ _ _ _ Hgreedy Hbits Hlast Hs0 0 ltac:(lia)
                ltac:(rewrite Z.pow_0_r; apply Z.divide_1_l)) as Hup.
  destruct nets; [congruence|]. cbn [List.length] in *. lia.
Qed.

(** X2.  Every row of the range table gives at least one network and at most
    twice as many as the addresses of the family have bits: 64 for IPv4, 256
    for IPv6.  So the frame returned has at least as many rows as the frame
    given, and at most 64 (256) times as many. *)
Theorem convert_iprange_to_cidr_length :
  forall (df : list dbip.Row) (ipv6 : bool) (out : list CIDRRecord),
    convert_iprange_to_cidr df ipv6 = OK out ->
    (List.length df <= List.length out
     <= 2 * Z.to_nat (ipaddress.max_prefixlen (family_of ipv6)) * List.length df)%nat.
Proof.
  intros df ipv6 out. unfold convert_iprange_to_cidr.
  destruct (mapM (convert_row ipv6) df) as [lists|] eqn:Hm; cbn [bind]; [|discriminate].
  intros [= <-]. apply mapM_OK in Hm.
  induction Hm as [|row l df lists Hrow _ IH]; cbn [List.concat List.length]; [lia|].
  rewrite length_app. apply convert_row_length in Hrow. lia.
Qed.

Lemma convert_iprange_to_cidr_length_witness :
  (List.length [dbip.mkRow "10.0.0.1" "10.0.0.6" "IR"]
   <= List.length [mkCIDR "10.0.0.1/32" "IR"; mkCIDR "10.0.0.2/31" "IR";
                   mkCIDR "10.0.0.4/31" "IR"; mkCIDR "10.0.0.6/32" "IR"]
   <= 2 * Z.to_nat (ipaddress.max_prefixlen (family_of false))
      * List.length [dbip.mkRow "10.0.0.1" "10.0.0.6" "IR"])%nat.
Proof.
  exact (convert_iprange_to_cidr_length [dbip.mkRow "10.0.0.1" "10.0.0.6" "IR"] false
           [mkCIDR "10.0.0.1/32" "IR"; mkCIDR "10.0.0.2/31" "IR";
            mkCIDR "10.0.0.4/31" "IR"; mkCIDR "10.0.0.6/32" "IR"] eq_refl).
Defined.

(** ** convert_iprange_to_cidr: when it returns *)

(** A row the converter can take: both bounds are addresses of the family
    and the start is at most the end, as Python compares two addresses: its
    integer is smaller, or it is the same address with the same scope id. *)
Definition convertible (ipv6 : bool) (row : dbip.Row) : Prop :=
  exists startip endip,
    ipaddress.parse_address (family_of ipv6) (dbip.Range_Start row) = OK startip /\
    ipaddress.parse_address (family_of ipv6) (dbip.Range_End row) = OK endip /\
    (ipaddress._ip startip < ipaddress._ip endip \/
     (ipaddress._ip startip = ipaddress._ip endip /\
      ipaddress._scope_id startip = ipaddress._scope_id endip)).

Lemma convert_row_convertible (ipv6 : bool) (row : dbip.Row) :
  (exists out, convert_row ipv6 row = OK out) <-> convertible ipv6 row.
Proof.
  unfold convert_row, convertible. split.
  - intros [out H].
    destruct (ipaddress.parse_address _ (dbip.Range_Start row)) as [startip|] eqn:Hs;
      cbn [bind] in H; [|discriminate].
    destruct (ipaddress.parse_address _ (dbip.Range_End row)) as [endip|] eqn:He;
      cbn [bind] in H; [|discriminate].
    exists startip, endip. split; [reflexivity|]. split; [reflexivity|].
    unfold ipaddress.summarize_address_range in H. rewrite address_gt_le in H.
    apply address_le_iff.
    destruct (ipaddress.address_le startip endip); [reflexivity | discriminate].
  - intros (startip & endip & Hs & He & Hle). rewrite Hs, He. cbn [bind].
    pose proof (parse_address_range ipv6 _ _ Hs) as [Hs0 _].
    pose proof (parse_address_range ipv6 _ _ He) as [_ He1].
    assert (Hbits : 0 <= ipaddress.max_prefixlen (family_of ipv6))
      by (destruct ipv6; cbn; lia).
    unfold ipaddress.summarize_address_range.
    apply address_le_iff in Hle. rewrite address_gt_le, Hle. cbn [negb].
    destruct (summarize_loop_greedy _ _ Hbits He1 _ Hs0) as (nets & -> & _).
    cbn [bind]. eauto.
Qed.

(** X3.  [convert_iprange_to_cidr] returns a frame exactly when every row has
    two bounds that are addresses of the family, the first at most the
    second as Python compares addresses (a smaller integer, or the same
    integer and the same scope id); one row that has not makes the whole
    call raise, with [AddressValueError] for a bound that is no address and
    [ValueError] for a range that ends before it starts or that gives one
    IPv6 address with two different scope ids. *)
Theorem convert_iprange_to_cidr_returns_iff :
  forall (df : list dbip.Row) (ipv6 : bool),
    ((exists out, convert_iprange_to_cidr df ipv6 = OK out)
     <-> Forall (convertible ipv6) df) /\
    (forall e, convert_iprange_to_cidr df ipv6 = Raise e ->
       (e = AddressValueError \/ e = ValueError) /\
       exists row, In row df /\ ~ convertible ipv6 row).
Proof.
  intros df ipv6. split; [split|].
  - intros [out H]. unfold convert_iprange_to_cidr in H.
    destruct (mapM (convert_row ipv6) df) as [lists|] eqn:Hm; cbn [bind] in H; [|discriminate].
    apply Forall_forall. intros row Hrow. apply convert_row_convertible.
    destruct (Forall2_In_l _ _ _ _ (mapM_OK _ _ _ Hm) Hrow) as (l & _ & Hl). eauto.
  - intros Hall. rewrite Forall_forall in Hall. unfold convert_iprange_to_cidr.
    destruct (mapM_total (convert_row ipv6) df) as [lists ->].
    + intros row Hrow. now apply convert_row_convertible, Hall.
    + cbn [bind]. eauto.
  - intros e H. split.
    + apply convert_iprange_to_cidr_Raise in H as (_ & _ & [[-> _]|[-> _]]); auto.
    + unfold convert_iprange_to_cidr in H.
      destruct (mapM (convert_row ipv6) df) as [lists|e0] eqn:Hm; cbn [bind] in H;
        [discriminate|].
      apply mapM_Raise in Hm as (row & Hrow & Hconv).
      exists row. split; [assumption|].
      intros Hc. apply convert_row_convertible in Hc as [out Hout]. congruence.
Qed.

(** ** main: from the sources to the output *)

(** The rows that the sources give for a geolocation and a family, each
    with the place it comes from: an autonomous-system or manual file of
    the ISO code; the ITO sheet, for Iran and IPv4; a row of the block table
    whose two identifiers are the one found for the country; the conversion
    of the country's rows of the range table. *)
Inductive source_row (fs : FileSystem) (g : Geolocation) (ipv6 : bool) (r : CIDRRecord)
  : Prop :=
| from_as_cidrs (rows : list CIDRRecord) :
    as_cidrs_csv fs ipv6 (iso_code g) = Some rows -> In r rows -> source_row fs g ipv6 r
| from_manual (rows : list CIDRRecord) :
    manual_csv fs ipv6 (iso_code g) = Some rows -> In r rows -> source_row fs g ipv6 r
| from_ito (ito_df : list string) (ipv4 : string) :
    ipv6 = false -> iso_code g = "IR" -> ito_xls fs = Some ito_df -> In ipv4 ito_df ->
    r = mkCIDR ipv4 "IR" -> source_row fs g ipv6 r
| from_geolite2 (geoinfo_df : list locations.Row) (ipblocks_df : list blocks.Row)
    (geo_id : Z) (b : blocks.Row) :
    locations_csv fs = Some geoinfo_df ->
    nth_error
      (map locations.geoname_id
         (filter (fun l => String.eqb (locations.country_name l) (name g)) geoinfo_df)) 0
      = Some geo_id ->
    blocks_csv fs ipv6 = Some ipblocks_df -> In b ipblocks_df ->
    blocks.geoname_id b = Some geo_id ->
    blocks.registered_country_geoname_id b = Some geo_id ->
    r = mkCIDR (blocks.network b) (iso_code g) -> source_row fs g ipv6 r
| from_dbip (df : list dbip.Row) (rows : list CIDRRecord) :
    dbip_csv fs = Some df ->
    convert_iprange_to_cidr
      (filter (fun row => Bool.eqb (contains ":" (dbip.Range_Start row)) ipv6)
         (filter (fun row => negb (isna (dbip.Country row))
                             && String.eqb (dbip.Country row) (iso_code g)) df)) ipv6
      = OK rows ->
    In r rows -> source_row fs g ipv6 r.

Lemma optional_rows_In (content : option (list CIDRRecord)) (r : CIDRRecord) :
  In r (optional_rows content) <-> exists rows, content = Some rows /\ In r rows.
Proof.
  destruct content as [rows|]; cbn.
  - split; [eauto | intros (rows' & [= <-] & H); assumption].
  - split; [intros [] | intros (rows' & H & _); discriminate].
Qed.

Lemma geolite2_rows_In (ipblocks_df : list blocks.Row) (geoid : Z) (iso : string)
    (r : CIDRRecord) :
  In r (geolite2_rows ipblocks_df geoid iso) <->
  exists b, In b ipblocks_df /\ blocks.geoname_id b = Some geoid /\
            blocks.registered_country_geoname_id b = Some geoid /\
            r = mkCIDR (blocks.network b) iso.
Proof.
  unfold geolite2_rows. rewrite in_map_iff. split.
  - intros (b & <- & Hb). apply filter_In in Hb as [Hb Hids].
    apply andb_true_iff in Hids as [H1 H2].
    apply same_id_iff in H1. apply same_id_iff in H2. exists b. auto.
  - intros (b & Hb & H1 & H2 & ->). exists b. split; [reflexivity|].
    apply filter_In. split; [assumption|].
    apply andb_true_iff. split; now apply same_id_iff.
Qed.

Lemma filter_family_false (df : list dbip.Row) :
  filter (fun row => Bool.eqb (contains ":" (dbip.Range_Start row)) false) df
  = filter (fun row => negb (contains ":" (dbip.Range_Start row))) df.
Proof. apply filter_ext. intros row. now destruct (contains ":" _). Qed.

Lemma filter_family_true (df : list dbip.Row) :
  filter (fun row => Bool.eqb (contains ":" (dbip.Range_Start row)) true) df
  = filter (fun row => contains ":" (dbip.Range_Start row)) df.
Proof. apply filter_ext. intros row. now destruct (contains ":" _). Qed.

(** One turn of the loop appends to each frame exactly the rows that the
    sources give for the geolocation. *)
Lemma aggregate_geolocation_rows (fs : FileSystem) (a4 a6 : list CIDRRecord)
    (g : Geolocation) (log : list Event) (a4' a6' : list CIDRRecord) :
  aggregate_geolocation fs (a4, a6) g = (log, OK (a4', a6')) ->
  forall r,
    (In r a4' <-> In r a4 \/ source_row fs g false r) /\
    (In r a6' <-> In r a6 \/ source_row fs g true r).
Proof.
  intros Hrun r.
  apply aggregate_geolocation_OK in Hrun
    as (df & geoinfo_df & blocks4 & blocks6 & dbip_ipv4 & dbip_ipv6 & geo_id & ito_df
        & Hdf & Hloc & Hb4 & Hb6 & Hito & H4 & H6 & Hid & _ & -> & ->).
  rewrite <- filter_family_false in H4. rewrite <- filter_family_true in H6.
  split.
  - rewrite !in_app_iff, !optional_rows_In, geolite2_rows_In, in_map_iff. split.
    + intros [H|[H|[H|[H|[H|H]]]]]; [now left | right..].
      * now apply (from_dbip fs g false r df dbip_ipv4).
      * destruct H as (b & Hb & H1 & H2 & ->).
        now apply (from_geolite2 fs g false _ geoinfo_df blocks4 geo_id b).
      * destruct H as (rows & Hrows & Hr). now apply (from_as_cidrs fs g false r rows).
      * destruct H as (rows & Hrows & Hr). now apply (from_manual fs g false r rows).
      * destruct H as (ipv4 & <- & Hip).
        destruct (String.eqb_spec (iso_code g) "IR") as [Hiso|_]; [|subst ito_df; destruct Hip].
        now apply (from_ito fs g false _ ito_df ipv4).
    + intros [H|H]; [now left|]. right.
      destruct H as [rows Hrows Hr | rows Hrows Hr | ito ipv4 _ Hiso Hfile Hip ->
                     | geoinfo blocks id b Hloc' Hid' Hblocks Hb H1 H2 ->
                     | df' rows Hdf' Hconv Hr].
      * right. right. left. eauto.
      * right. right. right. left. eauto.
      * right. right. right. right. exists ipv4. split; [reflexivity|].
        rewrite Hiso in Hito. cbn in Hito. congruence.
      * right. left. exists b.
        assert (geoinfo = geoinfo_df) by congruence. subst geoinfo.
        assert (id = geo_id) by congruence. subst id.
        assert (blocks = blocks4) by congruence. subst blocks. auto.
      * left. assert (df' = df) by congruence. subst df'. congruence.
  - rewrite !in_app_iff, !optional_rows_In, geolite2_rows_In. split.
    + intros [H|[H|[H|[H|H]]]]; [now left | right..].
      * now apply (from_dbip fs g true r df dbip_ipv6).
      * destruct H as (b & Hb & H1 & H2 & ->).
        now apply (from_geolite2 fs g true _ geoinfo_df blocks6 geo_id b).
      * destruct H as (rows & Hrows & Hr). now apply (from_as_cidrs fs g true r rows).
      * destruct H as (rows & Hrows & Hr). now apply (from_manual fs g true r rows).
    + intros [H|H]; [now left|]. right.
      destruct H as [rows Hrows Hr | rows Hrows Hr | ito ipv4 Hfam _ _ _ _
                     | geoinfo blocks id b Hloc' Hid' Hblocks Hb H1 H2 ->
                     | df' rows Hdf' Hconv Hr].
      * right. right. left. eauto.
      * right. right. right. eauto.
      * discriminate.
      * right. left. exists b.
        assert (geoinfo = geoinfo_df) by congruence. subst geoinfo.
        assert (id = geo_id) by congruence. subst id.
        assert (blocks = blocks6) by congruence. subst blocks. auto.
      * left. assert (df' = df) by congruence. subst df'. congruence.
Qed.

Lemma aggregate_from_rows (fs : FileSystem) (todo : list Geolocation) :
  forall (a4 a6 : list CIDRRecord) (log : list Event) (b4 b6 : list CIDRRecord),
    aggregate_from fs (a4, a6) todo = (log, OK (b4, b6)) ->
    forall r,
      (In r b4 <-> In r a4 \/ exists g, In g todo /\ source_row fs g false r) /\
      (In r b6 <-> In r a6 \/ exists g, In g todo /\ source_row fs g true r).
Proof.
  induction todo as [|g rest IH]; intros a4 a6 log b4 b6; cbn [aggregate_from].
  - unfold ret. intros [= _ <- <-] r.
    split; (split; [now left | intros [H|(g & [] & _)]; assumption]).
  - destruct (aggregate_geolocation fs (a4, a6) g) as [log1 [[a4' a6']|e]] eqn:Hg;
      cbn [bindIO]; [|discriminate].
    destruct (aggregate_from fs (a4', a6') rest) as [log2 res] eqn:Hrest.
    intros [= _ ->] r.
    destruct (IH _ _ _ _ _ Hrest r) as [IH4 IH6].
    destruct (aggregate_geolocation_rows _ _ _ _ _ _ _ Hg r) as [Hg4 Hg6].
    split.
    + rewrite IH4, Hg4. split.
      * intros [[H|H]|(g' & Hg' & H)]; [now left | right; exists g | right; exists g'];
          (split; [cbn; auto | assumption]).
      * intros [H|(g' & [<-|Hg'] & H)]; [now left; left | now left; right | right; eauto].
    + rewrite IH6, Hg6. split.
      * intros [[H|H]|(g' & Hg' & H)]; [now left | right; exists g | right; exists g'];
          (split; [cbn; auto | assumption]).
      * intros [H|(g' & [<-|Hg'] & H)]; [now left; left | now left; right | right; eauto].
Qed.

(** The frames of a run that succeeds, and the file it writes. *)
Lemma main_OK (S : Sorter) (fs : FileSystem) :
  snd (main S fs) = OK tt ->
  exists log a4 a6 expanded,
    aggregate fs = (log, OK (a4, a6)) /\
    expand_df S (drop_duplicates CIDRRecord_eqb (fun r => r) a4) = OK expanded /\
    fst (main S fs) =
      log ++ [MakeDirs "./Aggregated_Data";
              WriteFile "./Aggregated_Data/agg_cidrs.csv"
                (mkCsv ["Network"; "Country"]
                   (map (fun r => [Network r; Country r])
                      (expanded ++ drop_duplicates CIDRRecord_eqb (fun r => r) a6)))].
Proof.
  intros H.
  destruct (data_dir fs) eqn:Hdir.
  2:{ unfold main in H. rewrite Hdir in H. discriminate. }
  rewrite (main_run S fs Hdir) in H |- *.
  destruct (aggregate fs) as [log [[a4 a6]|e]] eqn:Hagg; [|discriminate].
  destruct (expand_df S _) as [expanded|e] eqn:Hexp; [|discriminate].
  exists log, a4, a6, expanded. split; [reflexivity|]. split; [exact Hexp | reflexivity].
Qed.

Lemma drop_duplicates_rows (l : list CIDRRecord) (r : CIDRRecord) :
  In r (drop_duplicates CIDRRecord_eqb (fun r => r) l) <-> In r l.
Proof.
  pose proof (drop_duplicates_keys CIDRRecord_eqb (fun r => r) CIDRRecord_eqb_iff r l) as H.
  now rewrite !map_id in H.
Qed.

(** X23.  The IPv6 rows are written as the sources give them.  In the file of a
    run that succeeds, the lines after those of the expanded IPv4 frame are
    the rows that the IPv6 sources give for Iran, China and Russia, each
    once, whatever their text: none is dropped, none is changed, none is
    checked. *)
Theorem main_writes_every_ipv6_row :
  forall (S : Sorter) (fs : FileSystem),
    snd (main S fs) = OK tt ->
    exists log expanded ipv6_rows,
      fst (main S fs) =
        log ++ [MakeDirs "./Aggregated_Data";
                WriteFile "./Aggregated_Data/agg_cidrs.csv"
                  (mkCsv ["Network"; "Country"]
                     (map (fun r => [Network r; Country r]) (expanded ++ ipv6_rows)))] /\
      NoDup ipv6_rows /\
      forall r, In r ipv6_rows <->
                exists g, In g geolocations /\ source_row fs g true r.
Proof.
  intros S fs H.
  destruct (main_OK S fs H) as (log & a4 & a6 & expanded & Hagg & _ & Htrace).
  exists log, expanded, (drop_duplicates CIDRRecord_eqb (fun r => r) a6).
  split; [assumption|]. split.
  - pose proof (drop_duplicates_NoDup CIDRRecord_eqb (fun r => r) CIDRRecord_eqb_iff a6) as Hnd.
    now rewrite map_id in Hnd.
  - intros r. rewrite drop_duplicates_rows.
    destruct (aggregate_from_rows fs geolocations [] [] log a4 a6 Hagg r) as [_ H6].
    rewrite H6. split; [intros [[]|Hg]; assumption | now right].
Qed.

Lemma main_writes_every_ipv6_row_witness :
  exists log expanded ipv6_rows,
    fst (main stable_sorter example_fs) =
      log ++ [MakeDirs "./Aggregated_Data";
              WriteFile "./Aggregated_Data/agg_cidrs.csv"
                (mkCsv ["Network"; "Country"]
                   (map (fun r => [Network r; Country r]) (expanded ++ ipv6_rows)))] /\
    NoDup ipv6_rows /\
    forall r, In r ipv6_rows <->
              exists g, In g geolocations /\ source_row example_fs g true r.
Proof. exact (main_writes_every_ipv6_row stable_sorter example_fs eq_refl). Defined.

(** X24.  No IPv4 network of the sources is lost.  In a run that succeeds, every
    row that an IPv4 source gives can be split and generalized, and the
    file holds a line for its generalized address, with a prefix length that
    is not longer. *)
Theorem main_covers_every_ipv4_row :
  forall (S : Sorter) (fs : FileSystem) (g : Geolocation) (r : CIDRRecord),
    snd (main S fs) = OK tt ->
    In g geolocations -> source_row fs g false r ->
    exists item item' subnet country path content,
      split_row r = OK item /\ generalize item = OK item' /\
      subnet <= Subnet item' /\
      In (WriteFile path content) (fst (main S fs)) /\
      In [(IP item' ++ "/" ++ py_str subnet)%string; country] (lines content).
Proof.
  intros S fs g r H Hg Hr.
  destruct (main_OK S fs H) as (log & a4 & a6 & expanded & Hagg & Hexp & Htrace).
  assert (Hin : In r (drop_duplicates CIDRRecord_eqb (fun r => r) a4)).
  { apply drop_duplicates_rows.
    apply (aggregate_from_rows fs geolocations [] [] log a4 a6 Hagg r). right. eauto. }
  destruct (expand_df_OK_expandable S _ _ Hexp) as [Hne Hall].
  destruct (expand_df_phases S _ Hne Hall)
    as (sl & el & tmp & Hsplit & Hgen & Hres & Hout).
  rewrite Hout in Hexp. injection Hexp as <-.
  destruct (Forall2_In_l _ _ _ _ (mapM_OK _ _ _ Hsplit) Hin) as (item & Hitem & Hs).
  destruct (Forall2_In_l _ _ _ _ (mapM_OK _ _ _ Hgen) Hitem) as (item' & Hitem' & Hgn).
  assert (Hk : In (IP item') (map IP tmp)).
  { apply (resolve_conflicts_keys S el tmp _ Hres). now apply in_map. }
  apply in_map_iff in Hk as (kept & Hip & Hkept).
  destruct (resolve_conflicts_min S _ _ kept Hres Hkept) as [_ Hmin].
  exists item, item', (Subnet kept), (SCountry kept).
  eexists. eexists. split; [assumption|]. split; [assumption|].
  split; [now apply Hmin|]. split.
  - rewrite Htrace. apply in_or_app. right. right. left. reflexivity.
  - cbn [lines]. apply in_map_iff. exists (reassemble kept).
    split; [unfold reassemble; cbn [Network Country]; now rewrite Hip|].
    apply in_or_app. left. apply (sort_by_In S le_Country). now apply in_map.
Qed.

Lemma main_covers_every_ipv4_row_witness :
  exists item item' subnet country path content,
    split_row (mkCIDR "5.160.0.0/16" "IR") = OK item /\ generalize item = OK item' /\
    subnet <= Subnet item' /\
    In (WriteFile path content) (fst (main stable_sorter example_fs)) /\
    In [(IP item' ++ "/" ++ py_str subnet)%string; country] (lines content).
Proof.
  apply (main_covers_every_ipv4_row stable_sorter example_fs (mkGeo "Iran" "IR")).
  - reflexivity.
  - now left.
  - apply (from_ito example_fs (mkGeo "Iran" "IR") false _ ["5.160.0.0/16"] "5.160.0.0/16");
      try reflexivity.
    now left.
Defined.

(** X25.  One IPv4 row that [expand_df] cannot take apart, from whichever source,
    makes the whole run fail: [main] ends with [IndexError] or [ValueError]
    after its reads and writes nothing, whatever the other rows are.  Such
    a row has no "/", or has after its first "/" a text that [int] does not
    read (digits of any script are read), or is a dotted /32 with fewer than
    four parts. *)
Theorem main_fails_on_malformed_ipv4_row :
  forall (S : Sorter) (fs : FileSystem) (log : list Event)
         (a4 a6 : list CIDRRecord) (g : Geolocation) (r : CIDRRecord),
    data_dir fs = true ->
    aggregate fs = (log, OK (a4, a6)) ->
    In g geolocations -> source_row fs g false r -> ~ expandable r ->
    exists e,
      main S fs = (log, Raise e) /\ (e = IndexError \/ e = ValueError) /\
      writes (fst (main S fs)) = [] /\ exit_status (snd (main S fs)) = 1.
Proof.
  intros S fs log a4 a6 g r Hdir Hagg Hg Hr Hbad.
  assert (Hin : In r (drop_duplicates CIDRRecord_eqb (fun r => r) a4)).
  { apply drop_duplicates_rows.
    apply (aggregate_from_rows fs geolocations [] [] log a4 a6 Hagg r). right. eauto. }
  pose proof (reads_only_writes (aggregate fs) (reads_only_aggregate_from fs _ _)) as Hreads.
  rewrite (main_run S fs Hdir), Hagg. rewrite Hagg in Hreads. cbn [fst] in Hreads.
  destruct (expand_df S _) as [expanded|e] eqn:Hexp.
  - exfalso. apply Hbad.
    destruct (expand_df_OK_expandable S _ _ Hexp) as [_ Hall].
    rewrite Forall_forall in Hall. now apply Hall.
  - exists e. split; [reflexivity|].
    assert (He : e = IndexError \/ e = ValueError).
    { destruct (expand_df_raises_cases S _ _ Hexp) as [[_ Hnil]|He]; [|assumption].
      rewrite Hnil in Hin. destruct Hin. }
    split; [assumption|]. cbn [fst snd]. split; [assumption|].
    destruct He as [->| ->]; reflexivity.
Qed.

(** [example_fs] with a bare address in the ITO sheet. *)
Definition example_fs_bare_ito : FileSystem :=
  mkFS (data_dir example_fs) (dbip_csv example_fs) (locations_csv example_fs)
       (blocks_csv example_fs) (as_cidrs_csv example_fs) (manual_csv example_fs)
       (Some ["5.160.0.1"]).

Lemma main_fails_on_malformed_ipv4_row_witness :
  exists e,
    main stable_sorter example_fs_bare_ito
      = (fst (aggregate example_fs_bare_ito), Raise e) /\
    (e = IndexError \/ e = ValueError) /\
    writes (fst (main stable_sorter example_fs_bare_ito)) = [] /\
    exit_status (snd (main stable_sorter example_fs_bare_ito)) = 1.
Proof.
  apply (main_fails_on_malformed_ipv4_row stable_sorter example_fs_bare_ito
           (fst (aggregate example_fs_bare_ito))
           [mkCIDR "1.0.0.0/30" "IR"; mkCIDR "5.160.0.1" "IR"; mkCIDR "1.0.1.0/24" "CN"]
           [mkCIDR "2001:db8::/112" "IR"; mkCIDR "2001:db8::/112" "IR"]
           (mkGeo "Iran" "IR") (mkCIDR "5.160.0.1" "IR")).
  - reflexivity.
  - reflexivity.
  - now left.
  - apply (from_ito example_fs_bare_ito (mkGeo "Iran" "IR") false _ ["5.160.0.1"] "5.160.0.1");
      try reflexivity.
    now left.
  - intros (ip & p & rest & n & Hs & _). cbn in Hs. discriminate.
Defined.
